(** * The synchronisation core of the task manager (js/app.js)

    A shallow embedding of the IndexedDB task store, the Notion client
    boundary and the three functions that make up the sync engine:
    [syncConnection], [syncAllConnections] and [pushTaskToNotion],
    followed by the properties the design document states about them.

    Asynchronous functions are modelled in a state-and-exception monad
    over a [World] that holds the two object stores, the number of clock
    readings taken so far, the history of requests sent to Notion and
    the lines written to the console.  Everything that comes from outside
    the program (the clock, the collation used by [localeCompare] and the
    answers of the Notion API) is a field of an environment [Env] the
    development is parametrised by. *)

From Stdlib Require Import ZArith List Ascii String Bool Lia Sorted Permutation.
Import ListNotations.
Local Open Scope string_scope.
Local Open Scope list_scope.
Local Open Scope Z_scope.

(** ** JavaScript values *)

(** The values that flow through the fields of a task: [undefined],
    [null], booleans, (integral) numbers and strings. *)
Inductive JsVal : Type :=
| JUndefined
| JNull
| JBool (b : bool)
| JNum (n : Z)
| JStr (s : string).

(** [a === b]. *)
Definition js_eqb (a b : JsVal) : bool :=
  match a, b with
  | JUndefined, JUndefined => true
  | JNull, JNull => true
  | JBool x, JBool y => Bool.eqb x y
  | JNum x, JNum y => (x =? y)%Z
  | JStr x, JStr y => (x =? y)%string
  | _, _ => false
  end.

(** The conversion to boolean behind [if (v)], [!v], [v ? a : b], [||]
    and [&&]. *)
Definition truthy (v : JsVal) : bool :=
  match v with
  | JUndefined | JNull => false
  | JBool b => b
  | JNum n => negb (n =? 0)%Z
  | JStr s => negb (s =? "")%string
  end.

(** [a || b]. *)
Definition js_or (a b : JsVal) : JsVal := if truthy a then a else b.

(** An object literal, its properties in the order they are written; a
    later property overrides an earlier one of the same name, which is
    what makes [{...todo, source: 'notion'}] work. *)
Definition JsObj : Type := list (string * JsVal).

(** [o[key]], [undefined] when the property is missing. *)
Definition prop (o : JsObj) (key : string) : JsVal :=
  fold_left (fun acc kv => if (fst kv =? key)%string then snd kv else acc)
            o JUndefined.

(** The built-in [Map], here only ever written with [set] and read with
    [get], so the insertion order cannot be observed. *)
Module JsMap.
Definition t (V : Type) : Type := list (JsVal * V).
Definition empty {V} : t V := [].
Definition set {V} (k : JsVal) (v : V) (m : t V) : t V := (k, v) :: m.
Fixpoint get {V} (k : JsVal) (m : t V) : option V :=
    match m with
    | [] => None
    | (k', v) :: m' => if js_eqb k' k then Some v else get k m'
    end.
End JsMap.

(** The built-in [Set], used through [add] and [has]. *)
Module JsSet.
Definition t : Type := list JsVal.
Definition empty : t := [].
Definition add (v : JsVal) (s : t) : t := v :: s.
Definition has (v : JsVal) (s : t) : bool := existsb (js_eqb v) s.
End JsSet.

(** ** Records of the two object stores *)

(** A record of the ['tasks'] store, with the fields [dbCreateTask]
    writes.  [id] is the key the store generates; [completed] is always
    written as [x ? 1 : 0]; the two timestamps are always outputs of
    [localNow]; every other field is stored as it is received. *)
Module Task.
Record t : Type := mk {
    id : Z;
    title : JsVal;
    description : JsVal;
    completed : Z;
    due_date : JsVal;
    source : JsVal;
    source_id : JsVal;
    source_url : JsVal;
    connection_id : JsVal;
    created_at : string;
    updated_at : string;
  }.

Definition with_completed (c : Z) (x : t) : t :=
    mk (id x) (title x) (description x) c (due_date x) (source x)
       (source_id x) (source_url x) (connection_id x) (created_at x)
       (updated_at x).

Definition with_updated_at (now : string) (x : t) : t :=
    mk (id x) (title x) (description x) (completed x) (due_date x) (source x)
       (source_id x) (source_url x) (connection_id x) (created_at x) now.

  (** [x[key] = v] for the properties that hold a value as received.  The
      only caller is the loop of [dbUpdateTask], whose keys are drawn from
      a constant list; any other key leaves the record as it is. *)
Definition set_prop (key : string) (v : JsVal) (x : t) : t :=
    if (key =? "title")%string then
      mk (id x) v (description x) (completed x) (due_date x) (source x)
         (source_id x) (source_url x) (connection_id x) (created_at x)
         (updated_at x)
    else if (key =? "description")%string then
      mk (id x) (title x) v (completed x) (due_date x) (source x)
         (source_id x) (source_url x) (connection_id x) (created_at x)
         (updated_at x)
    else if (key =? "due_date")%string then
      mk (id x) (title x) (description x) (completed x) v (source x)
         (source_id x) (source_url x) (connection_id x) (created_at x)
         (updated_at x)
    else if (key =? "source")%string then
      mk (id x) (title x) (description x) (completed x) (due_date x) v
         (source_id x) (source_url x) (connection_id x) (created_at x)
         (updated_at x)
    else if (key =? "source_id")%string then
      mk (id x) (title x) (description x) (completed x) (due_date x)
         (source x) v (source_url x) (connection_id x) (created_at x)
         (updated_at x)
    else if (key =? "source_url")%string then
      mk (id x) (title x) (description x) (completed x) (due_date x)
         (source x) (source_id x) v (connection_id x) (created_at x)
         (updated_at x)
    else if (key =? "connection_id")%string then
      mk (id x) (title x) (description x) (completed x) (due_date x)
         (source x) (source_id x) (source_url x) v (created_at x)
         (updated_at x)
    else x.
End Task.

(** A record of the ['connections'] store. *)
Module Conn.
Record config_t : Type := mk_config {
    token : string;
    database_id : string;
  }.

Record t : Type := mk {
    id : Z;
    type : string;
    name : string;
    config : config_t;
    enabled : JsVal;
    last_synced_at : JsVal;
    created_at : string;
  }.

  (** [conn[k] = v] as [dbUpdateConnection] does it, on the fields of
      the record.  The record holds [id] as a number and [type], [name]
      and [created_at] as strings, which is what the program stores in
      them: a value of another type for one of these keys, a new
      [config] and a key the record does not have are beyond it and
      leave it as it is.  The only caller of [dbUpdateConnection] passes
      [last_synced_at]. *)
Definition set_prop (k : string) (v : JsVal) (c : t) : t :=
    if (k =? "last_synced_at")%string then
      mk (id c) (type c) (name c) (config c) (enabled c) v (created_at c)
    else if (k =? "enabled")%string then
      mk (id c) (type c) (name c) (config c) v (last_synced_at c)
         (created_at c)
    else
      match v with
      | JStr s =>
          if (k =? "name")%string then
            mk (id c) (type c) s (config c) (enabled c) (last_synced_at c)
               (created_at c)
          else if (k =? "type")%string then
            mk (id c) s (name c) (config c) (enabled c) (last_synced_at c)
               (created_at c)
          else if (k =? "created_at")%string then
            mk (id c) (type c) (name c) (config c) (enabled c)
               (last_synced_at c) s
          else c
      | JNum n =>
          if (k =? "id")%string then
            mk n (type c) (name c) (config c) (enabled c) (last_synced_at c)
               (created_at c)
          else c
      | _ => c
      end.
End Conn.

(** One element of the list [notionFetchTodos] returns.  [title],
    [description] and [source_url] are results of [join] and of string
    concatenation in [notionCollectTodos], hence strings; [source_id] is
    the identifier of the block and [completed] its [checked] flag. *)
Module Todo.
Record t : Type := mk {
    source_id : string;
    title : string;
    completed : bool;
    description : string;
    source_url : string;
  }.

  (** The object [{...todo}]. *)
Definition obj (x : t) : JsObj :=
    [ ("source_id", JStr (source_id x));
      ("title", JStr (title x));
      ("completed", JBool (completed x));
      ("description", JStr (description x));
      ("source_url", JStr (source_url x)) ].
End Todo.

(** ** The world around the program *)

(** A request sent to the Notion API. *)
Inductive RemoteCall : Type :=
| UpdateTodoChecked (token : string) (blockId : JsVal) (checked : bool)
| UpdateTodoText (token : string) (blockId : JsVal) (text : JsVal)
| FetchTodos (token : string) (databaseId : string).

(** A line written with [console.log] or [console.error]. *)
Inductive LogLine : Type :=
| SyncLog (name : string) (synced : nat)
| SyncFailed (name : string) (message : string)
| NotionPushFailed (message : string)
| ErrorLine (message : string).

Record World : Type := mkWorld {
  tasks : list Task.t;          (* the 'tasks' store, in key order *)
  task_key : Z;                 (* its key generator *)
  connections : list Conn.t;    (* the 'connections' store, in key order *)
  conn_key : Z;                 (* its key generator *)
  ticks : nat;                  (* clock readings taken so far *)
  calls : list RemoteCall;      (* requests sent so far, oldest first *)
  console : list LogLine;       (* lines written so far, oldest first *)
}.

(** What the program cannot decide: the time, the collation, and whether
    and what the Notion API answers, given the requests it has seen. *)
Record Env : Type := mkEnv {
  clock : nat -> string;
  localeCompare : string -> string -> Z;
  patch : list RemoteCall -> RemoteCall -> option string;
  query : list RemoteCall -> string -> string -> string + list Todo.t;
}.

(** ** The monad of asynchronous functions *)

Inductive Result (A : Type) : Type :=
| Ok (a : A)
| Thrown (message : string).
Arguments Ok {A} a.
Arguments Thrown {A} message.

Definition M (A : Type) : Type := World -> Result A * World.

Definition ret {A} (a : A) : M A := fun w => (Ok a, w).

Definition bind {A B} (m : M A) (k : A -> M B) : M B :=
  fun w =>
    match m w with
    | (Ok a, w') => k a w'
    | (Thrown e, w') => (Thrown e, w')
    end.

Definition throw {A} (message : string) : M A := fun w => (Thrown message, w).

(** [try { m } catch (err) { h(err.message) }]. *)
Definition try_catch {A} (m : M A) (h : string -> M A) : M A :=
  fun w =>
    match m w with
    | (Ok a, w') => (Ok a, w')
    | (Thrown e, w') => h e w'
    end.

Notation "x <- m ;; k" := (bind m (fun x => k))
  (at level 61, m at next level, right associativity).
Notation "m ;;; k" := (bind m (fun _ => k))
  (at level 61, right associativity).

(** [for (const x of l) { f(x) }]. *)
Fixpoint forM_ {A} (l : list A) (f : A -> M unit) : M unit :=
  match l with
  | [] => ret tt
  | x :: l' => f x ;;; forM_ l' f
  end.

(** A [for ... of] loop that also updates a local variable. *)
Fixpoint foldM {A S} (f : S -> A -> M S) (l : list A) (s : S) : M S :=
  match l with
  | [] => ret s
  | x :: l' => s' <- f s x ;; foldM f l' s'
  end.

(** The world an action leaves behind, and the value or error it ends
    with. *)
Definition exec {A} (m : M A) (w : World) : World := snd (m w).
Definition outcome {A} (m : M A) (w : World) : Result A := fst (m w).

(** ** Array.prototype.sort *)

(** The sort is stable: an element moves past those it compares greater
    than, and stays before the ones it ties with. *)
Fixpoint sort_insert {A} (cmp : A -> A -> Z) (x : A) (l : list A) : list A :=
  match l with
  | [] => [x]
  | y :: l' => if (0 <? cmp x y)%Z then y :: sort_insert cmp x l' else x :: l
  end.

Definition array_sort {A} (cmp : A -> A -> Z) (l : list A) : list A :=
  fold_right (sort_insert cmp) [] l.

(** ** The object stores *)

Definition idb_get (k : Z) (l : list Task.t) : option Task.t :=
  find (fun t => (Task.id t =? k)%Z) l.

(** [put] replaces the record with the same key, or inserts in key
    order. *)
Fixpoint idb_put (t : Task.t) (l : list Task.t) : list Task.t :=
  match l with
  | [] => [t]
  | u :: l' =>
      if (Task.id u =? Task.id t)%Z then t :: l'
      else if (Task.id t <? Task.id u)%Z then t :: l
      else u :: idb_put t l'
  end.

Definition idb_delete (k : Z) (l : list Task.t) : list Task.t :=
  filter (fun t => negb (Task.id t =? k)%Z) l.

Definition conn_get (k : Z) (l : list Conn.t) : option Conn.t :=
  find (fun c => (Conn.id c =? k)%Z) l.

Fixpoint conn_put (c : Conn.t) (l : list Conn.t) : list Conn.t :=
  match l with
  | [] => [c]
  | u :: l' =>
      if (Conn.id u =? Conn.id c)%Z then c :: l'
      else if (Conn.id c <? Conn.id u)%Z then c :: l
      else u :: conn_put c l'
  end.

Definition conn_delete (k : Z) (l : list Conn.t) : list Conn.t :=
  filter (fun c => negb (Conn.id c =? k)%Z) l.

(** ** The program *)

Record SyncResult : Type := mkSyncResult { synced : nat }.

Section Program.

Variable env : Env.

(** [localNow()]: one more reading of the clock. *)
Definition localNow : M string :=
  fun w =>
    (Ok (clock env (ticks w)),
     mkWorld (tasks w) (task_key w) (connections w) (conn_key w)
             (S (ticks w)) (calls w) (console w)).

Definition console_write (line : LogLine) : M unit :=
  fun w =>
    (Ok tt,
     mkWorld (tasks w) (task_key w) (connections w) (conn_key w)
             (ticks w) (calls w) (console w ++ [line])).

(** *** Requests to the object stores

    [dbOpen] returns the already open database after the first call and
    is left out.  The requests below are those of a store that answers;
    [idbReq] is the promise of a request the store may refuse. *)

(** [idbReq(req)], awaited: [error] is what the store answers the
    request with, [None] when it succeeds and the error it reports
    otherwise, with which the promise is rejected. *)
Definition idbReq {A} (error : option string) (request : M A) : M A :=
  match error with
  | Some message => throw message
  | None => request
  end.

Definition tasks_getAll : M (list Task.t) := fun w => (Ok (tasks w), w).

Definition tasks_get (k : Z) : M (option Task.t) :=
  fun w => (Ok (idb_get k (tasks w)), w).

(** [add] of a value without key: the generator provides the key, which
    is written into the record at the key path ['id']. *)
Definition tasks_add (value : Z -> Task.t) : M Z :=
  fun w =>
    (Ok (task_key w),
     mkWorld (tasks w ++ [value (task_key w)]) (task_key w + 1)
             (connections w) (conn_key w) (ticks w) (calls w) (console w)).

Definition tasks_put (t : Task.t) : M unit :=
  fun w =>
    (Ok tt,
     mkWorld (idb_put t (tasks w)) (task_key w) (connections w) (conn_key w)
             (ticks w) (calls w) (console w)).

Definition tasks_delete (k : Z) : M unit :=
  fun w =>
    (Ok tt,
     mkWorld (idb_delete k (tasks w)) (task_key w) (connections w)
             (conn_key w) (ticks w) (calls w) (console w)).

Definition connections_getAll : M (list Conn.t) :=
  fun w => (Ok (connections w), w).

Definition connections_get (k : Z) : M (option Conn.t) :=
  fun w => (Ok (conn_get k (connections w)), w).

Definition connections_add (value : Z -> Conn.t) : M Z :=
  fun w =>
    (Ok (conn_key w),
     mkWorld (tasks w) (task_key w) (connections w ++ [value (conn_key w)])
             (conn_key w + 1) (ticks w) (calls w) (console w)).

Definition connections_put (c : Conn.t) : M unit :=
  fun w =>
    (Ok tt,
     mkWorld (tasks w) (task_key w) (conn_put c (connections w)) (conn_key w)
             (ticks w) (calls w) (console w)).

Definition connections_delete (k : Z) : M unit :=
  fun w =>
    (Ok tt,
     mkWorld (tasks w) (task_key w) (conn_delete k (connections w))
             (conn_key w) (ticks w) (calls w) (console w)).

(** *** Tasks CRUD *)

(** The comparison function handed to [sort] in [dbGetAllTasks]. *)
Definition task_order (a b : Task.t) : Z :=
  if negb (Task.completed a =? Task.completed b)%Z then
    (if negb (Task.completed a =? 0)%Z then 1 else -1)
  else
    localeCompare env
      (if (Task.created_at b =? "")%string then "" else Task.created_at b)
      (if (Task.created_at a =? "")%string then "" else Task.created_at a).

Definition dbGetAllTasks (filters : JsObj) : M (list Task.t) :=
  all <- tasks_getAll ;;
  let tasks := all in
  let tasks :=
    if truthy (prop filters "source") then
      filter (fun t => js_eqb (Task.source t) (prop filters "source")) tasks
    else tasks in
  let tasks :=
    if negb (js_eqb (prop filters "completed") JUndefined) then
      filter (fun t => js_eqb (JBool (negb (Task.completed t =? 0)%Z))
                              (prop filters "completed")) tasks
    else tasks in
  ret (array_sort task_order tasks).

Definition dbGetTask (id : Z) : M (option Task.t) := tasks_get id.

Definition dbCreateTask (data : JsObj) : M Task.t :=
  now <- localNow ;;
  let task := fun id =>
    Task.mk id
      (js_or (prop data "title") (JStr ""))
      (js_or (prop data "description") (JStr ""))
      (if truthy (prop data "completed") then 1 else 0)
      (js_or (prop data "due_date") JNull)
      (js_or (prop data "source") (JStr "local"))
      (js_or (prop data "source_id") JNull)
      (js_or (prop data "source_url") JNull)
      (js_or (prop data "connection_id") JNull)
      now
      now in
  id <- tasks_add task ;;
  ret (task id).

Definition allowed : list string :=
  ["title"; "description"; "completed"; "due_date"; "source_url"].

(** The loop of [dbUpdateTask] over [allowed]. *)
Definition assign_allowed (fields : JsObj) (task : Task.t) : Task.t :=
  fold_left
    (fun task key =>
       if negb (js_eqb (prop fields key) JUndefined) then
         if (key =? "completed")%string then
           Task.with_completed (if truthy (prop fields key) then 1 else 0) task
         else Task.set_prop key (prop fields key) task
       else task)
    allowed task.

Definition dbUpdateTask (id : Z) (fields : JsObj) : M (option Task.t) :=
  found <- tasks_get id ;;
  match found with
  | None => ret None
  | Some task =>
      let task := assign_allowed fields task in
      now <- localNow ;;
      let task := Task.with_updated_at now task in
      tasks_put task ;;;
      ret (Some task)
  end.

Definition dbDeleteTask (id : Z) : M (option Task.t) :=
  found <- tasks_get id ;;
  match found with
  | Some _ => tasks_delete id ;;; ret found
  | None => ret found
  end.

(** *** Connections CRUD *)

Definition dbGetAllConnections : M (list Conn.t) := connections_getAll.

Definition dbCreateConnection
    (type name : string) (config : Conn.config_t) : M Conn.t :=
  now <- localNow ;;
  let conn := fun id => Conn.mk id type name config (JNum 1) JNull now in
  id <- connections_add conn ;;
  ret (conn id).

Definition dbUpdateConnection (id : Z) (fields : JsObj)
  : M (option Conn.t) :=
  found <- connections_get id ;;
  match found with
  | None => ret None
  | Some conn =>
      let conn :=
        fold_left (fun conn kv => Conn.set_prop (fst kv) (snd kv) conn)
                  fields conn in
      connections_put conn ;;;
      ret (Some conn)
  end.

Definition dbDeleteConnection (id : Z) : M (option Conn.t) :=
  found <- connections_get id ;;
  match found with
  | Some _ => connections_delete id ;;; ret found
  | None => ret found
  end.

(** *** The Notion client

    [notionFetch] throws an [Error] with a message on every answer that
    is not a success.  The two PATCH requests are one HTTP call each;
    [notionFetchTodos], which pages through the database and walks the
    blocks of every page, is taken as one request whose answer is the
    flattened list. *)

Definition notion_patch (c : RemoteCall) : M unit :=
  fun w =>
    let w' := mkWorld (tasks w) (task_key w) (connections w) (conn_key w)
                      (ticks w) (calls w ++ [c]) (console w) in
    match patch env (calls w) c with
    | Some message => (Thrown message, w')
    | None => (Ok tt, w')
    end.

Definition notionUpdateTodoChecked
    (token : string) (blockId : JsVal) (checked : bool) : M unit :=
  notion_patch (UpdateTodoChecked token blockId checked).

Definition notionUpdateTodoText
    (token : string) (blockId : JsVal) (text : JsVal) : M unit :=
  notion_patch (UpdateTodoText token blockId text).

Definition notionFetchTodos (token databaseId : string) : M (list Todo.t) :=
  fun w =>
    let w' := mkWorld (tasks w) (task_key w) (connections w) (conn_key w)
                      (ticks w) (calls w ++ [FetchTodos token databaseId])
                      (console w) in
    match query env (calls w) token databaseId with
    | inl message => (Thrown message, w')
    | inr todos => (Ok todos, w')
    end.

(** *** Sync *)

(** The body of the first loop of [syncConnection]: push the completed
    flag of a task of this connection, swallowing a failure. *)
Definition push_local (conn : Conn.t) (task : Task.t) : M unit :=
  if truthy (Task.source_id task)
     && js_eqb (Task.connection_id task) (JNum (Conn.id conn))
  then
    try_catch
      (notionUpdateTodoChecked (Conn.token (Conn.config conn))
         (Task.source_id task) (negb (Task.completed task =? 0)%Z))
      (fun _ => ret tt)
  else ret tt.

(** [localBySourceId], filled from [localTasks]. *)
Definition build_lookup (localTasks : list Task.t) : JsMap.t Task.t :=
  fold_left
    (fun m t =>
       if truthy (Task.source_id t) then JsMap.set (Task.source_id t) t m
       else m)
    localTasks JsMap.empty.

(** The body of the second loop: update the task found under the
    identifier of the remote item, or create one. *)
Definition pull_todo (conn : Conn.t) (localBySourceId : JsMap.t Task.t)
    (remoteIds : JsSet.t) (todo : Todo.t) : M JsSet.t :=
  let remoteIds := JsSet.add (JStr (Todo.source_id todo)) remoteIds in
  match JsMap.get (JStr (Todo.source_id todo)) localBySourceId with
  | Some existing =>
      dbUpdateTask (Task.id existing)
        [ ("title", JStr (Todo.title todo));
          ("description", JStr (Todo.description todo));
          ("completed", JBool (Todo.completed todo));
          ("source_url", JStr (Todo.source_url todo)) ] ;;;
      ret remoteIds
  | None =>
      dbCreateTask
        (Todo.obj todo ++
         [ ("source", JStr "notion");
           ("connection_id", JNum (Conn.id conn)) ]) ;;;
      ret remoteIds
  end.

(** The body of the third loop: delete a task of this connection whose
    identifier was not seen. *)
Definition remove_deleted (conn : Conn.t) (remoteIds : JsSet.t)
    (local : Task.t) : M unit :=
  if truthy (Task.source_id local)
     && js_eqb (Task.connection_id local) (JNum (Conn.id conn))
     && negb (JsSet.has (Task.source_id local) remoteIds)
  then dbDeleteTask (Task.id local) ;;; ret tt
  else ret tt.

Definition syncConnection (conn : Conn.t) : M SyncResult :=
  let token := Conn.token (Conn.config conn) in
  let database_id := Conn.database_id (Conn.config conn) in
  (* Push local -> Notion *)
  localTasks <- dbGetAllTasks [("source", JStr "notion")] ;;
  forM_ localTasks (push_local conn) ;;;
  (* Pull Notion -> local *)
  remoteTodos <- notionFetchTodos token database_id ;;
  let localBySourceId := build_lookup localTasks in
  remoteIds <- foldM (pull_todo conn localBySourceId) remoteTodos
                     JsSet.empty ;;
  (* Remove deleted todos *)
  forM_ localTasks (remove_deleted conn remoteIds) ;;;
  now <- localNow ;;
  dbUpdateConnection (Conn.id conn) [("last_synced_at", JStr now)] ;;;
  ret (mkSyncResult (List.length remoteTodos)).

Definition syncAllConnections : M unit :=
  connections <- dbGetAllConnections ;;
  forM_ connections
    (fun conn =>
       if negb (truthy (Conn.enabled conn))
          || negb (Conn.type conn =? "notion")%string
       then ret tt
       else
         try_catch
           (r <- syncConnection conn ;;
            console_write (SyncLog (Conn.name conn) (synced r)))
           (fun message =>
              console_write (SyncFailed (Conn.name conn) message))).

(** Push a single task change to Notion immediately.  The read of the
    connections is awaited before the [try] block is entered;
    [store_error] is the answer of the store to it. *)
Definition pushTaskToNotion_idb (store_error : option string)
    (task : Task.t) (updates : JsObj) : M unit :=
  if negb (js_eqb (Task.source task) (JStr "notion"))
     || negb (truthy (Task.source_id task))
  then ret tt
  else
    connections <- idbReq store_error dbGetAllConnections ;;
    match find (fun c => js_eqb (JNum (Conn.id c)) (Task.connection_id task)
                         && truthy (Conn.enabled c)) connections with
    | None => ret tt
    | Some conn =>
        let token := Conn.token (Conn.config conn) in
        try_catch
          ((if negb (js_eqb (prop updates "completed") JUndefined) then
              notionUpdateTodoChecked token (Task.source_id task)
                (truthy (prop updates "completed"))
            else ret tt) ;;;
           (if negb (js_eqb (prop updates "title") JUndefined)
               && negb (js_eqb (prop updates "title") (Task.title task))
            then
              notionUpdateTodoText token (Task.source_id task)
                (prop updates "title")
            else ret tt))
          (fun message => console_write (NotionPushFailed message))
    end.

(** [pushTaskToNotion] over a store that answers, as the handlers below
    call it. *)
Definition pushTaskToNotion (task : Task.t) (updates : JsObj) : M unit :=
  pushTaskToNotion_idb None task updates.

End Program.

(** ** The handlers that write to the stores *)

Section Handlers.

Variable env : Env.

(** The submit handler of the task form; the arguments are the trimmed
    values of the three inputs. *)
Definition taskForm_submit (title description due : string) : M unit :=
  if (title =? "")%string then ret tt
  else
    let body :=
      [("title", JStr title)]
      ++ (if negb (description =? "")%string
          then [("description", JStr description)] else [])
      ++ (if negb (due =? "")%string then [("due_date", JStr due)] else []) in
    dbCreateTask env body ;;; ret tt.

Definition toggleComplete (task : Task.t) : M unit :=
  let newVal := (Task.completed task =? 0) in
  dbUpdateTask env (Task.id task) [("completed", JBool newVal)] ;;;
  pushTaskToNotion env task [("completed", JBool newVal)].

Definition doDelete (id : Z) : M unit := dbDeleteTask id ;;; ret tt.

(** The submit handler of the edit form; [description] is [None] when the
    input is disabled, which it is for a Notion task. *)
Definition editForm_submit
    (id : Z) (title : string) (description : option string) (due : string)
  : M unit :=
  existing <- dbGetTask id ;;
  let body :=
    [ ("title", JStr title);
      ("description",
       match description with Some d => JStr d | None => JUndefined end);
      ("due_date", js_or (JStr due) JNull) ] in
  if negb (truthy (prop body "title")) then ret tt
  else
    dbUpdateTask env id body ;;;
    match existing with
    | Some task => pushTaskToNotion env task body
    | None => ret tt
    end.

(** The click handler of the save button of the connection form. *)
Definition btnNotionSave_click (name token dbId : string) : M unit :=
  let name := if (name =? "")%string then "Notion DB" else name in
  dbCreateConnection env "notion" name (Conn.mk_config token dbId) ;;; ret tt.

(** The click handler of the delete button of a connection card. *)
Definition btnConnDelete_click (conn : Conn.t) : M unit :=
  tasks <- dbGetAllTasks env [("source", JStr "notion")] ;;
  forM_ tasks
    (fun t =>
       if js_eqb (Task.connection_id t) (JNum (Conn.id conn))
       then dbDeleteTask (Task.id t) ;;; ret tt
       else ret tt) ;;;
  dbDeleteConnection (Conn.id conn) ;;; ret tt.

(** The click handler of the sync button of a connection card. *)
Definition btnSync_click (conn : Conn.t) : M unit :=
  try_catch (syncConnection env conn ;;; ret tt)
            (fun message => console_write (ErrorLine message)).

(** Both key generators of a fresh database start at 1. *)
Definition initial_world : World := mkWorld [] 1 [] 1 0 [] [].

(** The worlds the program can be in: it starts with an empty database,
    and each handler, run on a stored connection where it takes one,
    leads from one world to the next. *)
Inductive reachable : World -> Prop :=
| reach_initial : reachable initial_world
| reach_taskForm_submit w title description due :
    reachable w ->
    reachable (exec (taskForm_submit title description due) w)
| reach_toggleComplete w task :
    reachable w -> reachable (exec (toggleComplete task) w)
| reach_doDelete w id :
    reachable w -> reachable (exec (doDelete id) w)
| reach_editForm_submit w id title description due :
    reachable w ->
    reachable (exec (editForm_submit id title description due) w)
| reach_btnNotionSave_click w name token dbId :
    reachable w ->
    reachable (exec (btnNotionSave_click name token dbId) w)
| reach_btnConnDelete_click w conn :
    reachable w -> In conn (connections w) ->
    reachable (exec (btnConnDelete_click conn) w)
| reach_btnSync_click w conn :
    reachable w -> In conn (connections w) ->
    reachable (exec (btnSync_click conn) w)
| reach_syncAllConnections w :
    reachable w -> reachable (exec (syncAllConnections env) w).

End Handlers.

(** * The Notion client and the view *)

(** ** Walking a database *)

(** A property of a Notion page: its type and, for a title property,
    the plain texts of its rich text; [title] is [None] when the
    property has no [title] field. *)
Record PageProp : Type := mkPageProp {
  prop_type : string;
  prop_title : option (list string);
}.

(** [notionPageTitle(page)], on the values of [page.properties] in their
    order. *)
Fixpoint notionPageTitle (properties : list PageProp) : string :=
  match properties with
  | [] => "Untitled"
  | p :: rest =>
      match prop_title p with
      | Some texts =>
          if (prop_type p =? "title")%string then
            (if (String.concat "" texts =? "")%string then "Untitled"
             else String.concat "" texts)
          else notionPageTitle rest
      | None => notionPageTitle rest
      end
  end.

(** What the Notion API holds below a block: the answer to the request
    for its children is a failure or a page of blocks, and each block
    carries what the request for its own children would be answered. *)
Inductive Block : Type :=
| mkBlock (id type : string) (rich_text : list string) (checked : bool)
          (has_children : bool) (children : Listing)
with Listing : Type :=
| Fails (message : string)
| Results (results : list Block) (has_more : bool) (next_cursor : JsVal)
          (next : Listing).

(** [s.replace(/-/g, '')]. *)
Fixpoint remove_dashes (s : string) : string :=
  match s with
  | EmptyString => EmptyString
  | String c s' =>
      if Ascii.eqb c "-"%char then remove_dashes s'
      else String c (remove_dashes s')
  end.

(** The to-do item [notionCollectTodos] pushes for a block. *)
Definition todo_of_block (pageTitle pageUrl id text : string)
    (checked : bool) : Todo.t :=
  Todo.mk id text checked pageTitle
          (pageUrl ++ "#" ++ remove_dashes id)%string.

(** [notionCollectTodos], on the answers the API gives for the block and
    its descendants: the pages are read while [has_more] is set and a
    cursor is given, the blocks of a page in order, and the children of a
    block right after the block itself.  The first failed request ends
    the walk with its error. *)
Fixpoint notionCollectTodos (pageTitle pageUrl : string) (answer : Listing)
  : string + list Todo.t :=
  match answer with
  | Fails message => inl message
  | Results results has_more next_cursor next =>
      let fix blocks (bs : list Block) : string + list Todo.t :=
        match bs with
        | [] => inr []
        | mkBlock id type rich_text checked has_children children :: bs' =>
            let text := String.concat "" rich_text in
            let own :=
              if (type =? "to_do")%string && negb (text =? "")%string
              then [todo_of_block pageTitle pageUrl id text checked]
              else [] in
            match (if has_children
                   then notionCollectTodos pageTitle pageUrl children
                   else inr []) with
            | inl message => inl message
            | inr nested =>
                match blocks bs' with
                | inl message => inl message
                | inr rest => inr (own ++ nested ++ rest)
                end
            end
        end in
      match blocks results with
      | inl message => inl message
      | inr todos =>
          if has_more && truthy next_cursor then
            match notionCollectTodos pageTitle pageUrl next with
            | inl message => inl message
            | inr more => inr (todos ++ more)
            end
          else inr todos
      end
  end.

(** A page of a database with the answers for its blocks, and the
    answers to the query of the database. *)
Record NotionPage : Type := mkNotionPage {
  page_id : string;
  page_url : string;
  page_properties : list PageProp;
  page_blocks : Listing;
}.

Inductive Query : Type :=
| QueryFails (message : string)
| QueryResults (results : list NotionPage) (has_more : bool)
               (next_cursor : JsVal) (next : Query).

(** The loop of [notionFetchTodos] over the pages of one answer. *)
Fixpoint collect_pages (pages : list NotionPage) : string + list Todo.t :=
  match pages with
  | [] => inr []
  | page :: rest =>
      match notionCollectTodos (notionPageTitle (page_properties page))
                               (page_url page) (page_blocks page) with
      | inl message => inl message
      | inr todos =>
          match collect_pages rest with
          | inl message => inl message
          | inr more => inr (todos ++ more)
          end
      end
  end.

(** [notionFetchTodos], on the answers the API gives. *)
Fixpoint notionFetchTodos_walk (answer : Query) : string + list Todo.t :=
  match answer with
  | QueryFails message => inl message
  | QueryResults results has_more next_cursor next =>
      match collect_pages results with
      | inl message => inl message
      | inr todos =>
          if has_more && truthy next_cursor then
            match notionFetchTodos_walk next with
            | inl message => inl message
            | inr more => inr (todos ++ more)
            end
          else inr todos
      end
  end.

(** The loop of [notionCollectTodos] over the blocks of one page. *)
Fixpoint collect_blocks (pageTitle pageUrl : string) (bs : list Block)
  : string + list Todo.t :=
  match bs with
  | [] => inr []
  | mkBlock id type rich_text checked has_children children :: bs' =>
      let text := String.concat "" rich_text in
      let own :=
        if (type =? "to_do")%string && negb (text =? "")%string
        then [todo_of_block pageTitle pageUrl id text checked]
        else [] in
      match (if has_children
             then notionCollectTodos pageTitle pageUrl children
             else inr []) with
      | inl message => inl message
      | inr nested =>
          match collect_blocks pageTitle pageUrl bs' with
          | inl message => inl message
          | inr rest => inr (own ++ nested ++ rest)
          end
      end
  end.

(** ** The badges and the list of the selected tab *)

(** The tasks of the source chip that is selected; the empty string
    selects every source. *)
Definition source_view (allTasks : list Task.t) (currentSource : string)
  : list Task.t :=
  if negb (currentSource =? "")%string then
    filter (fun t => js_eqb (Task.source t) (JStr currentSource)) allTasks
  else allTasks.

(** [updateBadges()]: the numbers written to the three badges. *)
Definition updateBadges (allTasks : list Task.t) (currentSource : string)
  : nat * nat * nat :=
  let src := source_view allTasks currentSource in
  (List.length src,
   List.length (filter (fun t => Task.completed t =? 0) src),
   List.length (filter (fun t => negb (Task.completed t =? 0)) src)).

(** [getFilteredTasks()]. *)
Definition getFilteredTasks (allTasks : list Task.t)
    (currentSource currentTab : string) : list Task.t :=
  let tasks := allTasks in
  let tasks :=
    if negb (currentSource =? "")%string then
      filter (fun t => js_eqb (Task.source t) (JStr currentSource)) tasks
    else tasks in
  if (currentTab =? "active")%string then
    filter (fun t => Task.completed t =? 0) tasks
  else if (currentTab =? "done")%string then
    filter (fun t => negb (Task.completed t =? 0)) tasks
  else tasks.

(** ** Masking a token *)

(** [maskToken(t)]. *)
Definition maskToken (t : string) : string :=
  if (t =? "")%string || (String.length t <? 12)%nat then "***"
  else (substring 0 8 t ++ "..."
        ++ substring (String.length t - 4) 4 t)%string.

(** * The service worker (sw.js)

    The worker sees the cache storage of its origin and the network.  A
    cache maps the URL of a request to a response and the storage maps
    the name of a cache to the cache, both in the order of creation; the
    network answers a URL with a response or not at all.  [skipWaiting]
    and [clients.claim] only move the life cycle of the worker on and
    are not part of the model. *)

Record Response : Type := mkResponse {
  resp_ok : bool;
  resp_body : string;
}.

Definition Cache : Type := list (string * Response).
Definition CacheStorage : Type := list (string * Cache).
Definition Network : Type := string -> option Response.

Definition CACHE_NAME : string := "task-manager-v9".

Definition STATIC_ASSETS : list string :=
  [ "./"; "./index.html"; "./css/style.css"; "./js/app.js";
    "./manifest.json"; "./icons/icon-192.png" ].

(** ** The cache API *)

(** [cache.match(request)]. *)
Definition cache_match (url : string) (c : Cache) : option Response :=
  option_map snd (find (fun e => (fst e =? url)%string) c).

(** [cache.put(request, response)]: the entry of the URL is replaced. *)
Definition cache_put (c : Cache) (e : string * Response) : Cache :=
  filter (fun e' => negb (fst e' =? fst e)%string) c ++ [e].

Fixpoint has_duplicate (urls : list string) : bool :=
  match urls with
  | [] => false
  | u :: us => existsb (String.eqb u) us || has_duplicate us
  end.

(** The requests of [cache.addAll]: every URL is fetched, and a URL
    that is not answered, or is answered with a status outside the 2xx
    range, rejects the call. *)
Fixpoint fetch_all (net : Network) (urls : list string)
  : option (list (string * Response)) :=
  match urls with
  | [] => Some []
  | u :: us =>
      match net u with
      | Some r =>
          if resp_ok r then
            match fetch_all net us with
            | Some es => Some ((u, r) :: es)
            | None => None
            end
          else None
      | None => None
      end
  end.

(** [cache.addAll(requests)]: nothing is stored unless every request is
    answered; two requests for one URL reject the call. *)
Definition cache_addAll (net : Network) (urls : list string) (c : Cache)
  : option Cache :=
  if has_duplicate urls then None
  else
    match fetch_all net urls with
    | Some es => Some (fold_left cache_put es c)
    | None => None
    end.

(** [caches.open(name)] creates the cache when the storage has none of
    that name. *)
Definition caches_open (name : string) (cs : CacheStorage) : CacheStorage :=
  if existsb (fun e => (fst e =? name)%string) cs then cs
  else cs ++ [(name, [])].

Definition caches_get (name : string) (cs : CacheStorage) : Cache :=
  match find (fun e => (fst e =? name)%string) cs with
  | Some e => snd e
  | None => []
  end.

Definition caches_set (name : string) (c : Cache) (cs : CacheStorage)
  : CacheStorage :=
  map (fun e => if (fst e =? name)%string then (fst e, c) else e) cs.

(** [caches.keys()]. *)
Definition caches_keys (cs : CacheStorage) : list string := map fst cs.

(** [caches.delete(name)]. *)
Definition caches_delete (cs : CacheStorage) (name : string)
  : CacheStorage :=
  filter (fun e => negb (fst e =? name)%string) cs.

(** [caches.match(request)]: the first cache, in the order of creation,
    that has the URL answers. *)
Fixpoint caches_match (url : string) (cs : CacheStorage)
  : option Response :=
  match cs with
  | [] => None
  | e :: cs' =>
      match cache_match url (snd e) with
      | Some r => Some r
      | None => caches_match url cs'
      end
  end.

(** ** The three handlers *)

Section ServiceWorker.

(** The URL a path of [STATIC_ASSETS] stands for at the place of the
    worker, the origin of a URL and the origin of the worker. *)
Variable resolve : string -> string.
Variable origin : string -> string.
Variable self_origin : string.

(** The [install] handler: whether the promise given to [waitUntil] is
    fulfilled, and the storage it leaves. *)
Definition on_install (net : Network) (cs : CacheStorage)
  : bool * CacheStorage :=
  let cs := caches_open CACHE_NAME cs in
  match cache_addAll net (map resolve STATIC_ASSETS)
                     (caches_get CACHE_NAME cs) with
  | Some c => (true, caches_set CACHE_NAME c cs)
  | None => (false, cs)
  end.

(** The [activate] handler. *)
Definition on_activate (cs : CacheStorage) : CacheStorage :=
  fold_left caches_delete
    (filter (fun k => negb (k =? CACHE_NAME)%string) (caches_keys cs)) cs.

(** What the page gets for a request: a response, [undefined] (the
    browser reports a network error), or a rejected promise. *)
Inductive Answer : Type :=
| Responds (r : Response)
| RespondsUndefined
| Rejects.

(** The [fetch] handler. *)
Definition on_fetch (net : Network) (cs : CacheStorage) (url : string)
  : Answer :=
  if negb (origin url =? self_origin)%string then
    match net url with
    | Some r => Responds r
    | None =>
        match caches_match url cs with
        | Some r => Responds r
        | None => RespondsUndefined
        end
    end
  else
    match caches_match url cs with
    | Some r => Responds r
    | None =>
        match net url with
        | Some r => Responds r
        | None => Rejects
        end
    end.

End ServiceWorker.

(** A place of the worker and a network that serves every URL. *)
Definition example_resolve (path : string) : string :=
  ("https://tasks.example/" ++ path)%string.

Definition example_origin (url : string) : string :=
  substring 0 21 url.

Definition example_network : Network :=
  fun url => Some (mkResponse true url).

Definition network_down : Network := fun _ => None.

(** * The vocabulary of the statements *)

(** ** The phases of [syncConnection] *)

Section SyncPhases.

Variable env : Env.
Variable conn : Conn.t.

(** What [dbGetAllTasks({ source: 'notion' })] returns. *)
Definition local_tasks (w : World) : list Task.t :=
  array_sort (task_order env)
    (filter (fun t => js_eqb (Task.source t) (JStr "notion")) (tasks w)).

(** The tasks the first loop pushes and the requests it sends. *)
Definition pushed (t : Task.t) : bool :=
  truthy (Task.source_id t)
  && js_eqb (Task.connection_id t) (JNum (Conn.id conn)).

(** The request the first loop sends for a task. *)
Definition push_call (t : Task.t) : RemoteCall :=
  UpdateTodoChecked (Conn.token (Conn.config conn)) (Task.source_id t)
                    (negb (Task.completed t =? 0)%Z).

(** The requests of the first loop over [l], in order. *)
Definition push_calls (l : list Task.t) : list RemoteCall :=
  map push_call (filter pushed l).

(** The world with another history of requests. *)
Definition with_calls (c : list RemoteCall) (w : World) : World :=
  mkWorld (tasks w) (task_key w) (connections w) (conn_key w) (ticks w)
          c (console w).

(** The properties [syncConnection] passes to [dbUpdateTask]. *)
Definition todo_fields (todo : Todo.t) : JsObj :=
  [ ("title", JStr (Todo.title todo));
    ("description", JStr (Todo.description todo));
    ("completed", JBool (Todo.completed todo));
    ("source_url", JStr (Todo.source_url todo)) ].

(** The record the second loop writes over a task it has found. *)
Definition pulled (todo : Todo.t) (now : string) (t : Task.t) : Task.t :=
  Task.mk (Task.id t) (JStr (Todo.title todo)) (JStr (Todo.description todo))
    (if Todo.completed todo then 1 else 0) (Task.due_date t) (Task.source t)
    (Task.source_id t) (JStr (Todo.source_url todo)) (Task.connection_id t)
    (Task.created_at t) now.

(** The record the second loop creates for an item it has not found. *)
Definition created (todo : Todo.t) (now : string) (key : Z) : Task.t :=
  Task.mk key (JStr (Todo.title todo)) (JStr (Todo.description todo))
    (if Todo.completed todo then 1 else 0) JNull (JStr "notion")
    (js_or (JStr (Todo.source_id todo)) JNull)
    (js_or (JStr (Todo.source_url todo)) JNull)
    (js_or (JNum (Conn.id conn)) JNull) now now.

(** The world one turn of the second loop leaves. *)
Definition pull_world (lookup : JsMap.t Task.t) (todo : Todo.t) (w : World)
  : World :=
  match JsMap.get (JStr (Todo.source_id todo)) lookup with
  | Some existing =>
      match idb_get (Task.id existing) (tasks w) with
      | Some t =>
          mkWorld (idb_put (pulled todo (clock env (ticks w)) t) (tasks w))
                  (task_key w) (connections w) (conn_key w) (S (ticks w))
                  (calls w) (console w)
      | None => w
      end
  | None =>
      mkWorld (tasks w ++ [created todo (clock env (ticks w)) (task_key w)])
              (task_key w + 1) (connections w) (conn_key w) (S (ticks w))
              (calls w) (console w)
  end.

(** The set [remoteIds] at the end of the second loop. *)
Definition remote_ids (remoteTodos : list Todo.t) : JsSet.t :=
  fold_left (fun s x => JsSet.add (JStr (Todo.source_id x)) s)
            remoteTodos JsSet.empty.

(** The condition of the third loop. *)
Definition doomed (remoteIds : JsSet.t) (t : Task.t) : bool :=
  truthy (Task.source_id t)
  && js_eqb (Task.connection_id t) (JNum (Conn.id conn))
  && negb (JsSet.has (Task.source_id t) remoteIds).

(** The world one turn of the third loop leaves. *)
Definition remove_world (remoteIds : JsSet.t) (local : Task.t) (w : World)
  : World :=
  if doomed remoteIds local then
    mkWorld (idb_delete (Task.id local) (tasks w)) (task_key w)
            (connections w) (conn_key w) (ticks w) (calls w) (console w)
  else w.

(** The last two statements: stamp the connection. *)
Definition stamp_world (w : World) : World :=
  mkWorld (tasks w) (task_key w)
    (match conn_get (Conn.id conn) (connections w) with
     | Some c =>
         conn_put
           (Conn.set_prop "last_synced_at" (JStr (clock env (ticks w))) c)
           (connections w)
     | None => connections w
     end)
    (conn_key w) (S (ticks w)) (calls w) (console w).

(** The world at the moment the answer to the fetch arrives. *)
Definition fetch_world (w : World) : World :=
  with_calls
    (calls w ++ push_calls (local_tasks w) ++
     [FetchTodos (Conn.token (Conn.config conn))
                 (Conn.database_id (Conn.config conn))]) w.

(** The world the second loop leaves. *)
Definition pull_all (lookup : JsMap.t Task.t) (remoteTodos : list Todo.t)
    (w : World) : World :=
  fold_left (fun w todo => pull_world lookup todo w) remoteTodos w.

(** The world the third loop leaves. *)
Definition remove_all (ids : JsSet.t) (localTasks : list Task.t) (w : World)
  : World :=
  fold_left (fun w local => remove_world ids local w) localTasks w.

(** The world a run leaves when it has received [remoteTodos]. *)
Definition sync_world (remoteTodos : list Todo.t) (w : World) : World :=
  stamp_world
    (remove_all (remote_ids remoteTodos) (local_tasks w)
       (pull_all (build_lookup (local_tasks w)) remoteTodos (fetch_world w))).

(** The answer of the Notion API to the fetch of this run. *)
Definition fetch_answer (w : World) : string + list Todo.t :=
  query env (calls w ++ push_calls (local_tasks w))
        (Conn.token (Conn.config conn)) (Conn.database_id (Conn.config conn)).

End SyncPhases.

(** ** [syncAllConnections] *)

(** The connections the loop does not skip. *)
Definition eligible (c : Conn.t) : bool :=
  truthy (Conn.enabled c) && (Conn.type c =? "notion")%string.

(** One turn of the loop for an eligible connection: run
    [syncConnection], then write one line, whichever way it ended. *)
Definition sync_and_log (env : Env) (w : World) (c : Conn.t) : World :=
  let line :=
    match outcome (syncConnection env c) w with
    | Ok r => SyncLog (Conn.name c) (synced r)
    | Thrown message => SyncFailed (Conn.name c) message
    end in
  exec (console_write line) (exec (syncConnection env c) w).

(** The fetches among the requests, and the fetch of a connection. *)
Definition is_fetch (c : RemoteCall) : bool :=
  match c with FetchTodos _ _ => true | _ => false end.

Definition fetch_of (c : Conn.t) : RemoteCall :=
  FetchTodos (Conn.token (Conn.config c)) (Conn.database_id (Conn.config c)).

(** ** Well-formed stores *)

(** The keys of an object store with a key generator are distinct, the
    records are kept in key order, and the generator is above every key
    in use. *)
Definition store_ok (w : World) : Prop :=
  StronglySorted Z.lt (map Task.id (tasks w)) /\
  Forall (fun k => k < task_key w) (map Task.id (tasks w)).

(** ** Example data *)

(** An environment in which every request succeeds and the database
    holds the given items. *)
Definition env_with (remoteTodos : list Todo.t) : Env :=
  mkEnv (fun _ => "2024-05-01 10:00:00")
        (fun a b =>
           match String.compare a b with Lt => -1 | Eq => 0 | Gt => 1 end)
        (fun _ _ => None)
        (fun _ _ _ => inr remoteTodos).

Definition conn1 : Conn.t :=
  Conn.mk 1 "notion" "Work" (Conn.mk_config "secret" "db-1") (JNum 1) JNull
          "2024-04-30 09:00:00".

Definition conn2 : Conn.t :=
  Conn.mk 2 "notion" "Home" (Conn.mk_config "secret" "db-2") (JNum 1) JNull
          "2024-04-30 09:30:00".

(** A task pulled from Notion earlier. *)
Definition notion_task (id : Z) (sid title : string) (completed : Z)
    (connection : Z) : Task.t :=
  Task.mk id (JStr title) (JStr "Page") completed JNull (JStr "notion")
          (JStr sid) (JStr "https://notion.so/p#b") (JNum connection)
          "2024-04-30 12:00:00" "2024-04-30 12:00:00".

(** A task typed into the form. *)
Definition local_task (id : Z) (title : string) : Task.t :=
  Task.mk id (JStr title) (JStr "") 0 JNull (JStr "local") JNull JNull JNull
          "2024-04-30 08:00:00" "2024-04-30 08:00:00".

Definition todo_x_done : Todo.t :=
  Todo.mk "x" "Write report" true "Page" "https://notion.so/p#x".

Definition todo_x_open : Todo.t :=
  Todo.mk "x" "Write report" false "Page" "https://notion.so/p#x".

Definition world_of (l : list Task.t) (key : Z) : World :=
  mkWorld l key [conn1; conn2] 3 0 [] [].

(** ** Remote wins on pull *)

(** The last fetched item that carries a given identifier. *)
Definition last_item (sid : JsVal) (remoteTodos : list Todo.t)
  : option Todo.t :=
  fold_left
    (fun acc x => if js_eqb (JStr (Todo.source_id x)) sid then Some x else acc)
    remoteTodos None.

(** The pulled fields of a task equal those of a remote item. *)
Definition mirrors (r : Todo.t) (t : Task.t) : Prop :=
  Task.title t = JStr (Todo.title r) /\
  Task.description t = JStr (Todo.description r) /\
  Task.completed t = (if Todo.completed r then 1 else 0) /\
  Task.source_url t = JStr (Todo.source_url r).

(** ** The invariant of the task records *)

(** A value that counts as given. *)
Definition present (v : JsVal) : Prop := truthy v = true.

(** [source_id] and [connection_id] are both present or both absent, and
    [source_id] is present exactly when the source is not ['local']. *)
Definition task_inv (t : Task.t) : Prop :=
  (present (Task.source_id t) <-> present (Task.connection_id t)) /\
  (present (Task.source_id t) <-> Task.source t <> JStr "local").

(** Every item the Notion API returns has an identifier. *)
Definition remote_ok (env : Env) : Prop :=
  forall history token databaseId remoteTodos,
    query env history token databaseId = inr remoteTodos ->
    Forall (fun x => Todo.source_id x <> "") remoteTodos.

(** What the reachable worlds have in common. *)
Definition world_inv (w : World) : Prop :=
  Forall task_inv (tasks w) /\
  Forall (fun c => Conn.id c <> 0) (connections w) /\
  0 < conn_key w.

(** An action keeps a property of the world. *)
Definition keeps {A} (P : World -> Prop) (m : M A) : Prop :=
  forall w, P w -> P (exec m w).

(** The record [dbCreateTask] builds from [data] satisfies the
    invariant. *)
Definition data_ok (data : JsObj) : Prop :=
  (present (js_or (prop data "source_id") JNull) <->
   present (js_or (prop data "connection_id") JNull)) /\
  (present (js_or (prop data "source_id") JNull) <->
   js_or (prop data "source") (JStr "local") <> JStr "local").

(** The connection [btnNotionSave_click] stores in the example below. *)
Definition conn_saved : Conn.t :=
  Conn.mk 1 "notion" "Work" (Conn.mk_config "secret" "db-1") (JNum 1) JNull
          "2024-05-01 10:00:00".

(** ** Two runs in succession *)

(** Where a task found after the second loop comes from: it is a task of
    the store the run began with, under the same key and with the same
    source, identifier and connection, or it was created for a fetched
    item. *)
Definition origin (w0 : World) (remoteTodos : list Todo.t) (u : Task.t)
  : Prop :=
  (exists u0,
     In u0 (tasks w0) /\ Task.id u0 = Task.id u /\
     Task.source u0 = Task.source u /\
     Task.source_id u0 = Task.source_id u /\
     Task.connection_id u0 = Task.connection_id u) \/
  (task_key w0 <= Task.id u /\ Task.source u = JStr "notion" /\
   exists x, In x remoteTodos /\
             Task.source_id u = js_or (JStr (Todo.source_id x)) JNull).

(** A Notion task with the identifier [sid] is stored under the key
    [i]. *)
Definition covered (i : Z) (sid : JsVal) (w : World) : Prop :=
  exists u, idb_get i (tasks w) = Some u /\
            Task.source u = JStr "notion" /\ Task.source_id u = sid.

(** No two stored Notion tasks carry the same identifier. *)
Definition distinct_source_ids (w : World) : Prop :=
  forall t u,
    In t (tasks w) -> In u (tasks w) ->
    Task.source t = JStr "notion" -> Task.source u = JStr "notion" ->
    truthy (Task.source_id t) = true ->
    Task.source_id t = Task.source_id u -> t = u.

(** The record [b] is the record [a] with at most another [updated_at],
    and with another one only if [a] is a Notion task that carries the
    identifier of a remote item. *)
Definition restamped (remoteTodos : list Todo.t) (a b : Task.t) : Prop :=
  b = Task.with_updated_at (Task.updated_at b) a /\
  (Task.updated_at b = Task.updated_at a \/
   Task.source a = JStr "notion" /\
   exists x, In x remoteTodos /\
             Task.source_id a = JStr (Todo.source_id x)).

(** The second loop after the items [done], in a run that began with the
    store of [w0]: every record is a record of [w0] under its key, with
    its source and identifier, or was created for an item of [done]; and
    a Notion task that carries the identifier of an item of [done] has
    the pulled fields of that item. *)
Definition pulled_so_far (w0 : World) (done : list Todo.t) (w : World)
  : Prop :=
  store_ok w /\
  task_key w0 <= task_key w /\
  (forall j u, idb_get j (tasks w) = Some u ->
     (exists u0, idb_get j (tasks w0) = Some u0 /\
                 Task.source u0 = Task.source u /\
                 Task.source_id u0 = Task.source_id u) \/
     (task_key w0 <= j /\ Task.source u = JStr "notion" /\
      exists y, In y done /\
                Task.source_id u = JStr (Todo.source_id y))) /\
  (forall y j u, In y done -> idb_get j (tasks w) = Some u ->
     Task.source u = JStr "notion" ->
     Task.source_id u = JStr (Todo.source_id y) -> mirrors y u).

(** ** The store requests, seen from their callers *)

(** The test [dbGetAllTasks] applies to a task under the given filters. *)
Definition passes (filters : JsObj) (t : Task.t) : bool :=
  (if truthy (prop filters "source")
   then js_eqb (Task.source t) (prop filters "source") else true)
  && (if negb (js_eqb (prop filters "completed") JUndefined)
      then js_eqb (JBool (negb (Task.completed t =? 0)))
                  (prop filters "completed")
      else true).

(** The record [dbCreateTask] adds for [data] in the world [w]. *)
Definition new_task (env : Env) (data : JsObj) (w : World) : Task.t :=
  Task.mk (task_key w)
    (js_or (prop data "title") (JStr ""))
    (js_or (prop data "description") (JStr ""))
    (if truthy (prop data "completed") then 1 else 0)
    (js_or (prop data "due_date") JNull)
    (js_or (prop data "source") (JStr "local"))
    (js_or (prop data "source_id") JNull)
    (js_or (prop data "source_url") JNull)
    (js_or (prop data "connection_id") JNull)
    (clock env (ticks w))
    (clock env (ticks w)).

(** A value stored for an optional field: given, or [null]. *)
Definition given_or_null (v : JsVal) : Prop := truthy v = true \/ v = JNull.

(** The connection a console line of [syncAllConnections] names. *)
Definition line_name (l : LogLine) : option string :=
  match l with
  | SyncLog name _ => Some name
  | SyncFailed name _ => Some name
  | NotionPushFailed _ => None
  | ErrorLine _ => None
  end.

(** ** Further example data and shorthands *)

(** An environment in which every request fails. *)
Definition env_down : Env :=
  mkEnv (fun _ => "2024-05-01 10:00:00")
        (fun a b =>
           match String.compare a b with Lt => -1 | Eq => 0 | Gt => 1 end)
        (fun _ _ => Some "HTTP 502")
        (fun _ _ _ => inl "HTTP 502").

(** The connection [pushTaskToNotion] pushes through: the first stored
    connection with the [connection_id] of the task that is enabled. *)
Definition push_target (task : Task.t) (w : World) : option Conn.t :=
  find (fun c => js_eqb (JNum (Conn.id c)) (Task.connection_id task)
                 && truthy (Conn.enabled c)) (connections w).

(** The world one turn of the loop of [btnConnDelete_click] leaves. *)
Definition cascade_world (conn : Conn.t) (t : Task.t) (w : World) : World :=
  if js_eqb (Task.connection_id t) (JNum (Conn.id conn)) then
    mkWorld (idb_delete (Task.id t) (tasks w)) (task_key w) (connections w)
            (conn_key w) (ticks w) (calls w) (console w)
  else w.

(** What [notionCollectTodos] guarantees of an item. *)
Definition item_ok (pageTitle pageUrl : string) (x : Todo.t) : Prop :=
  Todo.title x <> "" /\
  Todo.description x = pageTitle /\
  exists id,
    Todo.source_id x = id /\
    Todo.source_url x = (pageUrl ++ "#" ++ remove_dashes id)%string.

(** A page with a to-do block, a paragraph with a nested to-do block
    and, on a second page of children, a to-do block without text. *)
Definition example_blocks : Listing :=
  Results
    [ mkBlock "a-1" "to_do" ["Write "; "report"] true false (Fails "unused");
      mkBlock "b-2" "paragraph" ["Notes"] false true
        (Results [mkBlock "c-3" "to_do" ["Call Ann"] false false
                          (Fails "unused")]
                 false JNull (Fails "unused")) ]
    true (JStr "cursor-1")
    (Results [mkBlock "d-4" "to_do" [] false false (Fails "unused")]
             false JNull (Fails "unused")).

Definition example_query : Query :=
  QueryResults
    [mkNotionPage "p-1" "https://notion.so/p1"
       [mkPageProp "title" (Some ["Week"; " 18"])] example_blocks]
    false JNull (QueryFails "unused").

(** * Properties *)

(** ** JavaScript values, maps and sets *)

Lemma js_eqb_eq (a b : JsVal) : js_eqb a b = true <-> a = b.
Proof.
  destruct a, b; simpl; split; intro H; try discriminate; try reflexivity.
  - apply Bool.eqb_prop in H. now subst.
  - injection H as ->. apply Bool.eqb_reflx.
  - apply Z.eqb_eq in H. now subst.
  - injection H as ->. apply Z.eqb_refl.
  - apply String.eqb_eq in H. now subst.
  - injection H as ->. apply String.eqb_refl.
Qed.

Lemma js_eqb_refl (a : JsVal) : js_eqb a a = true.
Proof. now apply js_eqb_eq. Qed.

Lemma js_eqb_neq (a b : JsVal) : js_eqb a b = false <-> a <> b.
Proof.
  rewrite <- js_eqb_eq. destruct (js_eqb a b); split; congruence.
Qed.

Lemma truthy_JStr (s : string) : truthy (JStr s) = true <-> s <> "".
Proof.
  simpl. rewrite negb_true_iff. rewrite <- String.eqb_neq. tauto.
Qed.

Lemma js_or_JStr_empty (s : string) : js_or (JStr s) (JStr "") = JStr s.
Proof.
  unfold js_or. simpl. destruct (String.eqb_spec s ""); simpl; congruence.
Qed.

Lemma has_add (v x : JsVal) (s : JsSet.t) :
  JsSet.has v (JsSet.add x s) = js_eqb v x || JsSet.has v s.
Proof. reflexivity. Qed.

(** ** The object store *)

Lemma idb_get_id (k : Z) (l : list Task.t) (t : Task.t) :
  idb_get k l = Some t -> Task.id t = k.
Proof.
  unfold idb_get. intro H. apply find_some in H. now apply Z.eqb_eq.
Qed.

Lemma idb_get_In (k : Z) (l : list Task.t) (t : Task.t) :
  idb_get k l = Some t -> In t l.
Proof. unfold idb_get. intro H. now apply find_some in H. Qed.

Lemma idb_get_put (j : Z) (t : Task.t) (l : list Task.t) :
  idb_get j (idb_put t l) =
  if (Task.id t =? j)%Z then Some t else idb_get j l.
Proof.
  induction l as [|u l IH]; simpl.
  - reflexivity.
  - destruct (Z.eqb_spec (Task.id u) (Task.id t)) as [E|E]; simpl.
    + rewrite E. now destruct (Task.id t =? j)%Z.
    + destruct (Task.id t <? Task.id u)%Z; simpl.
      * reflexivity.
      * rewrite IH. destruct (Z.eqb_spec (Task.id u) j) as [F|F];
          destruct (Z.eqb_spec (Task.id t) j); try reflexivity; congruence.
Qed.

Lemma idb_get_delete (j k : Z) (l : list Task.t) :
  idb_get j (idb_delete k l) = if (j =? k)%Z then None else idb_get j l.
Proof.
  induction l as [|u l IH]; simpl.
  - now destruct (j =? k)%Z.
  - destruct (Z.eqb_spec (Task.id u) k) as [E|E]; simpl.
    + rewrite IH. destruct (Z.eqb_spec j k) as [F|F]; [reflexivity|].
      destruct (Z.eqb_spec (Task.id u) j); [congruence|reflexivity].
    + destruct (Z.eqb_spec (Task.id u) j) as [F|F].
      * destruct (Z.eqb_spec j k); [congruence|reflexivity].
      * exact IH.
Qed.

Lemma idb_get_app (j : Z) (l l' : list Task.t) :
  idb_get j (l ++ l') =
  match idb_get j l with Some t => Some t | None => idb_get j l' end.
Proof.
  induction l as [|u l IH]; simpl; [reflexivity|].
  now destruct (Task.id u =? j)%Z.
Qed.

(** ** [dbUpdateTask] *)

Lemma assign_allowed_frame (fields : JsObj) (t : Task.t) :
  Task.id (assign_allowed fields t) = Task.id t /\
  Task.source (assign_allowed fields t) = Task.source t /\
  Task.source_id (assign_allowed fields t) = Task.source_id t /\
  Task.connection_id (assign_allowed fields t) = Task.connection_id t /\
  Task.created_at (assign_allowed fields t) = Task.created_at t /\
  Task.updated_at (assign_allowed fields t) = Task.updated_at t.
Proof.
  unfold assign_allowed, allowed. cbn [fold_left].
  repeat match goal with
         | |- context [negb (js_eqb ?a ?b)] => destruct (negb (js_eqb a b))
         end; cbn; repeat split; reflexivity.
Qed.

Lemma assign_allowed_completed (fields : JsObj) (t : Task.t) :
  Task.completed (assign_allowed fields t) =
  if js_eqb (prop fields "completed") JUndefined then Task.completed t
  else if truthy (prop fields "completed") then 1 else 0.
Proof.
  unfold assign_allowed, allowed. cbn [fold_left].
  repeat match goal with
         | |- context [js_eqb ?a ?b] => destruct (js_eqb a b)
         end; cbn; reflexivity.
Qed.

Arguments assign_allowed : simpl never.

Lemma dbUpdateTask_run (env : Env) (id : Z) (fields : JsObj) (w : World) :
  dbUpdateTask env id fields w =
  match idb_get id (tasks w) with
  | None => (Ok None, w)
  | Some t =>
      let t' := Task.with_updated_at (clock env (ticks w))
                  (assign_allowed fields t) in
      (Ok (Some t'),
       mkWorld (idb_put t' (tasks w)) (task_key w) (connections w)
               (conn_key w) (S (ticks w)) (calls w) (console w))
  end.
Proof.
  unfold dbUpdateTask, bind, tasks_get. simpl.
  destruct (idb_get id (tasks w)); reflexivity.
Qed.

(** C10.  [dbUpdateTask] changes nothing but [title], [description],
    [completed], [due_date], [source_url] and [updated_at] of the record
    under the given key, whatever properties the [fields] argument has:
    the record keeps its [id], [source], [source_id], [connection_id] and
    [created_at], every other record of the store is left as it was, and
    the [completed] it writes is 0 or 1.  When no record has the key the
    result is [null] and the store is untouched. *)
Theorem dbUpdateTask_frame (env : Env) (id : Z) (fields : JsObj) (w : World) :
  match idb_get id (tasks w) with
  | None => dbUpdateTask env id fields w = (Ok None, w)
  | Some old =>
      exists new,
        outcome (dbUpdateTask env id fields) w = Ok (Some new) /\
        idb_get id (tasks (exec (dbUpdateTask env id fields) w)) = Some new /\
        Task.id new = Task.id old /\
        Task.source new = Task.source old /\
        Task.source_id new = Task.source_id old /\
        Task.connection_id new = Task.connection_id old /\
        Task.created_at new = Task.created_at old /\
        Task.completed new =
          (if js_eqb (prop fields "completed") JUndefined
           then Task.completed old
           else if truthy (prop fields "completed") then 1 else 0) /\
        (Task.completed old = 0 \/ Task.completed old = 1 ->
         Task.completed new = 0 \/ Task.completed new = 1) /\
        (forall j, j <> id ->
           idb_get j (tasks (exec (dbUpdateTask env id fields) w)) =
           idb_get j (tasks w)) /\
        task_key (exec (dbUpdateTask env id fields) w) = task_key w
  end.
Proof.
  unfold outcome, exec. rewrite dbUpdateTask_run.
  destruct (idb_get id (tasks w)) as [old|] eqn:G; [|reflexivity].
  pose proof (idb_get_id _ _ _ G) as Hid.
  pose proof (assign_allowed_frame fields old) as (F1 & F2 & F3 & F4 & F5 & _).
  pose proof (assign_allowed_completed fields old) as FC.
  eexists. cbn [fst snd tasks task_key].
  split; [reflexivity|].
  split; [rewrite idb_get_put; cbn; rewrite F1, Hid, Z.eqb_refl; reflexivity|].
  cbn. repeat split; try assumption.
  - intros Hc. rewrite FC.
    destruct (js_eqb _ _); [assumption|].
    destruct (truthy _); [now right|now left].
  - intros j Hj. rewrite idb_get_put. cbn. rewrite F1, Hid.
    destruct (Z.eqb_spec id j); [congruence|reflexivity].
Qed.

(** ** [pushTaskToNotion] *)

Lemma pushTaskToNotion_run
    (env : Env) (task : Task.t) (updates : JsObj) (w : World) :
  exists w',
    pushTaskToNotion env task updates w = (Ok tt, w') /\
    (tasks w' = tasks w /\
     connections w' = connections w /\
     (console w' = console w \/
      exists message, console w' = console w ++ [NotionPushFailed message]))
    /\ task_key w' = task_key w /\ conn_key w' = conn_key w.
Proof.
  unfold pushTaskToNotion, pushTaskToNotion_idb, idbReq.
  destruct (negb (js_eqb (Task.source task) (JStr "notion"))
            || negb (truthy (Task.source_id task))).
  { exists w. unfold ret. auto 7. }
  unfold bind at 1. unfold dbGetAllConnections, connections_getAll.
  destruct (find _ (connections w)) as [conn|];
    [|exists w; unfold ret; auto 7].
  unfold try_catch, bind, notionUpdateTodoChecked, notionUpdateTodoText,
    notion_patch, console_write, ret.
  destruct (negb (js_eqb (prop updates "completed") JUndefined));
    destruct (negb (js_eqb (prop updates "title") JUndefined)
              && negb (js_eqb (prop updates "title") (Task.title task)));
    cbn [calls tasks connections console];
    repeat match goal with
           | |- context [patch ?e ?h ?c] => destruct (patch e h c)
           end;
    eexists; (split; [reflexivity|]); cbn; eauto 8.
Qed.

Lemma sent_none (env : Env) (w : World) :
  forall before call after,
    @nil RemoteCall = before ++ call :: after ->
    patch env (calls w ++ before) call = None.
Proof. intros [|b before] call after E; discriminate E. Qed.

Lemma sent_one (env : Env) (w : World) (c : RemoteCall) :
  patch env (calls w) c = None ->
  forall before call after,
    [c] = before ++ call :: after ->
    patch env (calls w ++ before) call = None.
Proof.
  intros H [|b [|b' before]] call after E; cbn in E.
  - injection E as -> _. now rewrite app_nil_r.
  - injection E as _ E. discriminate E.
  - injection E as _ E. discriminate E.
Qed.

Lemma sent_two (env : Env) (w : World) (c1 c2 : RemoteCall) :
  patch env (calls w) c1 = None ->
  patch env (calls w ++ [c1]) c2 = None ->
  forall before call after,
    [c1; c2] = before ++ call :: after ->
    patch env (calls w ++ before) call = None.
Proof.
  intros H1 H2 [|b [|b' [|b'' before]]] call after E; cbn in E.
  - injection E as -> _. now rewrite app_nil_r.
  - injection E as -> -> _. exact H2.
  - injection E as _ _ E. discriminate E.
  - injection E as _ _ E. discriminate E.
Qed.

Lemma pushTaskToNotion_answers
    (env : Env) (task : Task.t) (updates : JsObj) (w : World) :
  exists w' sent,
    pushTaskToNotion_idb env None task updates w = (Ok tt, w') /\
    tasks w' = tasks w /\
    connections w' = connections w /\
    calls w' = calls w ++ sent /\
    ((forall before call after,
        sent = before ++ call :: after ->
        patch env (calls w ++ before) call = None) /\
     console w' = console w
     \/
     exists before call message,
       sent = before ++ [call] /\
       patch env (calls w ++ before) call = Some message /\
       console w' = console w ++ [NotionPushFailed message]).
Proof.
  unfold pushTaskToNotion_idb.
  destruct (negb (js_eqb (Task.source task) (JStr "notion"))
            || negb (truthy (Task.source_id task))).
  { exists w, []. unfold ret. rewrite app_nil_r.
    repeat (split; [reflexivity|]). left.
    split; [apply sent_none|reflexivity]. }
  unfold idbReq, bind at 1. unfold dbGetAllConnections, connections_getAll.
  destruct (find _ (connections w)) as [conn|].
  2:{ exists w, []. unfold ret. rewrite app_nil_r.
      repeat (split; [reflexivity|]). left.
      split; [apply sent_none|reflexivity]. }
  unfold try_catch, bind, notionUpdateTodoChecked, notionUpdateTodoText,
    notion_patch, console_write, ret.
  destruct (negb (js_eqb (prop updates "completed") JUndefined));
    destruct (negb (js_eqb (prop updates "title") JUndefined)
              && negb (js_eqb (prop updates "title") (Task.title task)));
    cbn [calls tasks connections console];
    repeat match goal with
           | |- context [patch ?e ?h ?c] => destruct (patch e h c) eqn:?
           end.
  all: eexists; eexists; (split; [reflexivity|]);
    cbn [calls tasks connections console];
    (split; [reflexivity|]); (split; [reflexivity|]).
  all: split;
    [first [ rewrite <- app_assoc; reflexivity
           | reflexivity
           | symmetry; apply app_nil_r ]|]; cbn [app].
  all: cbn [calls] in *.
  all: first
    [ left; split; [|reflexivity];
      first [ apply sent_none
            | apply sent_one; assumption
            | apply sent_two; assumption ]
    | right;
      match goal with
      | H : patch _ (calls _ ++ [?c1]) ?c = Some ?s |- _ =>
          exists [c1], c, s; split; [reflexivity|split; [exact H|reflexivity]]
      | H : patch _ (calls _) ?c = Some ?s |- _ =>
          exists [], c, s; split; [reflexivity|];
          split; [rewrite app_nil_r; exact H|reflexivity]
      end ].
Qed.

(** C8, as the code has it.  [pushTaskToNotion] changes neither object
    store, and it rejects only with the error of the store, when the read
    of the connections fails.  Over a store that answers it ends normally
    for every task and every [updates] object, whatever the Notion API
    answers: either every request it sent was accepted and the console is
    as it was, or the last request it sent was refused and the console
    has one more line, which carries the message of that refusal. *)
Theorem pushTaskToNotion_rejects_only_store_error
    (env : Env) (store_error : option string) (task : Task.t)
    (updates : JsObj) (w : World) :
  tasks (exec (pushTaskToNotion_idb env store_error task updates) w)
  = tasks w /\
  connections (exec (pushTaskToNotion_idb env store_error task updates) w)
  = connections w /\
  (forall message,
     outcome (pushTaskToNotion_idb env store_error task updates) w
     = Thrown message ->
     store_error = Some message) /\
  (store_error = None ->
   outcome (pushTaskToNotion_idb env store_error task updates) w = Ok tt /\
   exists sent,
     calls (exec (pushTaskToNotion_idb env store_error task updates) w)
     = calls w ++ sent /\
     ((forall before call after,
         sent = before ++ call :: after ->
         patch env (calls w ++ before) call = None) /\
      console (exec (pushTaskToNotion_idb env store_error task updates) w)
      = console w
      \/
      exists before call message,
        sent = before ++ [call] /\
        patch env (calls w ++ before) call = Some message /\
        console (exec (pushTaskToNotion_idb env store_error task updates) w)
        = console w ++ [NotionPushFailed message])).
Proof.
  destruct store_error as [error|].
  - assert (E : pushTaskToNotion_idb env (Some error) task updates w
                = (Ok tt, w) \/
                pushTaskToNotion_idb env (Some error) task updates w
                = (Thrown error, w)).
    { unfold pushTaskToNotion_idb.
      destruct (negb (js_eqb (Task.source task) (JStr "notion"))
                || negb (truthy (Task.source_id task)));
        [now left|now right]. }
    unfold outcome, exec.
    destruct E as [E|E]; rewrite E; cbn [fst snd];
      (split; [reflexivity|]); (split; [reflexivity|]);
      (split; [|discriminate]).
    + intros message [=].
    + now intros message [= ->].
  - destruct (pushTaskToNotion_answers env task updates w)
      as (w' & sent & E & Ht & Hc & Hs & Hl).
    unfold outcome, exec. rewrite E. cbn [fst snd].
    split; [exact Ht|]. split; [exact Hc|].
    split; [intros message [=]|]. intros _. split; [reflexivity|].
    exists sent. split; [exact Hs|exact Hl].
Qed.

(** The store answers and the Notion API refuses the request: the call
    ends normally and the refusal is on the console. *)
Lemma pushTaskToNotion_rejects_only_store_error_witness :
  outcome (pushTaskToNotion_idb env_down None (notion_task 1 "x" "A" 0 1)
             [("completed", JBool true)])
          (world_of [notion_task 1 "x" "A" 0 1] 2) = Ok tt /\
  console (exec (pushTaskToNotion_idb env_down None
                   (notion_task 1 "x" "A" 0 1) [("completed", JBool true)])
                (world_of [notion_task 1 "x" "A" 0 1] 2))
  = [NotionPushFailed "HTTP 502"].
Proof.
  assert (H : @None string = None) by reflexivity.
  destruct (proj2 (proj2 (proj2
              (pushTaskToNotion_rejects_only_store_error env_down None
                 (notion_task 1 "x" "A" 0 1) [("completed", JBool true)]
                 (world_of [notion_task 1 "x" "A" 0 1] 2)))) H)
    as (Hout & _).
  split; [exact Hout|reflexivity].
Defined.

(** The claim fails on the code.  The task is linked to a stored,
    enabled connection, and the store refuses the read of the
    connections, which [pushTaskToNotion] awaits before it enters its
    [try] block: the promise is rejected with the error of the store,
    no request is sent and nothing is written to the console. *)
Lemma pushTaskToNotion_rejects_on_store_error :
  outcome (pushTaskToNotion_idb (env_with []) (Some "InvalidStateError")
             (notion_task 1 "x" "A" 0 1) [("completed", JBool true)])
          (world_of [notion_task 1 "x" "A" 0 1] 2)
  = Thrown "InvalidStateError" /\
  calls (exec (pushTaskToNotion_idb (env_with []) (Some "InvalidStateError")
                 (notion_task 1 "x" "A" 0 1) [("completed", JBool true)])
              (world_of [notion_task 1 "x" "A" 0 1] 2)) = [] /\
  console (exec (pushTaskToNotion_idb (env_with [])
                   (Some "InvalidStateError")
                   (notion_task 1 "x" "A" 0 1) [("completed", JBool true)])
                (world_of [notion_task 1 "x" "A" 0 1] 2)) = [].
Proof. split; [reflexivity|split; reflexivity]. Qed.

(** ** Running loops whose body never throws *)

Lemma forM_run {A} (f : A -> M unit) (h : A -> World -> World)
    (l : list A) (w : World) :
  (forall x w, f x w = (Ok tt, h x w)) ->
  forM_ l f w = (Ok tt, fold_left (fun w x => h x w) l w).
Proof.
  intros Hf. revert w. induction l as [|x l IH]; intro w; simpl.
  - reflexivity.
  - unfold bind. rewrite Hf. apply IH.
Qed.

Lemma foldM_run {A S} (f : S -> A -> M S) (g : S -> A -> S)
    (h : A -> World -> World) (l : list A) (s : S) (w : World) :
  (forall s x w, f s x w = (Ok (g s x), h x w)) ->
  foldM f l s w = (Ok (fold_left g l s), fold_left (fun w x => h x w) l w).
Proof.
  intros Hf. revert s w. induction l as [|x l IH]; intros s w; simpl.
  - reflexivity.
  - unfold bind. rewrite Hf. apply IH.
Qed.

(** A property of the world that every step of a loop keeps holds at
    its end. *)
Lemma fold_left_keeps {A} (P : World -> Prop) (h : A -> World -> World)
    (l : list A) (w : World) :
  (forall x w, In x l -> P w -> P (h x w)) ->
  P w -> P (fold_left (fun w x => h x w) l w).
Proof.
  revert w. induction l as [|x l IH]; intros w Hh Hw; simpl; [assumption|].
  apply IH.
  - intros y w' Hy. apply Hh. now right.
  - apply Hh; [now left|assumption].
Qed.

(** ** The phases of [syncConnection] *)

Section Phases.

Variable env : Env.
Variable conn : Conn.t.

Lemma dbGetAllTasks_notion (w : World) :
  dbGetAllTasks env [("source", JStr "notion")] w = (Ok (local_tasks env w), w).
Proof. reflexivity. Qed.

Lemma push_loop_run (l : list Task.t) (w : World) :
  forM_ l (push_local env conn) w =
  (Ok tt, with_calls (calls w ++ push_calls conn l) w).
Proof.
  revert w. induction l as [|t l IH]; intro w.
  - unfold push_calls. simpl. rewrite app_nil_r. now destruct w.
  - cbn [forM_]. unfold bind. unfold push_local at 1.
    unfold push_calls. cbn [filter]. fold (pushed conn t).
    destruct (pushed conn t).
    + unfold try_catch, notionUpdateTodoChecked, notion_patch, ret.
      fold (push_call conn t).
      destruct (patch env (calls w) (push_call conn t)); rewrite IH;
        unfold with_calls, push_calls; cbn;
        rewrite <- app_assoc; reflexivity.
    + unfold ret. apply IH.
Qed.

Lemma pulled_eq (todo : Todo.t) (now : string) (t : Task.t) :
  Task.with_updated_at now (assign_allowed (todo_fields todo) t) =
  pulled todo now t.
Proof.
  unfold assign_allowed, allowed, todo_fields, pulled. cbn.
  destruct (Todo.completed todo); reflexivity.
Qed.

Lemma pull_todo_run (lookup : JsMap.t Task.t) (ids : JsSet.t)
    (todo : Todo.t) (w : World) :
  pull_todo env conn lookup ids todo w =
  (Ok (JsSet.add (JStr (Todo.source_id todo)) ids), pull_world env conn lookup todo w).
Proof.
  unfold pull_todo, pull_world.
  destruct (JsMap.get _ lookup) as [existing|].
  - unfold bind. fold (todo_fields todo). rewrite dbUpdateTask_run.
    destruct (idb_get _ (tasks w)); [|reflexivity].
    cbv zeta. rewrite pulled_eq. reflexivity.
  - unfold bind, dbCreateTask, localNow, tasks_add, ret, bind, created.
    cbn. rewrite !js_or_JStr_empty.
    destruct (Todo.completed todo); reflexivity.
Qed.

Lemma idb_delete_absent (k : Z) (l : list Task.t) :
  idb_get k l = None -> idb_delete k l = l.
Proof.
  induction l as [|u l IH]; simpl; [reflexivity|].
  destruct (Task.id u =? k)%Z; [discriminate|]. simpl.
  intro H. now rewrite IH.
Qed.

Lemma remove_deleted_run (ids : JsSet.t) (local : Task.t) (w : World) :
  remove_deleted conn ids local w = (Ok tt, remove_world conn ids local w).
Proof.
  unfold remove_deleted, remove_world. fold (doomed conn ids local).
  destruct (doomed conn ids local); [|reflexivity].
  unfold bind, dbDeleteTask, bind, tasks_get, tasks_delete, ret.
  destruct (idb_get (Task.id local) (tasks w)) eqn:G; [reflexivity|].
  rewrite (idb_delete_absent _ _ G). now destruct w.
Qed.

Lemma syncConnection_run (w : World) :
  syncConnection env conn w =
  match fetch_answer env conn w with
  | inl message => (Thrown message, fetch_world env conn w)
  | inr remoteTodos =>
      (Ok (mkSyncResult (List.length remoteTodos)), sync_world env conn remoteTodos w)
  end.
Proof.
  unfold syncConnection. unfold bind at 1. rewrite dbGetAllTasks_notion.
  unfold bind at 1. rewrite push_loop_run.
  unfold bind at 1. unfold notionFetchTodos at 1.
  cbn [calls with_calls]. fold (fetch_answer env conn w).
  destruct (fetch_answer env conn w) as [message|remoteTodos].
  - unfold fetch_world, with_calls. cbn. rewrite <- app_assoc. reflexivity.
  - unfold bind at 1.
    rewrite (foldM_run _ (fun s x => JsSet.add (JStr (Todo.source_id x)) s)
               (pull_world env conn (build_lookup (local_tasks env w))))
      by (intros; apply pull_todo_run).
    fold (remote_ids remoteTodos).
    unfold bind at 1.
    rewrite (forM_run _ (remove_world conn (remote_ids remoteTodos)))
      by (intros; apply remove_deleted_run).
    unfold sync_world, remove_all, pull_all, fetch_world, with_calls.
    cbn [tasks task_key connections conn_key ticks calls console].
    rewrite <- app_assoc.
    unfold bind, localNow, dbUpdateConnection, bind, connections_get,
      connections_put, ret, stamp_world.
    cbn [tasks task_key connections conn_key ticks calls console fold_left
         fst snd].
    set (W := fold_left _ (local_tasks env w) _).
    destruct (conn_get (Conn.id conn) (connections W)); reflexivity.
Qed.

End Phases.

(** ** The sort of [dbGetAllTasks] *)

Lemma sort_insert_In {A} (cmp : A -> A -> Z) (x y : A) (l : list A) :
  In x (sort_insert cmp y l) <-> x = y \/ In x l.
Proof.
  induction l as [|z l IH]; simpl.
  - intuition.
  - destruct (0 <? cmp y z)%Z; simpl; [rewrite IH|]; intuition.
Qed.

Lemma array_sort_In {A} (cmp : A -> A -> Z) (x : A) (l : list A) :
  In x (array_sort cmp l) <-> In x l.
Proof.
  induction l as [|y l IH]; simpl; [tauto|].
  rewrite sort_insert_In, IH. intuition.
Qed.

Lemma local_tasks_In (env : Env) (w : World) (t : Task.t) :
  In t (local_tasks env w) <->
  In t (tasks w) /\ Task.source t = JStr "notion".
Proof.
  unfold local_tasks. rewrite array_sort_In, filter_In, js_eqb_eq. tauto.
Qed.

(** ** What the phases leave alone *)

Lemma pull_world_calls env conn lookup todo w :
  calls (pull_world env conn lookup todo w) = calls w /\
  console (pull_world env conn lookup todo w) = console w /\
  connections (pull_world env conn lookup todo w) = connections w /\
  conn_key (pull_world env conn lookup todo w) = conn_key w.
Proof.
  unfold pull_world. destruct (JsMap.get _ lookup); [|simpl; auto].
  destruct (idb_get _ (tasks w)); simpl; auto.
Qed.

Lemma remove_world_calls conn ids local w :
  calls (remove_world conn ids local w) = calls w /\
  console (remove_world conn ids local w) = console w /\
  connections (remove_world conn ids local w) = connections w /\
  conn_key (remove_world conn ids local w) = conn_key w /\
  task_key (remove_world conn ids local w) = task_key w.
Proof.
  unfold remove_world. destruct (doomed conn ids local); simpl; auto.
Qed.

Lemma pull_all_calls env conn lookup remoteTodos w :
  calls (pull_all env conn lookup remoteTodos w) = calls w /\
  console (pull_all env conn lookup remoteTodos w) = console w /\
  connections (pull_all env conn lookup remoteTodos w) = connections w /\
  conn_key (pull_all env conn lookup remoteTodos w) = conn_key w.
Proof.
  unfold pull_all.
  apply (fold_left_keeps
           (fun w' => calls w' = calls w /\ console w' = console w /\
                      connections w' = connections w /\
                      conn_key w' = conn_key w)); [|auto].
  intros todo w' _ (H1 & H2 & H3 & H4).
  destruct (pull_world_calls env conn lookup todo w') as (E1 & E2 & E3 & E4).
  repeat split; congruence.
Qed.

Lemma remove_all_calls conn ids localTasks w :
  calls (remove_all conn ids localTasks w) = calls w /\
  console (remove_all conn ids localTasks w) = console w /\
  connections (remove_all conn ids localTasks w) = connections w /\
  conn_key (remove_all conn ids localTasks w) = conn_key w /\
  task_key (remove_all conn ids localTasks w) = task_key w.
Proof.
  unfold remove_all.
  apply (fold_left_keeps
           (fun w' => calls w' = calls w /\ console w' = console w /\
                      connections w' = connections w /\
                      conn_key w' = conn_key w /\
                      task_key w' = task_key w)); [|auto 6].
  intros local w' _ (H1 & H2 & H3 & H4 & H5).
  destruct (remove_world_calls conn ids local w')
    as (E1 & E2 & E3 & E4 & E5).
  repeat split; congruence.
Qed.

Lemma sync_world_calls env conn remoteTodos w :
  calls (sync_world env conn remoteTodos w) = calls (fetch_world env conn w) /\
  console (sync_world env conn remoteTodos w) = console w.
Proof.
  unfold sync_world.
  set (lookup := build_lookup _). set (ids := remote_ids _).
  destruct (remove_all_calls conn ids (local_tasks env w)
              (pull_all env conn lookup remoteTodos (fetch_world env conn w)))
    as (E1 & E2 & _).
  destruct (pull_all_calls env conn lookup remoteTodos (fetch_world env conn w))
    as (F1 & F2 & _).
  unfold stamp_world. cbn [calls console]. split.
  - now rewrite E1, F1.
  - now rewrite E2, F2.
Qed.

(** The requests of one run: the pushes, then the fetch. *)
Lemma syncConnection_calls env conn w :
  calls (exec (syncConnection env conn) w) =
  calls w ++ push_calls conn (local_tasks env w) ++
  [FetchTodos (Conn.token (Conn.config conn))
              (Conn.database_id (Conn.config conn))] /\
  console (exec (syncConnection env conn) w) = console w.
Proof.
  unfold exec. rewrite syncConnection_run.
  destruct (fetch_answer env conn w) as [message|remoteTodos]; cbn [snd].
  - split; reflexivity.
  - destruct (sync_world_calls env conn remoteTodos w) as (E1 & E2).
    rewrite E1. split; [reflexivity|assumption].
Qed.

(** C5.  The requests one run of [syncConnection] sends are a list of
    [notionUpdateTodoChecked] pushes followed by one fetch of the remote
    items, which is the last request of the run: every push precedes the
    fetch.  The pushes carry the completed flags of the stored tasks of
    this connection, and each such task is pushed. *)
Theorem sync_pushes_before_fetch (env : Env) (conn : Conn.t) (w : World) :
  exists pushes,
    calls (exec (syncConnection env conn) w) =
      calls w ++ pushes ++
      [FetchTodos (Conn.token (Conn.config conn))
                  (Conn.database_id (Conn.config conn))] /\
    Forall (fun c => exists t,
              In t (tasks w) /\ pushed conn t = true /\ c = push_call conn t)
           pushes /\
    (forall t, In t (tasks w) -> Task.source t = JStr "notion" ->
               pushed conn t = true -> In (push_call conn t) pushes).
Proof.
  exists (push_calls conn (local_tasks env w)).
  split; [apply syncConnection_calls|]. split.
  - apply Forall_forall. intros c Hc. unfold push_calls in Hc.
    apply in_map_iff in Hc. destruct Hc as (t & <- & Ht).
    apply filter_In in Ht. destruct Ht as (Ht & Hp).
    apply local_tasks_In in Ht. exists t. tauto.
  - intros t Ht Hs Hp. unfold push_calls. apply in_map.
    apply filter_In. split; [|assumption].
    apply local_tasks_In. tauto.
Qed.

(** ** [syncAllConnections] *)

Lemma syncAll_loop (env : Env) (cs : list Conn.t) (w : World) :
  forM_ cs
    (fun conn =>
       if negb (truthy (Conn.enabled conn))
          || negb (Conn.type conn =? "notion")%string
       then ret tt
       else
         try_catch
           (r <- syncConnection env conn ;;
            console_write (SyncLog (Conn.name conn) (synced r)))
           (fun message =>
              console_write (SyncFailed (Conn.name conn) message))) w =
  (Ok tt, fold_left (sync_and_log env) (filter eligible cs) w).
Proof.
  revert w. induction cs as [|c cs IH]; intro w; [reflexivity|].
  cbn [forM_ filter]. unfold bind at 1. unfold eligible at 1.
  destruct (truthy (Conn.enabled c)); cbn [negb orb andb];
    [|unfold ret; apply IH].
  destruct (Conn.type c =? "notion")%string; cbn [negb];
    [|unfold ret; apply IH].
  cbn [fold_left]. unfold sync_and_log at 2, outcome, exec.
  unfold try_catch, bind.
  destruct (syncConnection env c w) as [[r|message] w']; cbn; apply IH.
Qed.

Lemma filter_is_fetch_push_calls conn l :
  filter is_fetch (push_calls conn l) = [].
Proof.
  unfold push_calls. induction (filter (pushed conn) l); simpl; auto.
Qed.

Lemma sync_and_log_fetches (env : Env) (cs : list Conn.t) (w : World) :
  exists sent,
    calls (fold_left (sync_and_log env) cs w) = calls w ++ sent /\
    filter is_fetch sent = map fetch_of cs.
Proof.
  revert w. induction cs as [|c cs IH]; intro w; cbn [fold_left].
  - exists []. now rewrite app_nil_r.
  - destruct (IH (sync_and_log env w c)) as (sent & E & F).
    destruct (syncConnection_calls env c w) as (C & _).
    exists (push_calls c (local_tasks env w) ++ [fetch_of c] ++ sent).
    split.
    + rewrite E. unfold sync_and_log.
      change (calls (exec (console_write ?l) ?x)) with (calls x).
      rewrite C. unfold fetch_of. now rewrite <- !app_assoc.
    + rewrite !filter_app, filter_is_fetch_push_calls, F. reflexivity.
Qed.

(** C6.  [syncAllConnections] always ends normally.  It skips the
    connections that are disabled or not of type ['notion'] and runs
    [syncConnection] on the others one after the other in the order of
    the store, each run starting from the world the previous one left;
    whether a run returns or throws, one line is written and the loop
    goes on.  In particular the fetches it sends are those of the
    eligible connections, all of them, in that order. *)
Theorem syncAll_isolates_failures (env : Env) (w : World) :
  outcome (syncAllConnections env) w = Ok tt /\
  exec (syncAllConnections env) w =
    fold_left (sync_and_log env) (filter eligible (connections w)) w /\
  exists sent,
    calls (exec (syncAllConnections env) w) = calls w ++ sent /\
    filter is_fetch sent = map fetch_of (filter eligible (connections w)).
Proof.
  assert (E : syncAllConnections env w =
              (Ok tt, fold_left (sync_and_log env)
                                (filter eligible (connections w)) w)).
  { unfold syncAllConnections, bind at 1, dbGetAllConnections,
      connections_getAll. apply syncAll_loop. }
  unfold outcome, exec. rewrite E. cbn [fst snd].
  split; [reflexivity|]. split; [reflexivity|].
  apply sync_and_log_fetches.
Qed.

(** ** Well-formed stores *)

Lemma sorted_get (l : list Task.t) (t : Task.t) :
  StronglySorted Z.lt (map Task.id l) -> In t l ->
  idb_get (Task.id t) l = Some t.
Proof.
  induction l as [|u l IH]; simpl; intros S H; [contradiction|].
  apply StronglySorted_inv in S. destruct S as (S & F).
  destruct H as [->|H].
  - now rewrite Z.eqb_refl.
  - rewrite Forall_forall in F.
    assert (Task.id u < Task.id t) by (apply F; now apply in_map).
    destruct (Z.eqb_spec (Task.id u) (Task.id t)); [lia|]. now apply IH.
Qed.

Lemma store_ok_get (w : World) (t : Task.t) :
  store_ok w -> In t (tasks w) -> idb_get (Task.id t) (tasks w) = Some t.
Proof. intros (S & _). now apply sorted_get. Qed.

Lemma store_ok_unique (w : World) (t u : Task.t) :
  store_ok w -> In t (tasks w) -> In u (tasks w) ->
  Task.id t = Task.id u -> t = u.
Proof.
  intros Hw Ht Hu E.
  pose proof (store_ok_get w t Hw Ht) as G1.
  pose proof (store_ok_get w u Hw Hu) as G2.
  rewrite E in G1. congruence.
Qed.

Lemma idb_get_None (k : Z) (l : list Task.t) :
  idb_get k l = None <-> ~ In k (map Task.id l).
Proof.
  induction l as [|u l IH]; simpl; [tauto|].
  destruct (Z.eqb_spec (Task.id u) k); [intuition discriminate|].
  rewrite IH. tauto.
Qed.

Lemma idb_put_ids (t : Task.t) (l : list Task.t) :
  StronglySorted Z.lt (map Task.id l) -> In (Task.id t) (map Task.id l) ->
  map Task.id (idb_put t l) = map Task.id l.
Proof.
  induction l as [|u l IH]; simpl; intros S H; [contradiction|].
  apply StronglySorted_inv in S. destruct S as (S & F).
  destruct (Z.eqb_spec (Task.id u) (Task.id t)) as [E|E]; simpl.
  - now rewrite E.
  - destruct H as [H|H]; [congruence|].
    rewrite Forall_forall in F. specialize (F _ H).
    destruct (Z.ltb_spec (Task.id t) (Task.id u)); [lia|].
    simpl. now rewrite IH.
Qed.

Lemma idb_delete_sorted (k : Z) (l : list Task.t) :
  StronglySorted Z.lt (map Task.id l) ->
  StronglySorted Z.lt (map Task.id (idb_delete k l)).
Proof.
  induction l as [|u l IH]; simpl; intro S; [constructor|].
  apply StronglySorted_inv in S. destruct S as (S & F).
  destruct (negb (Task.id u =? k)); simpl; [|now apply IH].
  constructor; [now apply IH|].
  rewrite Forall_forall in *. intros x Hx. apply F.
  apply in_map_iff in Hx. destruct Hx as (y & <- & Hy).
  apply filter_In in Hy. apply in_map. tauto.
Qed.

Lemma idb_delete_below (k b : Z) (l : list Task.t) :
  Forall (fun i => i < b) (map Task.id l) ->
  Forall (fun i => i < b) (map Task.id (idb_delete k l)).
Proof.
  rewrite !Forall_forall. intros F x Hx. apply F.
  apply in_map_iff in Hx. destruct Hx as (y & <- & Hy).
  apply filter_In in Hy. apply in_map. tauto.
Qed.

Lemma sorted_snoc (l : list Z) (k : Z) :
  StronglySorted Z.lt l -> Forall (fun i => i < k) l ->
  StronglySorted Z.lt (l ++ [k]).
Proof.
  induction l as [|x l IH]; simpl; intros S F.
  - repeat constructor.
  - apply StronglySorted_inv in S. destruct S as (S & Fx).
    inversion F; subst.
    constructor; [now apply IH|].
    apply Forall_app. split; [assumption|]. now constructor.
Qed.

(** ** The lookup [localBySourceId] *)

Lemma lookup_fold_sound (l : list Task.t) (m : JsMap.t Task.t)
    (k : JsVal) (e : Task.t) :
  JsMap.get k
    (fold_left
       (fun m t =>
          if truthy (Task.source_id t) then JsMap.set (Task.source_id t) t m
          else m) l m) = Some e ->
  (In e l /\ Task.source_id e = k /\ truthy k = true) \/
  JsMap.get k m = Some e.
Proof.
  revert m. induction l as [|t l IH]; intros m H; simpl in *; [now right|].
  apply IH in H. destruct H as [(H1 & H2)|H]; [left; tauto|].
  destruct (truthy (Task.source_id t)) eqn:T; [|now right].
  unfold JsMap.set in H. simpl in H.
  destruct (js_eqb (Task.source_id t) k) eqn:E; [|now right].
  apply js_eqb_eq in E. injection H as <-. left. subst k. tauto.
Qed.

Lemma lookup_fold_mono (l : list Task.t) (m : JsMap.t Task.t) (k : JsVal) :
  JsMap.get k m <> None ->
  JsMap.get k
    (fold_left
       (fun m t =>
          if truthy (Task.source_id t) then JsMap.set (Task.source_id t) t m
          else m) l m) <> None.
Proof.
  revert m. induction l as [|t l IH]; intros m H; simpl; [assumption|].
  apply IH. destruct (truthy (Task.source_id t)); [|assumption].
  unfold JsMap.set. simpl. now destruct (js_eqb (Task.source_id t) k).
Qed.

Lemma lookup_fold_complete (l : list Task.t) (m : JsMap.t Task.t)
    (t : Task.t) :
  In t l -> truthy (Task.source_id t) = true ->
  JsMap.get (Task.source_id t)
    (fold_left
       (fun m t =>
          if truthy (Task.source_id t) then JsMap.set (Task.source_id t) t m
          else m) l m) <> None.
Proof.
  revert m. induction l as [|u l IH]; intros m H T; simpl in *;
    [contradiction|].
  destruct H as [->|H]; [|now apply IH].
  apply lookup_fold_mono. rewrite T. unfold JsMap.set. simpl.
  now rewrite js_eqb_refl.
Qed.

Lemma build_lookup_sound (l : list Task.t) (k : JsVal) (e : Task.t) :
  JsMap.get k (build_lookup l) = Some e ->
  In e l /\ Task.source_id e = k /\ truthy k = true.
Proof.
  intro H. apply lookup_fold_sound in H.
  destruct H as [H|H]; [assumption|discriminate].
Qed.

Lemma build_lookup_complete (l : list Task.t) (t : Task.t) :
  In t l -> truthy (Task.source_id t) = true ->
  exists e, JsMap.get (Task.source_id t) (build_lookup l) = Some e.
Proof.
  intros H T. pose proof (lookup_fold_complete l JsMap.empty t H T) as N.
  unfold build_lookup. destruct (JsMap.get _ _) as [e|]; [eauto|congruence].
Qed.

(** ** The set [remoteIds] *)

Lemma remote_ids_fold (l : list Todo.t) (s : JsSet.t) (v : JsVal) :
  JsSet.has v
    (fold_left (fun s x => JsSet.add (JStr (Todo.source_id x)) s) l s) =
  existsb (fun x => js_eqb v (JStr (Todo.source_id x))) l || JsSet.has v s.
Proof.
  revert s. induction l as [|x l IH]; intro s; simpl; [reflexivity|].
  rewrite IH, has_add.
  destruct (js_eqb v (JStr (Todo.source_id x))); simpl;
    [now rewrite orb_true_r|reflexivity].
Qed.

Lemma remote_ids_has (l : list Todo.t) (v : JsVal) :
  JsSet.has v (remote_ids l) = true <->
  exists x, In x l /\ v = JStr (Todo.source_id x).
Proof.
  unfold remote_ids. rewrite remote_ids_fold. simpl. rewrite orb_false_r.
  rewrite existsb_exists. split; intros (x & H & E); exists x;
    (split; [assumption|]); now apply js_eqb_eq.
Qed.

(** ** The second and third loops, task by task *)

Section Loops.

Variable env : Env.
Variable conn : Conn.t.

Lemma pull_world_get (lookup : JsMap.t Task.t) (todo : Todo.t) (w : World)
    (j : Z) :
  idb_get j (tasks (pull_world env conn lookup todo w)) =
  match JsMap.get (JStr (Todo.source_id todo)) lookup with
  | Some e =>
      match idb_get (Task.id e) (tasks w) with
      | Some t =>
          if Task.id e =? j then Some (pulled todo (clock env (ticks w)) t)
          else idb_get j (tasks w)
      | None => idb_get j (tasks w)
      end
  | None =>
      match idb_get j (tasks w) with
      | Some t => Some t
      | None =>
          if task_key w =? j
          then Some (created conn todo (clock env (ticks w)) (task_key w))
          else None
      end
  end.
Proof.
  unfold pull_world. destruct (JsMap.get _ lookup) as [e|].
  - destruct (idb_get (Task.id e) (tasks w)) as [t|] eqn:G; [|reflexivity].
    cbn [tasks]. rewrite idb_get_put. cbn [pulled Task.id].
    now rewrite (idb_get_id _ _ _ G).
  - cbn [tasks]. rewrite idb_get_app. reflexivity.
Qed.

Lemma pull_world_ok (lookup : JsMap.t Task.t) (todo : Todo.t) (w : World) :
  store_ok w -> store_ok (pull_world env conn lookup todo w).
Proof.
  unfold store_ok, pull_world. intros (S & F).
  destruct (JsMap.get _ lookup) as [e|].
  - destruct (idb_get (Task.id e) (tasks w)) as [t|] eqn:G; [|tauto].
    cbn [tasks task_key]. rewrite idb_put_ids; [tauto|assumption|].
    cbn [pulled Task.id]. apply in_map. exact (idb_get_In _ _ _ G).
  - cbn [tasks task_key]. rewrite map_app. cbn [map created Task.id]. split.
    + now apply sorted_snoc.
    + apply Forall_app. split.
      * eapply Forall_impl; [|exact F]. cbn. intros; lia.
      * constructor; [lia|constructor].
Qed.

Lemma pull_world_key (lookup : JsMap.t Task.t) (todo : Todo.t) (w : World) :
  task_key w <= task_key (pull_world env conn lookup todo w).
Proof.
  unfold pull_world. destruct (JsMap.get _ lookup) as [e|].
  - destruct (idb_get _ (tasks w)); cbn; lia.
  - cbn. lia.
Qed.

Lemma pull_all_ok (lookup : JsMap.t Task.t) (remoteTodos : list Todo.t)
    (w : World) :
  store_ok w -> store_ok (pull_all env conn lookup remoteTodos w).
Proof.
  unfold pull_all. apply fold_left_keeps.
  intros todo w' _. apply pull_world_ok.
Qed.

Lemma remove_world_get (ids : JsSet.t) (local : Task.t) (w : World) (j : Z) :
  idb_get j (tasks (remove_world conn ids local w)) =
  if doomed conn ids local && (j =? Task.id local) then None
  else idb_get j (tasks w).
Proof.
  unfold remove_world. destruct (doomed conn ids local); [|reflexivity].
  cbn [tasks andb]. apply idb_get_delete.
Qed.

Lemma remove_all_get (ids : JsSet.t) (localTasks : list Task.t) (w : World)
    (j : Z) :
  idb_get j (tasks (remove_all conn ids localTasks w)) =
  if existsb (fun local => doomed conn ids local && (j =? Task.id local))
             localTasks
  then None else idb_get j (tasks w).
Proof.
  unfold remove_all. revert w.
  induction localTasks as [|local l IH]; intro w; cbn [fold_left existsb];
    [reflexivity|].
  rewrite IH, remove_world_get.
  destruct (doomed conn ids local && (j =? Task.id local)); cbn [orb];
    [now destruct (existsb _ l)|reflexivity].
Qed.

Lemma remove_world_ok (ids : JsSet.t) (local : Task.t) (w : World) :
  store_ok w -> store_ok (remove_world conn ids local w).
Proof.
  unfold store_ok, remove_world. intros (S & F).
  destruct (doomed conn ids local); [|tauto]. cbn [tasks task_key].
  split; [now apply idb_delete_sorted|now apply idb_delete_below].
Qed.

Lemma remove_all_ok (ids : JsSet.t) (localTasks : list Task.t) (w : World) :
  store_ok w -> store_ok (remove_all conn ids localTasks w).
Proof.
  unfold remove_all. apply fold_left_keeps.
  intros local w' _. apply remove_world_ok.
Qed.

Lemma sync_world_tasks (remoteTodos : list Todo.t) (w : World) :
  tasks (sync_world env conn remoteTodos w) =
  tasks (remove_all conn (remote_ids remoteTodos) (local_tasks env w)
           (pull_all env conn (build_lookup (local_tasks env w)) remoteTodos
              (fetch_world env conn w))).
Proof. reflexivity. Qed.

Lemma sync_world_ok (remoteTodos : list Todo.t) (w : World) :
  store_ok w -> store_ok (sync_world env conn remoteTodos w).
Proof.
  intro H. unfold sync_world.
  assert (H' : store_ok (fetch_world env conn w)) by exact H.
  apply (pull_all_ok (build_lookup (local_tasks env w)) remoteTodos) in H'.
  apply (remove_all_ok (remote_ids remoteTodos) (local_tasks env w)) in H'.
  exact H'.
Qed.

(** A run of [syncConnection] keeps the store well formed, whether the
    fetch succeeds or not. *)
Lemma syncConnection_ok (w : World) :
  store_ok w -> store_ok (exec (syncConnection env conn) w).
Proof.
  intro H. unfold exec. rewrite syncConnection_run.
  destruct (fetch_answer env conn w); cbn [snd];
    [exact H|now apply sync_world_ok].
Qed.

(** *** Records no step of a run addresses *)

(** A record whose key is not the key of any task in the lookup goes
    through the second loop as it is. *)
Lemma pull_all_untouched (lookup : JsMap.t Task.t)
    (remoteTodos : list Todo.t) (w : World) (j : Z) (t : Task.t) :
  (forall k e, JsMap.get k lookup = Some e -> Task.id e <> j) ->
  idb_get j (tasks w) = Some t ->
  idb_get j (tasks (pull_all env conn lookup remoteTodos w)) = Some t.
Proof.
  intros HL. unfold pull_all.
  apply (fold_left_keeps (fun w => idb_get j (tasks w) = Some t)).
  intros todo w' _ G. rewrite pull_world_get.
  destruct (JsMap.get _ lookup) as [e|] eqn:E.
  - apply HL in E.
    destruct (idb_get (Task.id e) (tasks w')); [|assumption].
    destruct (Z.eqb_spec (Task.id e) j); [contradiction|assumption].
  - now rewrite G.
Qed.

(** A record that exists is still there after the second loop. *)
Lemma pull_all_exists (lookup : JsMap.t Task.t)
    (remoteTodos : list Todo.t) (w : World) (j : Z) :
  idb_get j (tasks w) <> None ->
  idb_get j (tasks (pull_all env conn lookup remoteTodos w)) <> None.
Proof.
  unfold pull_all.
  apply (fold_left_keeps (fun w => idb_get j (tasks w) <> None)).
  intros todo w' _ G. rewrite pull_world_get.
  destruct (JsMap.get _ lookup) as [e|].
  - destruct (idb_get (Task.id e) (tasks w')); [|assumption].
    destruct (Task.id e =? j); [discriminate|assumption].
  - destruct (idb_get j (tasks w')); [discriminate|congruence].
Qed.

End Loops.

(** ** Tasks that are not Notion tasks *)

Lemma idb_put_In (x u : Task.t) (l : list Task.t) :
  In u (idb_put x l) -> u = x \/ In u l.
Proof.
  induction l as [|y l IH]; simpl.
  - intros [H|[]]. now left.
  - destruct (Task.id y =? Task.id x); simpl.
    { intros [H|H]; [now left|right; now right]. }
    destruct (Task.id x <? Task.id y); simpl.
    { intros [H|H]; [now left|now right]. }
    intros [H|H]; [right; now left|].
    apply IH in H. destruct H; [now left|right; now right].
Qed.

Lemma lookup_of_local_tasks (env : Env) (w : World) (k : JsVal) (e : Task.t) :
  JsMap.get k (build_lookup (local_tasks env w)) = Some e ->
  In e (tasks w) /\ Task.source e = JStr "notion" /\
  Task.source_id e = k /\ truthy k = true.
Proof.
  intro H. apply build_lookup_sound in H. destruct H as (H1 & H2 & H3).
  apply local_tasks_In in H1. tauto.
Qed.

Lemma not_deleted (conn : Conn.t) (ids : JsSet.t) (l : list Task.t) (j : Z) :
  (forall local, In local l -> Task.id local = j ->
                 doomed conn ids local = false) ->
  existsb (fun local => doomed conn ids local && (j =? Task.id local)) l
  = false.
Proof.
  intro H. destruct (existsb _ l) eqn:E; [|reflexivity].
  apply existsb_exists in E. destruct E as (local & Hin & Hd).
  apply andb_true_iff in Hd. destruct Hd as (Hd & Hj).
  apply Z.eqb_eq in Hj. rewrite (H local Hin) in Hd; [discriminate|lia].
Qed.

Lemma pull_all_keeps_others (env : Env) (conn : Conn.t) (w0 : World)
    (remoteTodos : list Todo.t) (w : World) :
  store_ok w0 ->
  (forall u, In u (tasks w) -> Task.source u <> JStr "notion" ->
             In u (tasks w0)) ->
  forall u,
    In u (tasks (pull_all env conn (build_lookup (local_tasks env w0))
                   remoteTodos w)) ->
    Task.source u <> JStr "notion" -> In u (tasks w0).
Proof.
  intros Hok. unfold pull_all.
  apply (fold_left_keeps
           (fun w => forall u, In u (tasks w) ->
                               Task.source u <> JStr "notion" ->
                               In u (tasks w0))).
  intros todo w' _ Q u Hu Hs. unfold pull_world in Hu.
  destruct (JsMap.get _ _) as [e|] eqn:E.
  - destruct (idb_get (Task.id e) (tasks w')) as [t0|] eqn:G; [|now apply Q].
    cbn [tasks] in Hu. apply idb_put_In in Hu.
    destruct Hu as [->|Hu]; [|now apply Q]. exfalso.
    cbn [pulled Task.source] in Hs.
    apply lookup_of_local_tasks in E. destruct E as (E1 & E2 & _).
    assert (In t0 (tasks w0)) by (apply Q; [exact (idb_get_In _ _ _ G)|assumption]).
    assert (t0 = e).
    { apply (store_ok_unique w0); try assumption.
      exact (idb_get_id _ _ _ G). }
    congruence.
  - cbn [tasks] in Hu. apply in_app_iff in Hu.
    destruct Hu as [Hu|[<-|[]]]; [now apply Q|].
    cbn [created Task.source] in Hs. congruence.
Qed.

Lemma remove_all_subset (conn : Conn.t) (ids : JsSet.t) (l : list Task.t)
    (w : World) (u : Task.t) :
  In u (tasks (remove_all conn ids l w)) -> In u (tasks w).
Proof.
  unfold remove_all. revert w.
  induction l as [|local l IH]; intros w H; cbn [fold_left] in *;
    [assumption|].
  apply IH in H. unfold remove_world in H.
  destruct (doomed conn ids local); [|assumption].
  cbn [tasks] in H. unfold idb_delete in H. apply filter_In in H. tauto.
Qed.

(** C7.  A run of [syncConnection], for any connection and whatever the
    Notion API answers, leaves every stored task whose source is not
    ['notion'] (the tasks created locally among them) in the store under
    its key with every field as it was; and it adds no such task: a task
    of another source found in the store afterwards was there before. *)
Theorem sync_leaves_local_tasks
    (env : Env) (conn : Conn.t) (w : World) (t : Task.t) :
  store_ok w ->
  In t (tasks w) ->
  Task.source t <> JStr "notion" ->
  idb_get (Task.id t) (tasks (exec (syncConnection env conn) w)) = Some t /\
  In t (tasks (exec (syncConnection env conn) w)) /\
  (forall u, In u (tasks (exec (syncConnection env conn) w)) ->
             Task.source u <> JStr "notion" -> In u (tasks w)).
Proof.
  intros Hok Hin Hsrc.
  assert (G : idb_get (Task.id t) (tasks (exec (syncConnection env conn) w))
              = Some t).
  { unfold exec. rewrite syncConnection_run.
    destruct (fetch_answer env conn w) as [message|remoteTodos]; cbn [snd].
    - now apply store_ok_get.
    - rewrite sync_world_tasks, remove_all_get, not_deleted.
      + apply pull_all_untouched; [|now apply store_ok_get].
        intros k e E F. apply lookup_of_local_tasks in E.
        destruct E as (E1 & E2 & _).
        assert (e = t) by now apply (store_ok_unique w). congruence.
      + intros local Hl Hid. apply local_tasks_In in Hl.
        destruct Hl as (Hl & Hn).
        assert (local = t) by now apply (store_ok_unique w). congruence. }
  split; [exact G|]. split; [exact (idb_get_In _ _ _ G)|].
  unfold exec. rewrite syncConnection_run.
  destruct (fetch_answer env conn w) as [message|remoteTodos]; cbn [snd].
  - intros u Hu _. exact Hu.
  - intros u Hu Hs. rewrite sync_world_tasks in Hu.
    apply remove_all_subset in Hu.
    revert u Hu Hs. apply pull_all_keeps_others; [assumption|].
    intros u Hu _. exact Hu.
Qed.

Lemma sync_leaves_local_tasks_witness :
  idb_get 1 (tasks (exec (syncConnection (env_with [todo_x_done]) conn1)
                         (world_of [local_task 1 "Buy milk";
                                    notion_task 2 "y" "Old" 0 1] 3)))
  = Some (local_task 1 "Buy milk").
Proof.
  assert (H1 : store_ok (world_of [local_task 1 "Buy milk";
                                   notion_task 2 "y" "Old" 0 1] 3))
    by (unfold store_ok; simpl; split; repeat constructor).
  assert (H2 : In (local_task 1 "Buy milk")
                 (tasks (world_of [local_task 1 "Buy milk";
                                   notion_task 2 "y" "Old" 0 1] 3)))
    by (simpl; now left).
  assert (H3 : Task.source (local_task 1 "Buy milk") <> JStr "notion")
    by (simpl; discriminate).
  exact (proj1 (sync_leaves_local_tasks (env_with [todo_x_done]) conn1
                  _ _ H1 H2 H3)).
Defined.

(** ** Orphans *)

Lemma doomed_spec (conn : Conn.t) (remoteTodos : list Todo.t) (t : Task.t) :
  doomed conn (remote_ids remoteTodos) t = true <->
  pushed conn t = true /\
  forall x, In x remoteTodos -> Task.source_id t <> JStr (Todo.source_id x).
Proof.
  unfold doomed. fold (pushed conn t).
  rewrite andb_true_iff, negb_true_iff. split; intros (H1 & H2);
    (split; [assumption|]).
  - intros x Hx E.
    assert (JsSet.has (Task.source_id t) (remote_ids remoteTodos) = true)
      by (apply remote_ids_has; eauto).
    congruence.
  - destruct (JsSet.has _ _) eqn:E; [|reflexivity].
    apply remote_ids_has in E. destruct E as (x & Hx & E).
    now apply H2 in Hx.
Qed.

(** C3.  When [syncConnection] has received the list of remote items,
    every Notion task that was stored for this connection with a
    [source_id] when the run began is gone from the store at its end if
    no fetched item carries its [source_id], and is still in the store,
    under the same key, if some fetched item does. *)
Theorem sync_deletes_orphans_keeps_matched
    (env : Env) (conn : Conn.t) (w : World) (remoteTodos : list Todo.t)
    (t : Task.t) :
  store_ok w ->
  fetch_answer env conn w = inr remoteTodos ->
  In t (tasks w) ->
  Task.source t = JStr "notion" ->
  pushed conn t = true ->
  ((forall x, In x remoteTodos ->
              Task.source_id t <> JStr (Todo.source_id x)) ->
   ~ In (Task.id t) (map Task.id (tasks (exec (syncConnection env conn) w))))
  /\
  ((exists x, In x remoteTodos /\ Task.source_id t = JStr (Todo.source_id x))
   -> In (Task.id t) (map Task.id (tasks (exec (syncConnection env conn) w)))).
Proof.
  intros Hok Hfetch Hin Hsrc Hpush.
  unfold exec. rewrite syncConnection_run, Hfetch. cbn [snd].
  rewrite sync_world_tasks. split.
  - intro Hnone. apply idb_get_None. rewrite remove_all_get.
    replace (existsb _ _) with true; [reflexivity|].
    symmetry. apply existsb_exists. exists t. split.
    + apply local_tasks_In. tauto.
    + rewrite Z.eqb_refl, andb_true_r. apply doomed_spec. tauto.
  - intros (x & Hx & E).
    assert (G : idb_get (Task.id t)
                  (tasks (remove_all conn (remote_ids remoteTodos)
                            (local_tasks env w)
                            (pull_all env conn
                               (build_lookup (local_tasks env w))
                               remoteTodos (fetch_world env conn w))))
                <> None).
    { rewrite remove_all_get, not_deleted.
      - apply pull_all_exists. change (tasks (fetch_world env conn w))
          with (tasks w). now rewrite store_ok_get.
      - intros local Hl Hid. apply local_tasks_In in Hl.
        destruct Hl as (Hl & _).
        assert (local = t) by now apply (store_ok_unique w). subst local.
        destruct (doomed conn (remote_ids remoteTodos) t) eqn:D;
          [|reflexivity].
        apply doomed_spec in D. destruct D as (_ & D).
        now apply D in Hx. }
    destruct (in_dec Z.eq_dec (Task.id t) (map Task.id (tasks
               (remove_all conn (remote_ids remoteTodos) (local_tasks env w)
                  (pull_all env conn (build_lookup (local_tasks env w))
                     remoteTodos (fetch_world env conn w)))))) as [I|I];
      [exact I|].
    apply idb_get_None in I. contradiction.
Qed.

(** The example of the design document: A has remote id "x", B has "y",
    the remote list holds "x" only. *)
Lemma sync_deletes_orphans_keeps_matched_witness :
  ~ In 2 (map Task.id
            (tasks (exec (syncConnection (env_with [todo_x_done]) conn1)
                         (world_of [notion_task 1 "x" "A" 0 1;
                                    notion_task 2 "y" "B" 0 1] 3)))).
Proof.
  assert (H1 : store_ok (world_of [notion_task 1 "x" "A" 0 1;
                                   notion_task 2 "y" "B" 0 1] 3))
    by (unfold store_ok; simpl; split; repeat constructor).
  assert (H2 : fetch_answer (env_with [todo_x_done]) conn1
                 (world_of [notion_task 1 "x" "A" 0 1;
                            notion_task 2 "y" "B" 0 1] 3)
               = inr [todo_x_done]) by reflexivity.
  assert (H3 : In (notion_task 2 "y" "B" 0 1)
                 (tasks (world_of [notion_task 1 "x" "A" 0 1;
                                   notion_task 2 "y" "B" 0 1] 3)))
    by (simpl; right; now left).
  assert (H4 : Task.source (notion_task 2 "y" "B" 0 1) = JStr "notion")
    by reflexivity.
  assert (H5 : pushed conn1 (notion_task 2 "y" "B" 0 1) = true)
    by reflexivity.
  assert (H6 : forall x, In x [todo_x_done] ->
                 Task.source_id (notion_task 2 "y" "B" 0 1)
                 <> JStr (Todo.source_id x))
    by (simpl; intros x [<-|[]]; discriminate).
  exact (proj1 (sync_deletes_orphans_keeps_matched _ _ _ _ _
                  H1 H2 H3 H4 H5) H6).
Defined.

(** ** Remote wins on pull *)

Lemma last_item_fold_In (sid : JsVal) (l : list Todo.t) (acc : option Todo.t)
    (r : Todo.t) :
  fold_left
    (fun acc x => if js_eqb (JStr (Todo.source_id x)) sid then Some x else acc)
    l acc = Some r ->
  (In r l /\ JStr (Todo.source_id r) = sid) \/ acc = Some r.
Proof.
  revert acc. induction l as [|x l IH]; intros acc H; cbn [fold_left] in *;
    [now right|].
  apply IH in H.
  destruct H as [(H1 & H2)|H]; [left; split; [now right|assumption]|].
  destruct (js_eqb (JStr (Todo.source_id x)) sid) eqn:E; [|now right].
  injection H as <-. apply js_eqb_eq in E. left. split; [now left|assumption].
Qed.

Lemma last_item_In (sid : JsVal) (l : list Todo.t) (r : Todo.t) :
  last_item sid l = Some r -> In r l /\ JStr (Todo.source_id r) = sid.
Proof.
  intro H. apply last_item_fold_In in H.
  destruct H as [H|H]; [assumption|discriminate].
Qed.

Lemma pull_all_last (env : Env) (conn : Conn.t) (lookup : JsMap.t Task.t)
    (sid : JsVal) (i : Z) :
  (forall x e, JsMap.get (JStr (Todo.source_id x)) lookup = Some e ->
               (Task.id e = i <-> JStr (Todo.source_id x) = sid)) ->
  JsMap.get sid lookup <> None ->
  forall (remoteTodos : list Todo.t) (w : World) (acc : option Todo.t)
         (u : Task.t),
    idb_get i (tasks w) = Some u ->
    match acc with Some r => mirrors r u | None => True end ->
    exists u',
      idb_get i (tasks (pull_all env conn lookup remoteTodos w)) = Some u' /\
      match
        fold_left
          (fun acc x =>
             if js_eqb (JStr (Todo.source_id x)) sid then Some x else acc)
          remoteTodos acc
      with
      | Some r => mirrors r u'
      | None => True
      end.
Proof.
  intros HL Hs. unfold pull_all.
  induction remoteTodos as [|x l IH]; intros w acc u G M; cbn [fold_left].
  - eauto.
  - pose proof (pull_world_get env conn lookup x w i) as P.
    destruct (js_eqb (JStr (Todo.source_id x)) sid) eqn:E.
    + apply js_eqb_eq in E.
      destruct (JsMap.get (JStr (Todo.source_id x)) lookup) as [e|] eqn:L;
        [|congruence].
      assert (Task.id e = i) by (apply (HL x e L); assumption).
      subst i. rewrite G, Z.eqb_refl in P.
      apply (IH _ (Some x) _ P). unfold mirrors, pulled. cbn. tauto.
    + apply js_eqb_neq in E.
      assert (P' : idb_get i (tasks (pull_world env conn lookup x w)) = Some u).
      { rewrite P.
        destruct (JsMap.get (JStr (Todo.source_id x)) lookup) as [e|] eqn:L.
        - destruct (idb_get (Task.id e) (tasks w)); [|assumption].
          destruct (Z.eqb_spec (Task.id e) i) as [F|F]; [|assumption].
          apply (HL x e L) in F. contradiction.
        - now rewrite G. }
      apply (IH _ acc _ P' M).
Qed.

(** C4, as the code has it.  When [syncConnection] has received the list
    of remote items, a Notion task of the connection whose [source_id]
    no other stored Notion task carries, and which some fetched item
    carries, ends the run with the [title], [description], [completed]
    flag and [source_url] of the last fetched item with that
    [source_id]. *)
Theorem pull_remote_wins_unique
    (env : Env) (conn : Conn.t) (w : World) (remoteTodos : list Todo.t)
    (t : Task.t) (r : Todo.t) :
  store_ok w ->
  fetch_answer env conn w = inr remoteTodos ->
  In t (tasks w) ->
  Task.source t = JStr "notion" ->
  pushed conn t = true ->
  (forall u, In u (tasks w) -> Task.source u = JStr "notion" ->
             Task.source_id u = Task.source_id t -> u = t) ->
  last_item (Task.source_id t) remoteTodos = Some r ->
  exists t',
    idb_get (Task.id t) (tasks (exec (syncConnection env conn) w)) = Some t' /\
    mirrors r t'.
Proof.
  intros Hok Hfetch Hin Hsrc Hpush Huniq Hlast.
  unfold exec. rewrite syncConnection_run, Hfetch. cbn [snd].
  rewrite sync_world_tasks, remove_all_get, not_deleted.
  - unfold last_item in Hlast.
    destruct (pull_all_last env conn (build_lookup (local_tasks env w))
                (Task.source_id t) (Task.id t)) with
      (remoteTodos := remoteTodos) (w := fetch_world env conn w)
      (acc := @None Todo.t) (u := t) as (t' & G & M).
    + intros x e E. apply lookup_of_local_tasks in E.
      destruct E as (E1 & E2 & E3 & _). split.
      * intro F. assert (e = t) by now apply (store_ok_unique w). congruence.
      * intro F. assert (e = t) by (apply Huniq; congruence). congruence.
    + unfold pushed in Hpush. apply andb_true_iff in Hpush.
      destruct Hpush as (T & _).
      destruct (build_lookup_complete (local_tasks env w) t) as (e & E);
        [apply local_tasks_In; tauto|assumption|congruence].
    + now apply store_ok_get.
    + exact I.
    + rewrite Hlast in M. eauto.
  - intros local Hl Hid. apply local_tasks_In in Hl. destruct Hl as (Hl & _).
    assert (local = t) by now apply (store_ok_unique w). subst local.
    destruct (doomed conn (remote_ids remoteTodos) t) eqn:D; [|reflexivity].
    apply doomed_spec in D. destruct D as (_ & D).
    apply last_item_In in Hlast. destruct Hlast as (Hr & E).
    symmetry in E. now apply D in Hr.
Qed.

(** The convergence example of the design document: A has remote id "x"
    and is not completed, the remote item "x" is. *)
Lemma pull_remote_wins_unique_witness :
  exists t',
    idb_get 1 (tasks (exec (syncConnection (env_with [todo_x_done]) conn1)
                           (world_of [notion_task 1 "x" "A" 0 1] 2)))
    = Some t' /\
    mirrors todo_x_done t'.
Proof.
  assert (H1 : store_ok (world_of [notion_task 1 "x" "A" 0 1] 2))
    by (unfold store_ok; simpl; split; repeat constructor).
  assert (H2 : fetch_answer (env_with [todo_x_done]) conn1
                 (world_of [notion_task 1 "x" "A" 0 1] 2)
               = inr [todo_x_done]) by reflexivity.
  assert (H3 : In (notion_task 1 "x" "A" 0 1)
                 (tasks (world_of [notion_task 1 "x" "A" 0 1] 2)))
    by (simpl; now left).
  assert (H4 : Task.source (notion_task 1 "x" "A" 0 1) = JStr "notion")
    by reflexivity.
  assert (H5 : pushed conn1 (notion_task 1 "x" "A" 0 1) = true)
    by reflexivity.
  assert (H6 : forall u,
             In u (tasks (world_of [notion_task 1 "x" "A" 0 1] 2)) ->
             Task.source u = JStr "notion" ->
             Task.source_id u = Task.source_id (notion_task 1 "x" "A" 0 1) ->
             u = notion_task 1 "x" "A" 0 1)
    by (simpl; intros u [<-|[]] _ _; reflexivity).
  assert (H7 : last_item (Task.source_id (notion_task 1 "x" "A" 0 1))
                 [todo_x_done] = Some todo_x_done) by reflexivity.
  exact (pull_remote_wins_unique _ _ _ _ _ _ H1 H2 H3 H4 H5 H6 H7).
Defined.

(** Two stored tasks of the same connection carry the identifier "x";
    the lookup holds the second one, and the first keeps its old title
    and stays not completed although the remote item is completed. *)
Lemma pull_skips_shadowed_task :
  store_ok (world_of [notion_task 1 "x" "Old" 0 1;
                      notion_task 2 "x" "Old" 0 1] 3) /\
  fetch_answer (env_with [todo_x_done]) conn1
    (world_of [notion_task 1 "x" "Old" 0 1; notion_task 2 "x" "Old" 0 1] 3)
  = inr [todo_x_done] /\
  pushed conn1 (notion_task 1 "x" "Old" 0 1) = true /\
  Task.source_id (notion_task 1 "x" "Old" 0 1)
  = JStr (Todo.source_id todo_x_done) /\
  idb_get 1
    (tasks (exec (syncConnection (env_with [todo_x_done]) conn1)
                 (world_of [notion_task 1 "x" "Old" 0 1;
                            notion_task 2 "x" "Old" 0 1] 3)))
  = Some (notion_task 1 "x" "Old" 0 1) /\
  ~ mirrors todo_x_done (notion_task 1 "x" "Old" 0 1).
Proof.
  split; [unfold store_ok; simpl; split; repeat constructor|].
  repeat (split; [reflexivity|]).
  intros (H & _). discriminate H.
Qed.

(** ** The lookup is not restricted to the connection *)

(** C2 fails on the code.  The only stored task belongs to connection 2
    and carries the identifier "x"; a run for connection 1 that fetches
    the item "x" finds that task in its lookup, overwrites its pulled
    fields and creates nothing, so that connection 1 has no task for the
    item at the end of the run. *)
Theorem sync_matches_other_connection :
  tasks (exec (syncConnection (env_with [todo_x_done]) conn1)
              (world_of [notion_task 1 "x" "Old" 0 2] 2))
  = [ Task.mk 1 (JStr "Write report") (JStr "Page") 1 JNull (JStr "notion")
        (JStr "x") (JStr "https://notion.so/p#x") (JNum 2)
        "2024-04-30 12:00:00" "2024-05-01 10:00:00" ] /\
  pushed conn1 (notion_task 1 "x" "Old" 0 2) = false.
Proof. split; reflexivity. Qed.

(** ** The invariant of the task records *)

(** *** Actions that keep a property of the world *)

Lemma keeps_ret {A} (P : World -> Prop) (a : A) : keeps P (ret a).
Proof. intros w H. exact H. Qed.

Lemma keeps_bind_res {A B} (P : World -> Prop) (Q : A -> Prop)
    (m : M A) (k : A -> M B) :
  (forall w, P w ->
     P (exec m w) /\ forall a, outcome m w = Ok a -> Q a) ->
  (forall a, Q a -> keeps P (k a)) ->
  keeps P (bind m k).
Proof.
  intros Hm Hk w Hw. destruct (Hm w Hw) as (H1 & H2).
  unfold exec, outcome, bind in *. destruct (m w) as [[a|e] w']; simpl in *.
  - apply (Hk a); auto.
  - exact H1.
Qed.

Lemma keeps_bind {A B} (P : World -> Prop) (m : M A) (k : A -> M B) :
  keeps P m -> (forall a, keeps P (k a)) -> keeps P (bind m k).
Proof.
  intros Hm Hk. apply (keeps_bind_res P (fun _ => True)); auto.
Qed.

Lemma keeps_try_catch {A} (P : World -> Prop) (m : M A) (h : string -> M A) :
  keeps P m -> (forall e, keeps P (h e)) -> keeps P (try_catch m h).
Proof.
  intros Hm Hh w Hw. specialize (Hm w Hw).
  unfold exec, try_catch in *. destruct (m w) as [[a|e] w']; simpl in *.
  - exact Hm.
  - apply (Hh e). exact Hm.
Qed.

Lemma keeps_forM {A} (P : World -> Prop) (l : list A) (f : A -> M unit) :
  (forall x, In x l -> keeps P (f x)) -> keeps P (forM_ l f).
Proof.
  induction l as [|x l IH]; intro H; cbn [forM_].
  - apply keeps_ret.
  - apply keeps_bind; [apply H; now left|].
    intros _. apply IH. intros y Hy. apply H. now right.
Qed.

(** *** The primitives keep the invariant *)

Lemma task_inv_same (t u : Task.t) :
  Task.source u = Task.source t ->
  Task.source_id u = Task.source_id t ->
  Task.connection_id u = Task.connection_id t ->
  task_inv t -> task_inv u.
Proof. unfold task_inv. intros -> -> ->. tauto. Qed.

Lemma dbUpdateTask_keeps (env : Env) (id : Z) (fields : JsObj) :
  keeps world_inv (dbUpdateTask env id fields).
Proof.
  intros w (Ht & Hc). unfold exec. rewrite dbUpdateTask_run.
  destruct (idb_get id (tasks w)) as [t|] eqn:G; [|now split].
  split; [|exact Hc]. cbn [snd tasks].
  rewrite Forall_forall in *. intros u Hu. apply idb_put_In in Hu.
  destruct Hu as [->|Hu]; [|now apply Ht].
  destruct (assign_allowed_frame fields t) as (_ & F2 & F3 & F4 & _).
  apply (task_inv_same t); try assumption.
  apply Ht. exact (idb_get_In _ _ _ G).
Qed.

Lemma dbDeleteTask_keeps (id : Z) : keeps world_inv (dbDeleteTask id).
Proof.
  intros w (Ht & Hc). unfold exec, dbDeleteTask, bind, tasks_get.
  destruct (idb_get id (tasks w)); [|now split].
  split; [|exact Hc]. cbn. rewrite Forall_forall in *. intros u Hu.
  apply filter_In in Hu. apply Ht. tauto.
Qed.

Lemma dbCreateTask_keeps (env : Env) (data : JsObj) :
  data_ok data -> keeps world_inv (dbCreateTask env data).
Proof.
  intros Hd w (Ht & Hc). split; [|exact Hc].
  unfold exec, dbCreateTask, bind, localNow, tasks_add. cbn [snd tasks].
  apply Forall_app. split; [exact Ht|]. constructor; [|constructor].
  exact Hd.
Qed.

Lemma pushTaskToNotion_keeps (env : Env) (task : Task.t) (updates : JsObj) :
  keeps world_inv (pushTaskToNotion env task updates).
Proof.
  intros w (Ht & Hc & Hk).
  destruct (pushTaskToNotion_run env task updates w)
    as (w' & E & (E1 & E2 & _) & _ & E4).
  unfold exec. rewrite E. cbn [snd]. unfold world_inv.
  now rewrite E1, E2, E4.
Qed.

Lemma console_write_keeps (line : LogLine) :
  keeps world_inv (console_write line).
Proof. intros w H. exact H. Qed.

Lemma conn_put_In (x c : Conn.t) (l : list Conn.t) :
  In c (conn_put x l) -> c = x \/ In c l.
Proof.
  induction l as [|y l IH]; simpl.
  - intros [H|[]]. now left.
  - destruct (Conn.id y =? Conn.id x); simpl.
    { intros [H|H]; [now left|right; now right]. }
    destruct (Conn.id x <? Conn.id y); simpl.
    { intros [H|H]; [now left|now right]. }
    intros [H|H]; [right; now left|].
    apply IH in H. destruct H; [now left|right; now right].
Qed.

Lemma conn_get_In (k : Z) (l : list Conn.t) (c : Conn.t) :
  conn_get k l = Some c -> In c l.
Proof. unfold conn_get. intro H. now apply find_some in H. Qed.

Lemma created_inv (conn : Conn.t) (todo : Todo.t) (now : string) (key : Z) :
  Conn.id conn <> 0 -> Todo.source_id todo <> "" ->
  task_inv (created conn todo now key).
Proof.
  intros Hc Hs. unfold task_inv, created, present, js_or.
  cbn [Task.source_id Task.connection_id Task.source truthy].
  apply String.eqb_neq in Hs. apply Z.eqb_neq in Hc. rewrite Hs, Hc.
  cbn [negb truthy]. rewrite Hs, Hc. cbn [negb].
  split; split; intro; congruence.
Qed.

Lemma syncConnection_keeps (env : Env) (conn : Conn.t) :
  remote_ok env -> Conn.id conn <> 0 ->
  keeps world_inv (syncConnection env conn).
Proof.
  intros Hr Hid w (Ht & Hc & Hk). unfold exec. rewrite syncConnection_run.
  unfold fetch_answer.
  destruct (query env _ _ _) as [message|remoteTodos] eqn:Q; cbn [snd].
  { split; [|split]; assumption. }
  apply Hr in Q. unfold sync_world.
  set (lookup := build_lookup _). set (ids := remote_ids _).
  set (W1 := pull_all env conn lookup remoteTodos (fetch_world env conn w)).
  set (W2 := remove_all conn ids (local_tasks env w) W1).
  destruct (pull_all_calls env conn lookup remoteTodos (fetch_world env conn w))
    as (_ & _ & P3 & P4).
  destruct (remove_all_calls conn ids (local_tasks env w) W1)
    as (_ & _ & R3 & R4 & _).
  fold W1 in P3, P4. fold W2 in R3, R4.
  assert (T1 : Forall task_inv (tasks W1)).
  { unfold W1, pull_all.
    apply (fold_left_keeps (fun w => Forall task_inv (tasks w)));
      [|exact Ht].
    intros todo w' Hin H. unfold pull_world.
    destruct (JsMap.get _ lookup) as [e|].
    - destruct (idb_get (Task.id e) (tasks w')) as [t|] eqn:G; [|exact H].
      cbn [tasks]. rewrite Forall_forall in *. intros u Hu.
      apply idb_put_In in Hu. destruct Hu as [->|Hu]; [|now apply H].
      apply (task_inv_same t); try reflexivity.
      apply H. exact (idb_get_In _ _ _ G).
    - cbn [tasks]. apply Forall_app. split; [exact H|].
      constructor; [|constructor]. apply created_inv; [assumption|].
      rewrite Forall_forall in Q. now apply Q. }
  repeat split.
  - cbn [stamp_world tasks]. rewrite Forall_forall in *. intros u Hu.
    apply T1. fold W1 in Hu. fold W2 in Hu.
    unfold W2 in Hu. now apply remove_all_subset in Hu.
  - unfold stamp_world. cbn [connections]. fold W1. fold W2.
    assert (C2 : connections W2 = connections w)
      by (rewrite R3, P3; reflexivity).
    rewrite C2.
    destruct (conn_get (Conn.id conn) (connections w)) as [c|] eqn:G;
      [|exact Hc].
    rewrite Forall_forall in *. intros c' Hc'. apply conn_put_In in Hc'.
    destruct Hc' as [->|Hc']; [|now apply Hc].
    cbn. apply Hc. exact (conn_get_In _ _ _ G).
  - unfold stamp_world. cbn [conn_key]. fold W1. fold W2.
    rewrite R4, P4. exact Hk.
Qed.

(** *** The handlers keep the invariant *)

Lemma taskForm_submit_keeps (env : Env) (title description due : string) :
  keeps world_inv (taskForm_submit env title description due).
Proof.
  unfold taskForm_submit. destruct (title =? "")%string; [apply keeps_ret|].
  apply keeps_bind; [|intros; apply keeps_ret].
  apply dbCreateTask_keeps. unfold data_ok, present.
  destruct (negb (description =? "")%string);
    destruct (negb (due =? "")%string); cbn;
    split; split; intro; congruence.
Qed.

Lemma toggleComplete_keeps (env : Env) (task : Task.t) :
  keeps world_inv (toggleComplete env task).
Proof.
  unfold toggleComplete. apply keeps_bind.
  - apply dbUpdateTask_keeps.
  - intros _. apply pushTaskToNotion_keeps.
Qed.

Lemma doDelete_keeps (id : Z) : keeps world_inv (doDelete id).
Proof.
  unfold doDelete. apply keeps_bind;
    [apply dbDeleteTask_keeps|intros; apply keeps_ret].
Qed.

Lemma editForm_submit_keeps (env : Env) (id : Z) (title : string)
    (description : option string) (due : string) :
  keeps world_inv (editForm_submit env id title description due).
Proof.
  unfold editForm_submit. apply keeps_bind.
  - intros w H. exact H.
  - intros existing.
    match goal with |- keeps _ (if ?c then _ else _) => destruct c end;
      [apply keeps_ret|].
    apply keeps_bind; [apply dbUpdateTask_keeps|]. intros _.
    destruct existing; [apply pushTaskToNotion_keeps|apply keeps_ret].
Qed.

Lemma btnNotionSave_click_keeps (env : Env) (name token dbId : string) :
  keeps world_inv (btnNotionSave_click env name token dbId).
Proof.
  intros w (Ht & Hc & Hk).
  unfold exec, btnNotionSave_click, dbCreateConnection, bind, localNow,
    connections_add, ret.
  cbn [snd fst]. unfold world_inv.
  cbn [tasks connections conn_key].
  split; [exact Ht|]. split; [|lia].
  apply Forall_app. split; [exact Hc|].
  constructor; [cbn; lia|constructor].
Qed.

Lemma btnConnDelete_click_keeps (env : Env) (conn : Conn.t) :
  keeps world_inv (btnConnDelete_click env conn).
Proof.
  unfold btnConnDelete_click. apply keeps_bind.
  { intros w H. exact H. }
  intros l. apply keeps_bind.
  { apply keeps_forM. intros t _.
    destruct (js_eqb _ _); [|apply keeps_ret].
    apply keeps_bind; [apply dbDeleteTask_keeps|intros; apply keeps_ret]. }
  intros _. apply keeps_bind; [|intros; apply keeps_ret].
  intros w (Ht & Hc & Hk).
  unfold exec, dbDeleteConnection, bind, connections_get.
  destruct (conn_get _ _); [|split; [|split]; assumption].
  cbn. split; [exact Ht|]. split; [|exact Hk].
  rewrite Forall_forall in *. intros c H. apply filter_In in H.
  apply Hc. tauto.
Qed.

Lemma btnSync_click_keeps (env : Env) (conn : Conn.t) :
  remote_ok env -> Conn.id conn <> 0 ->
  keeps world_inv (btnSync_click env conn).
Proof.
  intros Hr Hid. unfold btnSync_click. apply keeps_try_catch.
  - apply keeps_bind; [now apply syncConnection_keeps|].
    intros; apply keeps_ret.
  - intros; apply console_write_keeps.
Qed.

Lemma syncAllConnections_keeps (env : Env) :
  remote_ok env -> keeps world_inv (syncAllConnections env).
Proof.
  intro Hr. unfold syncAllConnections.
  apply (keeps_bind_res world_inv (Forall (fun c => Conn.id c <> 0))).
  - intros w H. split; [exact H|].
    intros l E. unfold outcome, dbGetAllConnections, connections_getAll in E.
    cbn in E. injection E as <-. apply H.
  - intros l Hl. apply keeps_forM. intros c Hc.
    rewrite Forall_forall in Hl. specialize (Hl c Hc).
    destruct (negb (truthy (Conn.enabled c)) || _); [apply keeps_ret|].
    apply keeps_try_catch.
    + apply keeps_bind; [now apply syncConnection_keeps|].
      intros; apply console_write_keeps.
    + intros; apply console_write_keeps.
Qed.

Lemma reachable_inv (env : Env) (w : World) :
  remote_ok env -> reachable env w -> world_inv w.
Proof.
  intros Hr H. induction H.
  - split; [constructor|]. split; [constructor|cbn; lia].
  - now apply taskForm_submit_keeps.
  - now apply toggleComplete_keeps.
  - now apply doDelete_keeps.
  - now apply editForm_submit_keeps.
  - now apply btnNotionSave_click_keeps.
  - now apply btnConnDelete_click_keeps.
  - apply btnSync_click_keeps; try assumption.
    destruct IHreachable as (_ & Hc & _).
    rewrite Forall_forall in Hc. now apply Hc.
  - now apply syncAllConnections_keeps.
Qed.

(** C9.  As long as every item the Notion API returns has an identifier,
    every task record in the store of every world the program can reach
    satisfies the invariant: [source_id] and [connection_id] are both
    present or both absent, and [source_id] is present exactly when
    [source] is not ['local'].  Creation from the form, creation and
    update by [syncConnection], the completion toggle and the edit form
    are the steps that write task records. *)
Theorem task_invariant_reachable (env : Env) (w : World) :
  remote_ok env -> reachable env w -> Forall task_inv (tasks w).
Proof.
  intros Hr H. exact (proj1 (reachable_inv env w Hr H)).
Qed.

Lemma remote_ok_env_with (remoteTodos : list Todo.t) :
  Forall (fun x => Todo.source_id x <> "") remoteTodos ->
  remote_ok (env_with remoteTodos).
Proof.
  intros H history token databaseId l E. cbn in E. now injection E as <-.
Qed.

Lemma task_invariant_reachable_witness :
  Forall task_inv
    (tasks
       (exec (btnSync_click (env_with [todo_x_done]) conn_saved)
          (exec (btnNotionSave_click (env_with [todo_x_done])
                   "Work" "secret" "db-1")
             (exec (taskForm_submit (env_with [todo_x_done])
                      "Buy milk" "" "")
                (initial_world))))).
Proof.
  assert (H1 : remote_ok (env_with [todo_x_done])).
  { apply remote_ok_env_with. constructor; [discriminate|constructor]. }
  assert (H2 : In conn_saved
                 (connections
                    (exec (btnNotionSave_click (env_with [todo_x_done])
                             "Work" "secret" "db-1")
                       (exec (taskForm_submit (env_with [todo_x_done])
                                "Buy milk" "" "")
                          (initial_world)))))
    by (cbn; now left).
  exact (task_invariant_reachable _ _ H1
           (reach_btnSync_click _ _ _
              (reach_btnNotionSave_click _ _ _ _ _
                 (reach_taskForm_submit _ _ _ _ _ (reach_initial _)))
              H2)).
Defined.

(** ** Two runs in succession *)

Section Idempotence.

Variable env : Env.
Variable conn : Conn.t.

Lemma pull_all_origin (lookup : JsMap.t Task.t) (remoteTodos : list Todo.t)
    (w0 : World) (u : Task.t) :
  In u (tasks (pull_all env conn lookup remoteTodos w0)) ->
  origin w0 remoteTodos u.
Proof.
  revert u.
  assert (H : task_key w0 <=
              task_key (pull_all env conn lookup remoteTodos w0) /\
              forall u,
                In u (tasks (pull_all env conn lookup remoteTodos w0)) ->
                origin w0 remoteTodos u); [|apply H].
  unfold pull_all.
  apply (fold_left_keeps
           (fun w => task_key w0 <= task_key w /\
                     forall u, In u (tasks w) -> origin w0 remoteTodos u)).
  - intros x w Hx (Hk & Ho). split.
    { pose proof (pull_world_key env conn lookup x w). lia. }
    intros u Hu. unfold pull_world in Hu.
    destruct (JsMap.get _ lookup) as [e|].
    + destruct (idb_get (Task.id e) (tasks w)) as [t|] eqn:G; [|now apply Ho].
      cbn [tasks] in Hu. apply idb_put_In in Hu.
      destruct Hu as [->|Hu]; [|now apply Ho].
      specialize (Ho t (idb_get_In _ _ _ G)). unfold origin in *.
      cbn [pulled Task.id Task.source Task.source_id Task.connection_id].
      exact Ho.
    + cbn [tasks] in Hu. apply in_app_iff in Hu.
      destruct Hu as [Hu|[<-|[]]]; [now apply Ho|].
      right. cbn [created Task.id Task.source Task.source_id].
      split; [lia|]. split; [reflexivity|]. eauto.
  - split; [lia|]. intros u Hu. left. exists u. tauto.
Qed.

Lemma pushed_same (t u : Task.t) :
  Task.source_id t = Task.source_id u ->
  Task.connection_id t = Task.connection_id u ->
  pushed conn t = pushed conn u.
Proof. unfold pushed. now intros -> ->. Qed.

Lemma js_or_sid (s : string) : s <> "" -> js_or (JStr s) JNull = JStr s.
Proof.
  intro H. unfold js_or. cbn. apply String.eqb_neq in H. now rewrite H.
Qed.

(** After a run that received the remote items, every Notion task of the
    connection that is in the store carries the identifier of one of
    them. *)
Lemma after_sync_fetched (w : World) (remoteTodos : list Todo.t)
    (u : Task.t) :
  Forall (fun x => Todo.source_id x <> "") remoteTodos ->
  In u (tasks (sync_world env conn remoteTodos w)) ->
  Task.source u = JStr "notion" ->
  pushed conn u = true ->
  exists x, In x remoteTodos /\ Task.source_id u = JStr (Todo.source_id x).
Proof.
  intros Hne Hu Hs Hp. rewrite sync_world_tasks in Hu.
  pose proof (remove_all_subset _ _ _ _ _ Hu) as Hu1.
  apply pull_all_origin in Hu1.
  destruct Hu1 as [(u0 & H0 & Hid & Hsrc & Hsid & Hcid)|(_ & _ & x & Hx & E)].
  - destruct (JsSet.has (Task.source_id u) (remote_ids remoteTodos)) eqn:Hh.
    { now apply remote_ids_has in Hh. }
    exfalso.
    assert (N : idb_get (Task.id u)
                  (tasks (remove_all conn (remote_ids remoteTodos)
                            (local_tasks env w)
                            (pull_all env conn
                               (build_lookup (local_tasks env w))
                               remoteTodos (fetch_world env conn w))))
                = None).
    { rewrite remove_all_get.
      replace (existsb _ _) with true; [reflexivity|].
      symmetry. apply existsb_exists. exists u0. split.
      - apply local_tasks_In. split; [assumption|congruence].
      - rewrite Hid, Z.eqb_refl, andb_true_r. unfold doomed.
        fold (pushed conn u0). rewrite (pushed_same u0 u Hsid Hcid), Hp.
        rewrite Hsid, Hh. reflexivity. }
    apply idb_get_None in N. apply N. now apply in_map.
  - exists x. split; [assumption|]. rewrite E. apply js_or_sid.
    rewrite Forall_forall in Hne. now apply Hne.
Qed.

(** *** Every remote item has its task after a run *)

Lemma pull_world_covered (lookup : JsMap.t Task.t) (todo : Todo.t)
    (i : Z) (sid : JsVal) (w : World) :
  covered i sid w -> covered i sid (pull_world env conn lookup todo w).
Proof.
  intros (u & Hu & Hs & Hi). unfold covered. rewrite pull_world_get.
  destruct (JsMap.get _ lookup) as [e|].
  - destruct (idb_get (Task.id e) (tasks w)) as [t|] eqn:G; [|eauto].
    destruct (Z.eqb_spec (Task.id e) i) as [E|E]; [|eauto].
    rewrite E, Hu in G. injection G as <-.
    eexists. split; [reflexivity|]. cbn [pulled Task.source Task.source_id].
    tauto.
  - rewrite Hu. eauto.
Qed.

Lemma pull_all_covered (lookup : JsMap.t Task.t) (remoteTodos : list Todo.t)
    (i : Z) (sid : JsVal) (w : World) :
  covered i sid w -> covered i sid (pull_all env conn lookup remoteTodos w).
Proof.
  unfold pull_all. apply (fold_left_keeps (covered i sid)).
  intros todo w' _. apply pull_world_covered.
Qed.

Lemma store_ok_fresh (w : World) :
  store_ok w -> idb_get (task_key w) (tasks w) = None.
Proof.
  intros (_ & F). apply idb_get_None. intro H.
  rewrite Forall_forall in F. apply F in H. lia.
Qed.

Lemma pull_all_creates (lookup : JsMap.t Task.t) (remoteTodos : list Todo.t)
    (x : Todo.t) (w : World) :
  store_ok w -> In x remoteTodos -> Todo.source_id x <> "" ->
  JsMap.get (JStr (Todo.source_id x)) lookup = None ->
  exists i,
    covered i (JStr (Todo.source_id x))
            (pull_all env conn lookup remoteTodos w).
Proof.
  intros Hok Hx Hne Hget. revert w Hok.
  induction remoteTodos as [|y l IH]; intros w Hok; [contradiction|].
  unfold pull_all. cbn [fold_left]. fold (pull_all env conn lookup l).
  destruct Hx as [->|Hx].
  - exists (task_key w). apply pull_all_covered. unfold covered.
    rewrite pull_world_get, Hget, (store_ok_fresh w Hok), Z.eqb_refl.
    eexists. split; [reflexivity|].
    cbn [created Task.source Task.source_id].
    split; [reflexivity|now apply js_or_sid].
  - apply IH; [assumption|]. now apply pull_world_ok.
Qed.

Lemma sync_world_covers (w : World) (remoteTodos : list Todo.t) (x : Todo.t) :
  store_ok w ->
  In x remoteTodos -> Todo.source_id x <> "" ->
  exists u,
    In u (tasks (sync_world env conn remoteTodos w)) /\
    Task.source u = JStr "notion" /\
    Task.source_id u = JStr (Todo.source_id x).
Proof.
  intros Hok Hx Hne.
  set (lookup := build_lookup (local_tasks env w)).
  set (W1 := pull_all env conn lookup remoteTodos (fetch_world env conn w)).
  assert (Hok' : store_ok (fetch_world env conn w)) by exact Hok.
  assert (C : exists i, covered i (JStr (Todo.source_id x)) W1).
  { destruct (JsMap.get (JStr (Todo.source_id x)) lookup) as [e|] eqn:G.
    - apply lookup_of_local_tasks in G. destruct G as (G1 & G2 & G3 & _).
      exists (Task.id e). apply pull_all_covered. exists e.
      split; [|tauto]. now apply (store_ok_get w).
    - now apply pull_all_creates. }
  destruct C as (i & u & Gu & Hs & Hi).
  exists u. split; [|tauto]. rewrite sync_world_tasks. fold lookup. fold W1.
  apply (idb_get_In i). rewrite remove_all_get, not_deleted; [exact Gu|].
  intros local Hl Hid. apply local_tasks_In in Hl. destruct Hl as (Hl & _).
  pose proof (idb_get_id _ _ _ Gu) as Hiu.
  pose proof (pull_all_origin lookup remoteTodos (fetch_world env conn w) u
                (idb_get_In _ _ _ Gu)) as O.
  destruct O as [(u0 & H0 & E1 & _ & E3 & _)|(K & _)].
  - assert (local = u0)
      by (apply (store_ok_unique w); try assumption; congruence).
    subst u0. unfold doomed.
    replace (JsSet.has (Task.source_id local) (remote_ids remoteTodos))
      with true; [now rewrite andb_false_r|].
    symmetry. apply remote_ids_has. exists x. split; [assumption|congruence].
  - exfalso. destruct Hok as (_ & F). rewrite Forall_forall in F.
    assert (Task.id local < task_key w) by (apply F; now apply in_map).
    change (task_key (fetch_world env conn w)) with (task_key w) in K. lia.
Qed.

(** *** A run in which every item is found changes no key *)

Lemma pull_all_same_ids (lookup : JsMap.t Task.t)
    (remoteTodos : list Todo.t) (w : World) :
  StronglySorted Z.lt (map Task.id (tasks w)) ->
  (forall x, In x remoteTodos ->
             JsMap.get (JStr (Todo.source_id x)) lookup <> None) ->
  map Task.id (tasks (pull_all env conn lookup remoteTodos w))
  = map Task.id (tasks w) /\
  task_key (pull_all env conn lookup remoteTodos w) = task_key w.
Proof.
  intros S Hfound. unfold pull_all.
  apply (fold_left_keeps
           (fun w' => map Task.id (tasks w') = map Task.id (tasks w) /\
                      task_key w' = task_key w)); [|tauto].
  intros x w' Hx (E1 & E2). specialize (Hfound x Hx). unfold pull_world.
  destruct (JsMap.get _ lookup) as [e|]; [|congruence].
  destruct (idb_get (Task.id e) (tasks w')) as [t|] eqn:G; [|tauto].
  cbn [tasks task_key]. split; [|assumption].
  rewrite idb_put_ids; [assumption|now rewrite E1|].
  cbn [pulled Task.id]. apply in_map. exact (idb_get_In _ _ _ G).
Qed.

Lemma remove_all_none (ids : JsSet.t) (l : list Task.t) (w : World) :
  (forall local, In local l -> doomed conn ids local = false) ->
  remove_all conn ids l w = w.
Proof.
  unfold remove_all. revert w.
  induction l as [|local l IH]; intros w H; cbn [fold_left]; [reflexivity|].
  unfold remove_world at 2. rewrite (H local) by now left.
  apply IH. intros y Hy. apply H. now right.
Qed.

(** Let a run of [syncConnection] receive the remote items, each with
    an identifier, and let a second run for the same connection follow
    at once and receive the same list.  Then in the second run every
    remote item is found in the lookup, under a task that is in the
    store; the store has the same keys in the same order after the
    second run as after the first; and the key generator has not
    moved. *)
Lemma sync_twice_same_keys (w : World) (remoteTodos : list Todo.t) :
  store_ok w ->
  Forall (fun x => Todo.source_id x <> "") remoteTodos ->
  fetch_answer env conn w = inr remoteTodos ->
  fetch_answer env conn (exec (syncConnection env conn) w)
  = inr remoteTodos ->
  (forall x, In x remoteTodos ->
     exists e,
       JsMap.get (JStr (Todo.source_id x))
         (build_lookup (local_tasks env (exec (syncConnection env conn) w)))
       = Some e /\
       In e (tasks (exec (syncConnection env conn) w))) /\
  map Task.id
    (tasks (exec (syncConnection env conn)
                 (exec (syncConnection env conn) w)))
  = map Task.id (tasks (exec (syncConnection env conn) w)) /\
  task_key (exec (syncConnection env conn)
                 (exec (syncConnection env conn) w))
  = task_key (exec (syncConnection env conn) w) /\
  (forall u,
     In u (tasks (exec (syncConnection env conn)
                       (exec (syncConnection env conn) w))) ->
     exists u0,
       In u0 (tasks (exec (syncConnection env conn) w)) /\
       Task.id u0 = Task.id u /\
       Task.source u0 = Task.source u /\
       Task.source_id u0 = Task.source_id u /\
       Task.connection_id u0 = Task.connection_id u).
Proof.
  intros Hok Hne F1 F2.
  assert (E1 : exec (syncConnection env conn) w
               = sync_world env conn remoteTodos w).
  { unfold exec. now rewrite syncConnection_run, F1. }
  rewrite E1 in *. set (w1 := sync_world env conn remoteTodos w) in *.
  assert (Hok1 : store_ok w1) by now apply sync_world_ok.
  assert (E2 : exec (syncConnection env conn) w1
               = sync_world env conn remoteTodos w1).
  { unfold exec. now rewrite syncConnection_run, F2. }
  rewrite E2.
  assert (Hfound : forall x, In x remoteTodos ->
            exists e,
              JsMap.get (JStr (Todo.source_id x))
                        (build_lookup (local_tasks env w1)) = Some e /\
              In e (tasks w1)).
  { intros x Hx. rewrite Forall_forall in Hne.
    destruct (sync_world_covers w remoteTodos x Hok Hx (Hne x Hx))
      as (u & Hu & Hs & Hi).
    destruct (build_lookup_complete (local_tasks env w1) u) as (e & G).
    - apply local_tasks_In. tauto.
    - rewrite Hi. apply truthy_JStr. now apply Hne.
    - rewrite Hi in G. exists e. split; [exact G|].
      now apply lookup_of_local_tasks in G. }
  split; [exact Hfound|].
  assert (R : remove_all conn (remote_ids remoteTodos) (local_tasks env w1)
                (pull_all env conn (build_lookup (local_tasks env w1))
                   remoteTodos (fetch_world env conn w1))
              = pull_all env conn (build_lookup (local_tasks env w1))
                  remoteTodos (fetch_world env conn w1)).
  { apply remove_all_none. intros local Hl.
    apply local_tasks_In in Hl. destruct Hl as (Hl & Hs).
    unfold doomed. fold (pushed conn local).
    destruct (pushed conn local) eqn:Hp; [|reflexivity].
    destruct (after_sync_fetched w remoteTodos local Hne Hl Hs Hp)
      as (x & Hx & E).
    replace (JsSet.has (Task.source_id local) (remote_ids remoteTodos))
      with true; [reflexivity|].
    symmetry. apply remote_ids_has. eauto. }
  destruct (pull_all_same_ids (build_lookup (local_tasks env w1)) remoteTodos
              (fetch_world env conn w1)) as (I1 & I2).
  { exact (proj1 Hok1). }
  { intros x Hx. destruct (Hfound x Hx) as (e & G & _). congruence. }
  change (map Task.id (tasks (fetch_world env conn w1)))
    with (map Task.id (tasks w1)) in I1.
  change (task_key (fetch_world env conn w1)) with (task_key w1) in I2.
  unfold sync_world, stamp_world. cbn [tasks task_key].
  rewrite R. split; [exact I1|]. split; [exact I2|].
  intros u Hu.
  pose proof (pull_all_origin _ _ _ _ Hu) as [O|(K & _)]; [exact O|].
  exfalso. destruct Hok1 as (_ & F). rewrite Forall_forall in F.
  assert (Task.id u < task_key w1).
  { apply F. rewrite <- I1. now apply in_map. }
  change (task_key (fetch_world env conn w1)) with (task_key w1) in K. lia.
Qed.

End Idempotence.

(** *** The pulled fields after a run *)

Lemma pull_world_pulled_so_far (env : Env) (conn : Conn.t) (w0 : World)
    (done : list Todo.t) (x : Todo.t) (w : World) :
  store_ok w0 -> distinct_source_ids w0 ->
  (forall y, In y done -> Todo.source_id y <> Todo.source_id x) ->
  Todo.source_id x <> "" -> Todo.source_url x <> "" ->
  pulled_so_far w0 done w ->
  pulled_so_far w0 (done ++ [x])
    (pull_world env conn (build_lookup (local_tasks env w0)) x w).
Proof.
  intros Hok0 Hd Hnew Hid Hurl (Hok & Hk & Hd' & He).
  set (L := build_lookup (local_tasks env w0)).
  assert (Hin : forall y, In y done -> In y (done ++ [x]))
    by (intros y Hy; apply in_or_app; now left).
  assert (Hlast : In x (done ++ [x]))
    by (apply in_or_app; right; now left).
  (* a Notion record that carries the identifier of [x] before the turn
     is the record of the lookup *)
  assert (Hx : forall j u,
             idb_get j (tasks w) = Some u ->
             Task.source u = JStr "notion" ->
             Task.source_id u = JStr (Todo.source_id x) ->
             exists e, JsMap.get (JStr (Todo.source_id x)) L = Some e /\
                       Task.id e = j).
  { intros j u G S I.
    destruct (Hd' j u G) as [(u0 & G0 & S0 & I0)|(_ & _ & y & Hy & Iy)].
    - assert (In0 : In u0 (tasks w0)) by exact (idb_get_In _ _ _ G0).
      assert (T0 : truthy (Task.source_id u0) = true)
        by (rewrite I0, I; now apply truthy_JStr).
      destruct (build_lookup_complete (local_tasks env w0) u0) as (e & E);
        [apply local_tasks_In; split; [exact In0|congruence]|exact T0|].
      rewrite I0, I in E. exists e. split; [exact E|].
      apply lookup_of_local_tasks in E. destruct E as (E1 & E2 & E3 & _).
      assert (e = u0).
      { apply Hd; try assumption; congruence. }
      subst e. exact (idb_get_id _ _ _ G0).
    - exfalso. apply (Hnew y Hy). congruence. }
  (* the record under the key of the lookup entry carries the identifier
     of [x] *)
  assert (Hfound : forall e t,
             JsMap.get (JStr (Todo.source_id x)) L = Some e ->
             idb_get (Task.id e) (tasks w) = Some t ->
             Task.source_id t = JStr (Todo.source_id x)).
  { intros e t E G. apply lookup_of_local_tasks in E.
    destruct E as (E1 & E2 & E3 & _).
    pose proof (store_ok_get w0 e Hok0 E1) as Ge.
    destruct (Hd' _ _ G) as [(u0 & G0 & S0 & I0)|(Hge & _)].
    - congruence.
    - exfalso. destruct Hok0 as (_ & F). rewrite Forall_forall in F.
      assert (Task.id e < task_key w0) by (apply F; now apply in_map).
      lia. }
  split; [now apply pull_world_ok|].
  split; [pose proof (pull_world_key env conn L x w); lia|].
  split.
  - intros j u G. rewrite pull_world_get in G. fold L in G.
    assert (Hold : forall u', idb_get j (tasks w) = Some u' ->
              (exists u0, idb_get j (tasks w0) = Some u0 /\
                          Task.source u0 = Task.source u' /\
                          Task.source_id u0 = Task.source_id u') \/
              (task_key w0 <= j /\ Task.source u' = JStr "notion" /\
               exists y, In y (done ++ [x]) /\
                         Task.source_id u' = JStr (Todo.source_id y))).
    { intros u' G'.
      destruct (Hd' j u' G') as [H|(H1 & H2 & y & Hy & Iy)];
        [now left|right; eauto 6]. }
    destruct (JsMap.get (JStr (Todo.source_id x)) L) as [e|] eqn:EL.
    + destruct (idb_get (Task.id e) (tasks w)) as [t|] eqn:Gt;
        [|now apply Hold].
      destruct (Z.eqb_spec (Task.id e) j) as [Ej|Nj]; [|now apply Hold].
      injection G as <-. rewrite Ej in Gt.
      destruct (Hold t Gt) as [(u0 & G0 & S0 & I0)|(H1 & H2 & y & Hy & Iy)].
      * left. exists u0. cbn [pulled Task.source Task.source_id]. auto.
      * right. cbn [pulled Task.source Task.source_id]. eauto 6.
    + destruct (idb_get j (tasks w)) as [t|] eqn:Gt.
      * injection G as <-. now apply Hold.
      * destruct (Z.eqb_spec (task_key w) j) as [Ej|Nj]; [|discriminate].
        injection G as <-. right. split; [lia|].
        cbn [created Task.source Task.source_id]. split; [reflexivity|].
        exists x. split; [exact Hlast|now apply js_or_sid].
  - intros y j u Hy G S I. rewrite pull_world_get in G. fold L in G.
    apply in_app_or in Hy.
    destruct Hy as [Hy|[<-|[]]].
    + (* an item pulled before *)
      destruct (JsMap.get (JStr (Todo.source_id x)) L) as [e|] eqn:EL.
      * destruct (idb_get (Task.id e) (tasks w)) as [t|] eqn:Gt;
          [|now apply (He y j u)].
        destruct (Z.eqb_spec (Task.id e) j) as [Ej|Nj];
          [|now apply (He y j u)].
        injection G as <-. exfalso.
        cbn [pulled Task.source_id] in I.
        pose proof (Hfound e t eq_refl Gt) as F.
        apply (Hnew y Hy). congruence.
      * destruct (idb_get j (tasks w)) as [t|] eqn:Gt.
        -- injection G as <-. now apply (He y j t).
        -- destruct (Z.eqb_spec (task_key w) j) as [Ej|Nj]; [|discriminate].
           injection G as <-. exfalso.
           cbn [created Task.source_id] in I.
           rewrite (js_or_sid _ Hid) in I.
           apply (Hnew y Hy). congruence.
    + (* the item of this turn *)
      destruct (JsMap.get (JStr (Todo.source_id x)) L) as [e|] eqn:EL.
      * destruct (idb_get (Task.id e) (tasks w)) as [t|] eqn:Gt.
        -- destruct (Z.eqb_spec (Task.id e) j) as [Ej|Nj].
           ++ injection G as <-. unfold mirrors, pulled. cbn. tauto.
           ++ exfalso. destruct (Hx j u G S I) as (e' & E' & Ee').
              congruence.
        -- exfalso. destruct (Hx j u G S I) as (e' & E' & Ee').
           assert (e' = e) by congruence. subst e'. congruence.
      * destruct (idb_get j (tasks w)) as [t|] eqn:Gt.
        -- injection G as <-. exfalso.
           destruct (Hx j t Gt S I) as (e' & E' & _). discriminate E'.
        -- destruct (Z.eqb_spec (task_key w) j) as [Ej|Nj]; [|discriminate].
           injection G as <-. unfold mirrors, created. cbn.
           rewrite (js_or_sid _ Hurl). tauto.
Qed.

Lemma pull_all_pulled_so_far (env : Env) (conn : Conn.t) (w0 : World)
    (rest : list Todo.t) :
  store_ok w0 -> distinct_source_ids w0 ->
  forall (done : list Todo.t) (w : World),
    NoDup (map Todo.source_id (done ++ rest)) ->
    Forall (fun x => Todo.source_id x <> "") rest ->
    Forall (fun x => Todo.source_url x <> "") rest ->
    pulled_so_far w0 done w ->
    pulled_so_far w0 (done ++ rest)
      (pull_all env conn (build_lookup (local_tasks env w0)) rest w).
Proof.
  intros Hok0 Hd. unfold pull_all.
  induction rest as [|x rest IH]; intros done w N Fi Fu H; cbn [fold_left].
  - now rewrite app_nil_r.
  - replace (done ++ x :: rest) with ((done ++ [x]) ++ rest) in *
      by (rewrite <- app_assoc; reflexivity).
    inversion Fi as [|? ? Hid Fi']; subst.
    inversion Fu as [|? ? Hurl Fu']; subst.
    apply IH; try assumption.
    apply pull_world_pulled_so_far; try assumption.
    intros y Hy E. rewrite <- app_assoc in N. cbn [app] in N.
    rewrite map_app in N. cbn [map] in N. apply NoDup_remove_2 in N.
    apply N. apply in_or_app. left. rewrite <- E. now apply in_map.
Qed.

Lemma first_run_mirrors (env : Env) (conn : Conn.t) (w : World)
    (remoteTodos : list Todo.t) (x : Todo.t) (u : Task.t) :
  store_ok w -> distinct_source_ids w ->
  NoDup (map Todo.source_id remoteTodos) ->
  Forall (fun x => Todo.source_id x <> "") remoteTodos ->
  Forall (fun x => Todo.source_url x <> "") remoteTodos ->
  In x remoteTodos ->
  In u (tasks (sync_world env conn remoteTodos w)) ->
  Task.source u = JStr "notion" ->
  Task.source_id u = JStr (Todo.source_id x) ->
  mirrors x u.
Proof.
  intros Hok Hd N Fi Fu Hx Hu S I.
  rewrite sync_world_tasks in Hu. apply remove_all_subset in Hu.
  destruct (pull_all_pulled_so_far env conn w remoteTodos Hok Hd []
              (fetch_world env conn w) N Fi Fu) as (Hok' & _ & _ & He).
  - split; [exact Hok|]. split; [cbn; lia|]. split.
    + intros j t G. left. exists t. auto.
    + intros y j t [].
  - apply (He x (Task.id u) u Hx); [|exact S|exact I].
    now apply store_ok_get.
Qed.

Lemma restamped_refl (remoteTodos : list Todo.t) (a : Task.t) :
  restamped remoteTodos a a.
Proof. split; [now destruct a|now left]. Qed.

Lemma pull_all_restamps (env : Env) (conn : Conn.t) (w1 : World)
    (remoteTodos : list Todo.t) (lookup : JsMap.t Task.t) :
  (forall x e, In x remoteTodos ->
     JsMap.get (JStr (Todo.source_id x)) lookup = Some e ->
     idb_get (Task.id e) (tasks w1) = Some e /\
     Task.source e = JStr "notion" /\
     Task.source_id e = JStr (Todo.source_id x) /\
     mirrors x e) ->
  (forall x, In x remoteTodos ->
     JsMap.get (JStr (Todo.source_id x)) lookup <> None) ->
  forall (rest : list Todo.t) (w : World),
    (forall x, In x rest -> In x remoteTodos) ->
    (forall j a b,
       idb_get j (tasks w1) = Some a -> idb_get j (tasks w) = Some b ->
       restamped remoteTodos a b) ->
    forall j a b,
      idb_get j (tasks w1) = Some a ->
      idb_get j (tasks (pull_all env conn lookup rest w)) = Some b ->
      restamped remoteTodos a b.
Proof.
  intros HL Hf. unfold pull_all.
  induction rest as [|x rest IH]; intros w Hin H; cbn [fold_left];
    [exact H|].
  apply IH; [intros y Hy; apply Hin; now right|].
  assert (Hx : In x remoteTodos) by (apply Hin; now left).
  intros j a b Ga Gb. rewrite pull_world_get in Gb.
  destruct (JsMap.get (JStr (Todo.source_id x)) lookup) as [e|] eqn:EL;
    [|now apply Hf in Hx].
  destruct (HL x e Hx EL) as (Ge & Se & Ie & (M1 & M2 & M3 & M4)).
  destruct (idb_get (Task.id e) (tasks w)) as [t|] eqn:Gt;
    [|now apply (H j)].
  destruct (Z.eqb_spec (Task.id e) j) as [Ej|Nj]; [|now apply (H j)].
  injection Gb as <-. rewrite <- Ej in Ga.
  assert (a = e) by congruence. subst a.
  destruct (H _ _ _ Ge Gt) as (Ht & _).
  split.
  - rewrite Ht. unfold pulled, Task.with_updated_at. cbn.
    rewrite M1, M2, M3, M4. reflexivity.
  - right. split; [exact Se|]. exists x. split; [exact Hx|exact Ie].
Qed.

Lemma Forall2_by_key (P : Task.t -> Task.t -> Prop) (l1 l2 : list Task.t) :
  StronglySorted Z.lt (map Task.id l1) ->
  map Task.id l2 = map Task.id l1 ->
  (forall j a b, idb_get j l1 = Some a -> idb_get j l2 = Some b -> P a b) ->
  Forall2 P l1 l2.
Proof.
  revert l2. induction l1 as [|a l1 IH]; intros [|b l2] S E H;
    try discriminate E; [constructor|].
  cbn [map] in *. injection E as Ei E.
  inversion S as [|? ? S' F]; subst.
  constructor.
  - apply (H (Task.id a)); unfold idb_get; cbn [find];
      [now rewrite Z.eqb_refl|rewrite Ei; now rewrite Z.eqb_refl].
  - apply IH; [exact S'|exact E|].
    intros j a' b' Ga Gb. apply (H j); unfold idb_get in *; cbn [find].
    + destruct (Z.eqb_spec (Task.id a) j) as [Ej|_]; [|exact Ga].
      exfalso. apply find_some in Ga. destruct Ga as (Ia & Ea).
      apply Z.eqb_eq in Ea. rewrite Forall_forall in F.
      assert (Task.id a < Task.id a'). { apply F. now apply in_map. }
      lia.
    + destruct (Z.eqb_spec (Task.id b) j) as [Ej|_]; [|exact Gb].
      exfalso. apply find_some in Ga. destruct Ga as (Ia & Ea).
      apply Z.eqb_eq in Ea. rewrite Forall_forall in F.
      assert (Task.id a < Task.id a'). { apply F. now apply in_map. }
      lia.
Qed.

(** C1, as the code has it.  Let no two stored Notion tasks carry the
    same identifier, and let a run of [syncConnection] receive remote
    items with distinct identifiers, each with an identifier and a deep
    link; let a second run for the same connection follow at once and
    receive the same list.  Then in the second run every remote item is
    found in the lookup, under a task that is in the store; the store
    after the second run is, record by record, the store after the
    first, except that [updated_at] is stamped again on Notion tasks
    that carry the identifier of a remote item; and the key generator
    has not moved.  So no task is created, none is deleted, and no field
    other than [updated_at] changes. *)
Theorem sync_twice_restamps_only
    (env : Env) (conn : Conn.t) (w : World) (remoteTodos : list Todo.t) :
  store_ok w ->
  distinct_source_ids w ->
  NoDup (map Todo.source_id remoteTodos) ->
  Forall (fun x => Todo.source_id x <> "") remoteTodos ->
  Forall (fun x => Todo.source_url x <> "") remoteTodos ->
  fetch_answer env conn w = inr remoteTodos ->
  fetch_answer env conn (exec (syncConnection env conn) w)
  = inr remoteTodos ->
  (forall x, In x remoteTodos ->
     exists e,
       JsMap.get (JStr (Todo.source_id x))
         (build_lookup (local_tasks env (exec (syncConnection env conn) w)))
       = Some e /\
       In e (tasks (exec (syncConnection env conn) w))) /\
  Forall2 (restamped remoteTodos)
    (tasks (exec (syncConnection env conn) w))
    (tasks (exec (syncConnection env conn)
                 (exec (syncConnection env conn) w))) /\
  task_key (exec (syncConnection env conn)
                 (exec (syncConnection env conn) w))
  = task_key (exec (syncConnection env conn) w).
Proof.
  intros Hok Hd N Fi Fu F1 F2.
  destruct (sync_twice_same_keys env conn w remoteTodos Hok Fi F1 F2)
    as (Hfound & Hids & Hkey & _).
  split; [exact Hfound|]. split; [|exact Hkey].
  assert (E1 : exec (syncConnection env conn) w
               = sync_world env conn remoteTodos w).
  { unfold exec. now rewrite syncConnection_run, F1. }
  rewrite E1 in *. set (w1 := sync_world env conn remoteTodos w) in *.
  assert (Hok1 : store_ok w1) by now apply sync_world_ok.
  apply Forall2_by_key; [exact (proj1 Hok1)|exact Hids|].
  assert (E2 : exec (syncConnection env conn) w1
               = sync_world env conn remoteTodos w1).
  { unfold exec. now rewrite syncConnection_run, F2. }
  rewrite E2, sync_world_tasks.
  intros j a b Ga Gb.
  assert (Gb' : idb_get j
                  (tasks (pull_all env conn
                            (build_lookup (local_tasks env w1)) remoteTodos
                            (fetch_world env conn w1))) = Some b).
  { rewrite remove_all_get in Gb.
    destruct (existsb _ (local_tasks env w1)); [discriminate|exact Gb]. }
  clear Gb. revert j a b Ga Gb'.
  apply (pull_all_restamps env conn w1 remoteTodos).
  - intros x e Hx EL. apply lookup_of_local_tasks in EL.
    destruct EL as (L1 & L2 & L3 & _).
    split; [now apply store_ok_get|]. split; [exact L2|].
    split; [exact L3|].
    now apply (first_run_mirrors env conn w remoteTodos x e).
  - intros x Hx. destruct (Hfound x Hx) as (e & EL & _). congruence.
  - auto.
  - intros j a b Ga Gb.
    change (tasks (fetch_world env conn w1)) with (tasks w1) in Gb.
    assert (b = a) by congruence. subst b. apply restamped_refl.
Qed.

(** A store with one task that is still on the remote side and one that
    is not, reconciled twice against the same list. *)
Lemma sync_twice_restamps_only_witness :
  Forall2 (restamped [todo_x_done])
    (tasks (exec (syncConnection (env_with [todo_x_done]) conn1)
              (world_of [notion_task 1 "x" "A" 0 1;
                         notion_task 2 "y" "B" 0 1] 3)))
    (tasks (exec (syncConnection (env_with [todo_x_done]) conn1)
              (exec (syncConnection (env_with [todo_x_done]) conn1)
                 (world_of [notion_task 1 "x" "A" 0 1;
                            notion_task 2 "y" "B" 0 1] 3)))).
Proof.
  assert (H1 : store_ok (world_of [notion_task 1 "x" "A" 0 1;
                                   notion_task 2 "y" "B" 0 1] 3))
    by (unfold store_ok; simpl; split; repeat constructor).
  assert (H2 : distinct_source_ids
                 (world_of [notion_task 1 "x" "A" 0 1;
                            notion_task 2 "y" "B" 0 1] 3)).
  { intros t u Ht Hu _ _ _ E. simpl in Ht, Hu.
    destruct Ht as [<-|[<-|[]]]; destruct Hu as [<-|[<-|[]]];
      try reflexivity; discriminate E. }
  assert (H3 : NoDup (map Todo.source_id [todo_x_done]))
    by (repeat constructor; intros []).
  assert (H4 : Forall (fun x => Todo.source_id x <> "") [todo_x_done])
    by (constructor; [discriminate|constructor]).
  assert (H5 : Forall (fun x => Todo.source_url x <> "") [todo_x_done])
    by (constructor; [discriminate|constructor]).
  assert (H6 : fetch_answer (env_with [todo_x_done]) conn1
                 (world_of [notion_task 1 "x" "A" 0 1;
                            notion_task 2 "y" "B" 0 1] 3)
               = inr [todo_x_done]) by reflexivity.
  assert (H7 : fetch_answer (env_with [todo_x_done]) conn1
                 (exec (syncConnection (env_with [todo_x_done]) conn1)
                    (world_of [notion_task 1 "x" "A" 0 1;
                               notion_task 2 "y" "B" 0 1] 3))
               = inr [todo_x_done]) by reflexivity.
  exact (proj1 (proj2 (sync_twice_restamps_only (env_with [todo_x_done])
                         conn1 _ _ H1 H2 H3 H4 H5 H6 H7))).
Defined.

(** The claim fails on the code.  Two stored tasks of the connection
    carry the identifier "x" and are completed; the remote item "x" is
    not.  The first run finds the second task in its lookup and rewrites
    it, which moves that task before the first one in the listing; the
    second run therefore finds the first task in its lookup and rewrites
    it in turn: the task set after the second run is not the one after
    the first, although both runs received the same list. *)
Lemma sync_twice_rewrites_shadowed_task :
  store_ok (world_of [notion_task 1 "x" "Old" 1 1;
                      notion_task 2 "x" "Old" 1 1] 3) /\
  fetch_answer (env_with [todo_x_open]) conn1
    (world_of [notion_task 1 "x" "Old" 1 1; notion_task 2 "x" "Old" 1 1] 3)
  = inr [todo_x_open] /\
  fetch_answer (env_with [todo_x_open]) conn1
    (exec (syncConnection (env_with [todo_x_open]) conn1)
       (world_of [notion_task 1 "x" "Old" 1 1;
                  notion_task 2 "x" "Old" 1 1] 3))
  = inr [todo_x_open] /\
  idb_get 1
    (tasks (exec (syncConnection (env_with [todo_x_open]) conn1)
              (world_of [notion_task 1 "x" "Old" 1 1;
                         notion_task 2 "x" "Old" 1 1] 3)))
  = Some (notion_task 1 "x" "Old" 1 1) /\
  idb_get 1
    (tasks (exec (syncConnection (env_with [todo_x_open]) conn1)
              (exec (syncConnection (env_with [todo_x_open]) conn1)
                 (world_of [notion_task 1 "x" "Old" 1 1;
                            notion_task 2 "x" "Old" 1 1] 3))))
  = Some (Task.mk 1 (JStr "Write report") (JStr "Page") 0 JNull
            (JStr "notion") (JStr "x") (JStr "https://notion.so/p#x")
            (JNum 1) "2024-04-30 12:00:00" "2024-05-01 10:00:00").
Proof.
  split; [unfold store_ok; simpl; split; repeat constructor|].
  repeat (split; [reflexivity|]). reflexivity.
Qed.

(** * Further properties of the program *)

(** ** Tasks CRUD *)

Lemma dbCreateTask_run (env : Env) (data : JsObj) (w : World) :
  dbCreateTask env data w =
  (Ok (new_task env data w),
   mkWorld (tasks w ++ [new_task env data w]) (task_key w + 1)
           (connections w) (conn_key w) (S (ticks w)) (calls w) (console w)).
Proof. reflexivity. Qed.

Lemma store_ok_add (w : World) (t : Task.t) c ck n h o :
  store_ok w -> Task.id t = task_key w ->
  store_ok (mkWorld (tasks w ++ [t]) (task_key w + 1) c ck n h o).
Proof.
  unfold store_ok. cbn [tasks task_key]. intros (S & F) E.
  rewrite map_app. cbn [map]. rewrite E. split.
  - now apply sorted_snoc.
  - apply Forall_app. split.
    + eapply Forall_impl; [|exact F]. cbn. intros; lia.
    + constructor; [lia|constructor].
Qed.

(** [dbCreateTask] hands out the key of the generator, which no stored
    record has; [dbGetTask] on that key then returns the record that was
    returned, every record stored before is still found unchanged under
    its key, and the store stays well formed. *)
Theorem dbCreateTask_roundtrip (env : Env) (data : JsObj) (w : World) :
  store_ok w ->
  exists t,
    outcome (dbCreateTask env data) w = Ok t /\
    Task.id t = task_key w /\
    idb_get (Task.id t) (tasks w) = None /\
    outcome (dbGetTask (Task.id t)) (exec (dbCreateTask env data) w)
    = Ok (Some t) /\
    (forall j u, idb_get j (tasks w) = Some u ->
       outcome (dbGetTask j) (exec (dbCreateTask env data) w) = Ok (Some u)) /\
    task_key (exec (dbCreateTask env data) w) = task_key w + 1 /\
    store_ok (exec (dbCreateTask env data) w).
Proof.
  intro Hok. exists (new_task env data w).
  unfold outcome, exec. rewrite dbCreateTask_run.
  cbn [fst snd dbGetTask tasks_get tasks task_key new_task Task.id].
  pose proof (store_ok_fresh w Hok) as Hf.
  split; [reflexivity|]. split; [reflexivity|]. split; [exact Hf|].
  split; [rewrite idb_get_app, Hf; cbn; now rewrite Z.eqb_refl|].
  split; [intros j u G; now rewrite idb_get_app, G|].
  split; [reflexivity|]. now apply store_ok_add.
Qed.

Lemma dbCreateTask_roundtrip_witness :
  exists t,
    outcome (dbCreateTask (env_with []) [("title", JStr "Buy milk")])
            (world_of [local_task 1 "Call Ann"] 2) = Ok t /\
    Task.id t = task_key (world_of [local_task 1 "Call Ann"] 2) /\
    idb_get (Task.id t) (tasks (world_of [local_task 1 "Call Ann"] 2))
    = None /\
    outcome (dbGetTask (Task.id t))
      (exec (dbCreateTask (env_with []) [("title", JStr "Buy milk")])
            (world_of [local_task 1 "Call Ann"] 2))
    = Ok (Some t) /\
    (forall j u,
       idb_get j (tasks (world_of [local_task 1 "Call Ann"] 2)) = Some u ->
       outcome (dbGetTask j)
         (exec (dbCreateTask (env_with []) [("title", JStr "Buy milk")])
               (world_of [local_task 1 "Call Ann"] 2)) = Ok (Some u)) /\
    task_key (exec (dbCreateTask (env_with []) [("title", JStr "Buy milk")])
                   (world_of [local_task 1 "Call Ann"] 2))
    = task_key (world_of [local_task 1 "Call Ann"] 2) + 1 /\
    store_ok (exec (dbCreateTask (env_with []) [("title", JStr "Buy milk")])
                   (world_of [local_task 1 "Call Ann"] 2)).
Proof.
  assert (H : store_ok (world_of [local_task 1 "Call Ann"] 2))
    by (unfold store_ok; simpl; split; repeat constructor).
  exact (dbCreateTask_roundtrip (env_with []) [("title", JStr "Buy milk")]
           (world_of [local_task 1 "Call Ann"] 2) H).
Defined.

Lemma js_or_given (v : JsVal) : given_or_null (js_or v JNull).
Proof.
  unfold given_or_null, js_or. destruct (truthy v) eqn:E; [now left|now right].
Qed.

(** Whatever [data] holds, the record [dbCreateTask] stores has
    [completed] 0 or 1, a truthy [source] (['local'] unless [data] gives
    one), each of [due_date], [source_id], [source_url] and
    [connection_id] either given or [null], a [title] and a
    [description] that are given or the empty string, and the same
    reading of the clock in [created_at] and [updated_at]. *)
Theorem dbCreateTask_normalises (env : Env) (data : JsObj) (w : World) :
  exists t,
    outcome (dbCreateTask env data) w = Ok t /\
    (Task.completed t = 0 \/ Task.completed t = 1) /\
    truthy (Task.source t) = true /\
    (truthy (prop data "source") = false -> Task.source t = JStr "local") /\
    given_or_null (Task.due_date t) /\
    given_or_null (Task.source_id t) /\
    given_or_null (Task.source_url t) /\
    given_or_null (Task.connection_id t) /\
    (truthy (Task.title t) = true \/ Task.title t = JStr "") /\
    (truthy (Task.description t) = true \/ Task.description t = JStr "") /\
    Task.created_at t = clock env (ticks w) /\
    Task.updated_at t = clock env (ticks w).
Proof.
  exists (new_task env data w). unfold outcome. rewrite dbCreateTask_run.
  cbn [fst new_task Task.completed Task.source Task.due_date Task.source_id
       Task.source_url Task.connection_id Task.title Task.description
       Task.created_at Task.updated_at].
  split; [reflexivity|].
  split; [destruct (truthy (prop data "completed")); auto|].
  split; [unfold js_or; destruct (truthy (prop data "source")) eqn:E;
          [exact E|reflexivity]|].
  split; [intro E; unfold js_or; now rewrite E|].
  repeat (split; [apply js_or_given|]).
  split; [unfold js_or; destruct (truthy (prop data "title")) eqn:E; auto|].
  split; [unfold js_or; destruct (truthy (prop data "description")) eqn:E;
          auto|].
  split; reflexivity.
Qed.

Lemma assign_allowed_fields (fields : JsObj) (t : Task.t) :
  Task.title (assign_allowed fields t) =
    (if js_eqb (prop fields "title") JUndefined then Task.title t
     else prop fields "title") /\
  Task.description (assign_allowed fields t) =
    (if js_eqb (prop fields "description") JUndefined then Task.description t
     else prop fields "description") /\
  Task.due_date (assign_allowed fields t) =
    (if js_eqb (prop fields "due_date") JUndefined then Task.due_date t
     else prop fields "due_date") /\
  Task.source_url (assign_allowed fields t) =
    (if js_eqb (prop fields "source_url") JUndefined then Task.source_url t
     else prop fields "source_url").
Proof.
  unfold assign_allowed, allowed. cbn [fold_left].
  repeat match goal with
         | |- context [js_eqb ?a ?b] => destruct (js_eqb a b)
         end; cbn; repeat split; reflexivity.
Qed.

(** [dbUpdateTask] on a stored key writes each of [title],
    [description], [due_date] and [source_url] that [fields] gives a
    value other than [undefined], keeps each of them that it does not,
    stamps [updated_at] with the clock, and [dbGetTask] then returns the
    record it returned. *)
Theorem dbUpdateTask_writes
    (env : Env) (id : Z) (fields : JsObj) (w : World) (old : Task.t) :
  idb_get id (tasks w) = Some old ->
  exists new,
    outcome (dbUpdateTask env id fields) w = Ok (Some new) /\
    outcome (dbGetTask id) (exec (dbUpdateTask env id fields) w)
    = Ok (Some new) /\
    Task.title new =
      (if js_eqb (prop fields "title") JUndefined then Task.title old
       else prop fields "title") /\
    Task.description new =
      (if js_eqb (prop fields "description") JUndefined
       then Task.description old else prop fields "description") /\
    Task.due_date new =
      (if js_eqb (prop fields "due_date") JUndefined then Task.due_date old
       else prop fields "due_date") /\
    Task.source_url new =
      (if js_eqb (prop fields "source_url") JUndefined
       then Task.source_url old else prop fields "source_url") /\
    Task.updated_at new = clock env (ticks w).
Proof.
  intro G. unfold outcome, exec. rewrite dbUpdateTask_run, G.
  eexists. cbn [fst snd dbGetTask tasks_get tasks].
  split; [reflexivity|].
  destruct (assign_allowed_frame fields old) as (F1 & _).
  split.
  { rewrite idb_get_put. cbn [Task.with_updated_at Task.id].
    now rewrite F1, (idb_get_id _ _ _ G), Z.eqb_refl. }
  destruct (assign_allowed_fields fields old) as (A1 & A2 & A3 & A4).
  cbn [Task.with_updated_at Task.title Task.description Task.due_date
       Task.source_url Task.updated_at].
  repeat (split; [assumption|]). reflexivity.
Qed.

Lemma dbUpdateTask_writes_witness :
  exists new,
    outcome (dbUpdateTask (env_with []) 1 [("title", JStr "Call Bob")])
            (world_of [local_task 1 "Call Ann"] 2) = Ok (Some new) /\
    outcome (dbGetTask 1)
      (exec (dbUpdateTask (env_with []) 1 [("title", JStr "Call Bob")])
            (world_of [local_task 1 "Call Ann"] 2))
    = Ok (Some new) /\
    Task.title new =
      (if js_eqb (prop [("title", JStr "Call Bob")] "title") JUndefined
       then Task.title (local_task 1 "Call Ann")
       else prop [("title", JStr "Call Bob")] "title") /\
    Task.description new =
      (if js_eqb (prop [("title", JStr "Call Bob")] "description") JUndefined
       then Task.description (local_task 1 "Call Ann")
       else prop [("title", JStr "Call Bob")] "description") /\
    Task.due_date new =
      (if js_eqb (prop [("title", JStr "Call Bob")] "due_date") JUndefined
       then Task.due_date (local_task 1 "Call Ann")
       else prop [("title", JStr "Call Bob")] "due_date") /\
    Task.source_url new =
      (if js_eqb (prop [("title", JStr "Call Bob")] "source_url") JUndefined
       then Task.source_url (local_task 1 "Call Ann")
       else prop [("title", JStr "Call Bob")] "source_url") /\
    Task.updated_at new
    = clock (env_with []) (ticks (world_of [local_task 1 "Call Ann"] 2)).
Proof.
  assert (H : idb_get 1 (tasks (world_of [local_task 1 "Call Ann"] 2))
              = Some (local_task 1 "Call Ann")) by reflexivity.
  exact (dbUpdateTask_writes (env_with []) 1 [("title", JStr "Call Bob")]
           (world_of [local_task 1 "Call Ann"] 2) (local_task 1 "Call Ann") H).
Defined.

Lemma dbDeleteTask_run (id : Z) (w : World) :
  dbDeleteTask id w =
  (Ok (idb_get id (tasks w)),
   mkWorld (idb_delete id (tasks w)) (task_key w) (connections w)
           (conn_key w) (ticks w) (calls w) (console w)).
Proof.
  unfold dbDeleteTask, bind, tasks_get, tasks_delete, ret.
  destruct (idb_get id (tasks w)) eqn:G; [reflexivity|].
  rewrite (idb_delete_absent _ _ G). now destruct w.
Qed.

(** [dbDeleteTask] returns the record stored under the key, or
    [undefined]; afterwards [dbGetTask] finds nothing under that key and
    finds every other key as before; the key generator does not move, so
    the key of a deleted record is never handed out again by
    [dbCreateTask]. *)
Theorem dbDeleteTask_effect (id : Z) (w : World) :
  store_ok w ->
  outcome (dbDeleteTask id) w = Ok (idb_get id (tasks w)) /\
  outcome (dbGetTask id) (exec (dbDeleteTask id) w) = Ok None /\
  (forall j, j <> id ->
     outcome (dbGetTask j) (exec (dbDeleteTask id) w)
     = outcome (dbGetTask j) w) /\
  task_key (exec (dbDeleteTask id) w) = task_key w /\
  store_ok (exec (dbDeleteTask id) w) /\
  (forall env data t,
     In id (map Task.id (tasks w)) ->
     outcome (dbCreateTask env data) (exec (dbDeleteTask id) w) = Ok t ->
     Task.id t <> id).
Proof.
  intros (S & F). unfold outcome, exec. rewrite dbDeleteTask_run.
  cbn [fst snd dbGetTask tasks_get tasks task_key].
  split; [reflexivity|].
  split; [now rewrite idb_get_delete, Z.eqb_refl|].
  split.
  { intros j Hj. rewrite idb_get_delete.
    destruct (Z.eqb_spec j id); [contradiction|reflexivity]. }
  split; [reflexivity|].
  split.
  { split; [now apply idb_delete_sorted|now apply idb_delete_below]. }
  intros env data t Hin E. rewrite dbCreateTask_run in E.
  cbn [fst] in E. injection E as <-. cbn [new_task Task.id task_key].
  rewrite Forall_forall in F. specialize (F _ Hin). lia.
Qed.

Lemma dbDeleteTask_effect_witness :
  outcome (dbDeleteTask 1) (world_of [local_task 1 "Call Ann"] 2)
  = Ok (idb_get 1 (tasks (world_of [local_task 1 "Call Ann"] 2))) /\
  outcome (dbGetTask 1)
          (exec (dbDeleteTask 1) (world_of [local_task 1 "Call Ann"] 2))
  = Ok None.
Proof.
  assert (H : store_ok (world_of [local_task 1 "Call Ann"] 2))
    by (unfold store_ok; simpl; split; repeat constructor).
  pose proof (dbDeleteTask_effect 1 (world_of [local_task 1 "Call Ann"] 2) H)
    as (H1 & H2 & _).
  exact (conj H1 H2).
Defined.

(** ** [dbGetAllTasks] *)

Lemma filter_filter {A} (p q : A -> bool) (l : list A) :
  filter q (filter p l) = filter (fun x => p x && q x) l.
Proof.
  induction l as [|x l IH]; simpl; [reflexivity|].
  destruct (p x); simpl; [destruct (q x)|]; now rewrite IH.
Qed.

Lemma filter_all {A} (l : list A) : filter (fun _ => true) l = l.
Proof. induction l as [|x l IH]; simpl; [reflexivity|now rewrite IH]. Qed.

Lemma filter_same {A} (p q : A -> bool) (l : list A) :
  (forall x, p x = q x) -> filter p l = filter q l.
Proof.
  intro H. induction l as [|x l IH]; simpl; [reflexivity|].
  now rewrite H, IH.
Qed.

Lemma dbGetAllTasks_run (env : Env) (filters : JsObj) (w : World) :
  dbGetAllTasks env filters w =
  (Ok (array_sort (task_order env) (filter (passes filters) (tasks w))), w).
Proof.
  unfold dbGetAllTasks, bind, tasks_getAll, ret. f_equal. f_equal. f_equal.
  unfold passes.
  destruct (truthy (prop filters "source"));
    destruct (negb (js_eqb (prop filters "completed") JUndefined)).
  - apply filter_filter.
  - apply filter_same. intro x. now rewrite andb_true_r.
  - reflexivity.
  - symmetry. apply filter_all.
Qed.

Lemma sort_insert_perm {A} (cmp : A -> A -> Z) (x : A) (l : list A) :
  Permutation (sort_insert cmp x l) (x :: l).
Proof.
  induction l as [|y l IH]; simpl; [reflexivity|].
  destruct (0 <? cmp x y); [|reflexivity].
  rewrite IH. apply perm_swap.
Qed.

Lemma array_sort_perm {A} (cmp : A -> A -> Z) (l : list A) :
  Permutation (array_sort cmp l) l.
Proof.
  induction l as [|x l IH]; simpl; [reflexivity|].
  rewrite sort_insert_perm. now constructor.
Qed.

(** [dbGetAllTasks] changes nothing and never fails; the list it returns
    holds each stored task that passes the filters exactly as often as
    the store does, and no other task. *)
Theorem dbGetAllTasks_permutation (env : Env) (filters : JsObj) (w : World) :
  exists l,
    dbGetAllTasks env filters w = (Ok l, w) /\
    Permutation l (filter (passes filters) (tasks w)) /\
    (forall t, In t l <-> In t (tasks w) /\ passes filters t = true).
Proof.
  eexists. split; [apply dbGetAllTasks_run|].
  split; [apply array_sort_perm|].
  intro t. now rewrite array_sort_In, filter_In.
Qed.

Lemma sort_insert_split (env : Env) (x : Task.t) (zs ns : list Task.t) :
  Forall (fun t => Task.completed t = 0) zs ->
  Forall (fun t => Task.completed t <> 0) ns ->
  exists zs' ns',
    sort_insert (task_order env) x (zs ++ ns) = zs' ++ ns' /\
    Forall (fun t => Task.completed t = 0) zs' /\
    Forall (fun t => Task.completed t <> 0) ns'.
Proof.
  intros Hz Hn. induction zs as [|z zs IH]; cbn [app].
  - destruct (Z.eq_dec (Task.completed x) 0) as [E|E].
    + exists [x], ns. split; [|split; [repeat constructor; exact E|exact Hn]].
      destruct ns as [|n ns]; [reflexivity|]. cbn [sort_insert app].
      inversion Hn; subst. unfold task_order.
      destruct (Z.eqb_spec (Task.completed x) (Task.completed n)); [congruence|].
      cbn [negb]. rewrite E. reflexivity.
    + exists [], (sort_insert (task_order env) x ns).
      split; [reflexivity|]. split; [constructor|].
      rewrite Forall_forall in *. intros t Ht.
      apply sort_insert_In in Ht. destruct Ht as [->|Ht]; auto.
  - inversion Hz; subst. cbn [sort_insert].
    destruct (0 <? task_order env x z) eqn:C.
    + destruct (IH H2) as (zs' & ns' & E & Hz' & Hn').
      exists (z :: zs'), ns'. rewrite E. split; [reflexivity|].
      split; [now constructor|assumption].
    + exists (x :: z :: zs), ns. split; [reflexivity|].
      split; [|assumption]. constructor; [|assumption].
      destruct (Z.eq_dec (Task.completed x) 0) as [E|E]; [exact E|].
      exfalso. unfold task_order in C.
      destruct (Z.eqb_spec (Task.completed x) (Task.completed z));
        [congruence|].
      cbn [negb] in C.
      destruct (Z.eqb_spec (Task.completed x) 0); [contradiction|].
      discriminate C.
Qed.

(** In the list [dbGetAllTasks] returns the tasks that are not completed
    come first and the completed ones after them, whatever the filters
    and whatever order [localeCompare] induces on the timestamps. *)
Theorem dbGetAllTasks_incomplete_first
    (env : Env) (filters : JsObj) (w : World) :
  exists zs ns,
    outcome (dbGetAllTasks env filters) w = Ok (zs ++ ns) /\
    Forall (fun t => Task.completed t = 0) zs /\
    Forall (fun t => Task.completed t <> 0) ns.
Proof.
  unfold outcome. rewrite dbGetAllTasks_run. cbn [fst].
  induction (filter (passes filters) (tasks w)) as [|x l IH].
  - exists [], []. repeat split; constructor.
  - destruct IH as (zs & ns & E & Hz & Hn). injection E as E.
    cbn [array_sort fold_right]. fold (array_sort (task_order env) l).
    rewrite E.
    destruct (sort_insert_split env x zs ns Hz Hn) as (zs' & ns' & E' & H').
    exists zs', ns'. now rewrite E'.
Qed.

(** ** The store stays well formed *)

Lemma store_ok_same (w w' : World) :
  tasks w' = tasks w -> task_key w' = task_key w ->
  store_ok w -> store_ok w'.
Proof. unfold store_ok. now intros -> ->. Qed.

Lemma dbCreateTask_ok (env : Env) (data : JsObj) :
  keeps store_ok (dbCreateTask env data).
Proof.
  intros w H. unfold exec. rewrite dbCreateTask_run. cbn [snd].
  now apply store_ok_add.
Qed.

Lemma dbUpdateTask_ok (env : Env) (id : Z) (fields : JsObj) :
  keeps store_ok (dbUpdateTask env id fields).
Proof.
  intros w (S & F). unfold exec. rewrite dbUpdateTask_run.
  destruct (idb_get id (tasks w)) as [t|] eqn:G; [|now split].
  cbn [snd]. unfold store_ok. cbn [tasks task_key].
  rewrite idb_put_ids; [now split|assumption|].
  cbn [Task.with_updated_at Task.id].
  destruct (assign_allowed_frame fields t) as (-> & _).
  apply in_map. exact (idb_get_In _ _ _ G).
Qed.

Lemma dbDeleteTask_ok (id : Z) : keeps store_ok (dbDeleteTask id).
Proof.
  intros w (S & F). unfold exec. rewrite dbDeleteTask_run. cbn [snd].
  split; [now apply idb_delete_sorted|now apply idb_delete_below].
Qed.

Lemma pushTaskToNotion_ok (env : Env) (task : Task.t) (updates : JsObj) :
  keeps store_ok (pushTaskToNotion env task updates).
Proof.
  intros w H.
  destruct (pushTaskToNotion_run env task updates w)
    as (w' & E & (E1 & _) & E3 & _).
  unfold exec. rewrite E. cbn [snd]. now apply (store_ok_same w).
Qed.

Lemma syncAllConnections_ok (env : Env) :
  keeps store_ok (syncAllConnections env).
Proof.
  unfold syncAllConnections. apply keeps_bind; [intros w H; exact H|].
  intros l. apply keeps_forM. intros c _.
  destruct (negb (truthy (Conn.enabled c)) || _); [apply keeps_ret|].
  apply keeps_try_catch.
  - apply keeps_bind; [intros w H; now apply syncConnection_ok|].
    intros r w H. exact H.
  - intros e w H. exact H.
Qed.

Lemma reachable_ok (env : Env) (w : World) : reachable env w -> store_ok w.
Proof.
  intro H. induction H.
  - split; constructor.
  - revert IHreachable. unfold taskForm_submit.
    destruct (title =? "")%string; [apply keeps_ret|].
    apply keeps_bind; [apply dbCreateTask_ok|intros; apply keeps_ret].
  - revert IHreachable. apply keeps_bind;
      [apply dbUpdateTask_ok|intros; apply pushTaskToNotion_ok].
  - revert IHreachable. apply keeps_bind;
      [apply dbDeleteTask_ok|intros; apply keeps_ret].
  - revert IHreachable. unfold editForm_submit.
    apply keeps_bind; [intros w' H'; exact H'|]. intros existing.
    match goal with |- keeps _ (if ?c then _ else _) => destruct c end;
      [apply keeps_ret|].
    apply keeps_bind; [apply dbUpdateTask_ok|]. intros _.
    destruct existing; [apply pushTaskToNotion_ok|apply keeps_ret].
  - exact IHreachable.
  - revert IHreachable. unfold btnConnDelete_click.
    apply keeps_bind; [intros w' H'; exact H'|]. intros l.
    apply keeps_bind.
    { apply keeps_forM. intros t _.
      destruct (js_eqb _ _); [|apply keeps_ret].
      apply keeps_bind; [apply dbDeleteTask_ok|intros; apply keeps_ret]. }
    intros _. apply keeps_bind; [|intros; apply keeps_ret].
    intros w' H'. unfold exec, dbDeleteConnection, bind, connections_get.
    destruct (conn_get _ _); exact H'.
  - revert IHreachable. unfold btnSync_click. apply keeps_try_catch.
    + apply keeps_bind; [intros w' H'; now apply syncConnection_ok|].
      intros; apply keeps_ret.
    + intros message w' H'. exact H'.
  - now apply syncAllConnections_ok.
Qed.

(** Every world the program can reach from an empty database has a well
    formed task store: the keys are distinct, the records are in key
    order, and the key generator is above every key in use. *)
Theorem reachable_store_ok (env : Env) (w : World) :
  reachable env w -> store_ok w.
Proof. apply reachable_ok. Qed.

Lemma reachable_store_ok_witness :
  store_ok
    (exec (btnSync_click (env_with [todo_x_done]) conn_saved)
       (exec (btnNotionSave_click (env_with [todo_x_done])
                "Work" "secret" "db-1")
          (exec (taskForm_submit (env_with [todo_x_done]) "Buy milk" "" "")
             (initial_world)))).
Proof.
  assert (H2 : In conn_saved
                 (connections
                    (exec (btnNotionSave_click (env_with [todo_x_done])
                             "Work" "secret" "db-1")
                       (exec (taskForm_submit (env_with [todo_x_done])
                                "Buy milk" "" "")
                          (initial_world)))))
    by (cbn; now left).
  exact (reachable_store_ok _ _
           (reach_btnSync_click _ _ _
              (reach_btnNotionSave_click _ _ _ _ _
                 (reach_taskForm_submit _ _ _ _ _ (reach_initial _)))
              H2)).
Defined.

(** ** More about [syncConnection] *)

(** When the fetch of the remote items fails, [syncConnection] throws
    the error of the Notion client and leaves both stores, both key
    generators, the clock and the console as they were: no task is
    created, updated or deleted and the connection is not stamped. *)
Theorem syncConnection_fetch_failure
    (env : Env) (conn : Conn.t) (w : World) (message : string) :
  fetch_answer env conn w = inl message ->
  outcome (syncConnection env conn) w = Thrown message /\
  tasks (exec (syncConnection env conn) w) = tasks w /\
  task_key (exec (syncConnection env conn) w) = task_key w /\
  connections (exec (syncConnection env conn) w) = connections w /\
  conn_key (exec (syncConnection env conn) w) = conn_key w /\
  ticks (exec (syncConnection env conn) w) = ticks w /\
  console (exec (syncConnection env conn) w) = console w.
Proof.
  intro F. unfold outcome, exec. rewrite syncConnection_run, F.
  cbn. repeat split; reflexivity.
Qed.

Lemma syncConnection_fetch_failure_witness :
  outcome (syncConnection env_down conn1)
          (world_of [notion_task 1 "x" "A" 0 1] 2) = Thrown "HTTP 502" /\
  tasks (exec (syncConnection env_down conn1)
              (world_of [notion_task 1 "x" "A" 0 1] 2))
  = tasks (world_of [notion_task 1 "x" "A" 0 1] 2).
Proof.
  assert (H : fetch_answer env_down conn1
                (world_of [notion_task 1 "x" "A" 0 1] 2) = inl "HTTP 502")
    by reflexivity.
  pose proof (syncConnection_fetch_failure env_down conn1 _ _ H)
    as (H1 & H2 & _).
  exact (conj H1 H2).
Defined.

Lemma conn_get_put (j : Z) (c : Conn.t) (l : list Conn.t) :
  conn_get j (conn_put c l) =
  if Conn.id c =? j then Some c else conn_get j l.
Proof.
  induction l as [|u l IH]; simpl.
  - reflexivity.
  - destruct (Z.eqb_spec (Conn.id u) (Conn.id c)) as [E|E]; simpl.
    + rewrite E. now destruct (Conn.id c =? j).
    + destruct (Conn.id c <? Conn.id u); simpl.
      * reflexivity.
      * rewrite IH. destruct (Z.eqb_spec (Conn.id u) j) as [F|F];
          destruct (Z.eqb_spec (Conn.id c) j); try reflexivity; congruence.
Qed.

Lemma conn_get_id (k : Z) (l : list Conn.t) (c : Conn.t) :
  conn_get k l = Some c -> Conn.id c = k.
Proof.
  unfold conn_get. intro H. apply find_some in H. now apply Z.eqb_eq.
Qed.

Lemma pull_all_ticks (env : Env) (conn : Conn.t) (lookup : JsMap.t Task.t)
    (remoteTodos : list Todo.t) (w : World) :
  (ticks w <= ticks (pull_all env conn lookup remoteTodos w))%nat.
Proof.
  unfold pull_all.
  apply (fold_left_keeps (fun w' => (ticks w <= ticks w')%nat)); [|lia].
  intros x w' _ H. unfold pull_world.
  destruct (JsMap.get _ lookup); [destruct (idb_get _ _)|]; cbn; lia.
Qed.

Lemma remove_all_ticks (conn : Conn.t) (ids : JsSet.t) (l : list Task.t)
    (w : World) :
  ticks (remove_all conn ids l w) = ticks w.
Proof.
  unfold remove_all.
  apply (fold_left_keeps (fun w' => ticks w' = ticks w)); [|reflexivity].
  intros x w' _ H. unfold remove_world.
  now destruct (doomed conn ids x).
Qed.

(** When the fetch succeeds, [syncConnection] returns the number of
    fetched items; if the connection is still in the store its
    [last_synced_at] becomes a reading of the clock taken during the run
    and nothing else of it changes; if it is no longer in the store it is
    not put back; and no other connection is touched. *)
Theorem syncConnection_stamps
    (env : Env) (conn : Conn.t) (w : World) (remoteTodos : list Todo.t) :
  fetch_answer env conn w = inr remoteTodos ->
  outcome (syncConnection env conn) w
  = Ok (mkSyncResult (List.length remoteTodos)) /\
  (forall c, conn_get (Conn.id conn) (connections w) = Some c ->
     exists n,
       (ticks w <= n)%nat /\
       conn_get (Conn.id conn) (connections (exec (syncConnection env conn) w))
       = Some (Conn.mk (Conn.id c) (Conn.type c) (Conn.name c)
                       (Conn.config c) (Conn.enabled c)
                       (JStr (clock env n)) (Conn.created_at c))) /\
  (conn_get (Conn.id conn) (connections w) = None ->
   connections (exec (syncConnection env conn) w) = connections w) /\
  (forall j, j <> Conn.id conn ->
     conn_get j (connections (exec (syncConnection env conn) w))
     = conn_get j (connections w)) /\
  conn_key (exec (syncConnection env conn) w) = conn_key w.
Proof.
  intro F. unfold outcome, exec. rewrite syncConnection_run, F.
  cbn [fst snd]. split; [reflexivity|].
  unfold sync_world.
  set (lookup := build_lookup _). set (ids := remote_ids _).
  set (W1 := pull_all env conn lookup remoteTodos (fetch_world env conn w)).
  set (W2 := remove_all conn ids (local_tasks env w) W1).
  destruct (pull_all_calls env conn lookup remoteTodos (fetch_world env conn w))
    as (_ & _ & P3 & P4).
  destruct (remove_all_calls conn ids (local_tasks env w) W1)
    as (_ & _ & R3 & R4 & _).
  fold W1 in P3, P4. fold W2 in R3, R4.
  assert (C2 : connections W2 = connections w) by (rewrite R3, P3; reflexivity).
  assert (K2 : conn_key W2 = conn_key w) by (rewrite R4, P4; reflexivity).
  assert (T2 : (ticks w <= ticks W2)%nat).
  { unfold W2. rewrite remove_all_ticks. unfold W1.
    apply (pull_all_ticks env conn lookup remoteTodos (fetch_world env conn w)). }
  unfold stamp_world. cbn [connections conn_key]. rewrite C2.
  split; [|split; [|split]].
  - intros c G. exists (ticks W2). split; [exact T2|].
    rewrite G, conn_get_put. cbn. now rewrite (conn_get_id _ _ _ G), Z.eqb_refl.
  - intros G. now rewrite G.
  - intros j Hj. destruct (conn_get (Conn.id conn) (connections w)) as [c|] eqn:G;
      [|reflexivity].
    rewrite conn_get_put. cbn. rewrite (conn_get_id _ _ _ G).
    destruct (Z.eqb_spec (Conn.id conn) j); [congruence|reflexivity].
  - exact K2.
Qed.

Lemma syncConnection_stamps_witness :
  outcome (syncConnection (env_with [todo_x_done]) conn1)
          (world_of [notion_task 1 "x" "A" 0 1] 2)
  = Ok (mkSyncResult (List.length [todo_x_done])).
Proof.
  assert (H : fetch_answer (env_with [todo_x_done]) conn1
                (world_of [notion_task 1 "x" "A" 0 1] 2)
              = inr [todo_x_done]) by reflexivity.
  exact (proj1 (syncConnection_stamps (env_with [todo_x_done]) conn1 _ _ H)).
Defined.

Section MoreSync.

Variable env : Env.
Variable conn : Conn.t.

Lemma pull_all_creates_record (lookup : JsMap.t Task.t)
    (remoteTodos : list Todo.t) (x : Todo.t) (w : World) :
  store_ok w ->
  (forall k e, JsMap.get k lookup = Some e -> Task.id e < task_key w) ->
  In x remoteTodos ->
  JsMap.get (JStr (Todo.source_id x)) lookup = None ->
  exists i now,
    task_key w <= i /\
    idb_get i (tasks (pull_all env conn lookup remoteTodos w))
    = Some (created conn x now i).
Proof.
  intros Hok Hold Hx Hget. revert w Hok Hold.
  induction remoteTodos as [|y l IH]; intros w Hok Hold; [contradiction|].
  unfold pull_all. cbn [fold_left]. fold (pull_all env conn lookup l).
  destruct Hx as [->|Hx].
  - exists (task_key w), (clock env (ticks w)). split; [lia|].
    apply pull_all_untouched.
    + intros k e E. apply Hold in E. lia.
    + rewrite pull_world_get, Hget, (store_ok_fresh w Hok), Z.eqb_refl.
      reflexivity.
  - destruct (IH Hx (pull_world env conn lookup y w)) as (i & now & Hi & G).
    + now apply pull_world_ok.
    + intros k e E. apply Hold in E.
      pose proof (pull_world_key env conn lookup y w). lia.
    + exists i, now. split; [|exact G].
      pose proof (pull_world_key env conn lookup y w). lia.
Qed.

Lemma store_ok_below (w : World) (t : Task.t) :
  store_ok w -> In t (tasks w) -> Task.id t < task_key w.
Proof.
  intros (_ & F) H. rewrite Forall_forall in F. apply F. now apply in_map.
Qed.

(** When the fetch succeeds, a fetched item whose identifier no stored
    Notion task carries gets a new task: it is stored under a key the
    generator had not handed out, belongs to this connection, has source
    ['notion'], the identifier, title, description, completed flag and
    deep link of the item, and no due date. *)
Theorem syncConnection_creates
    (w : World) (remoteTodos : list Todo.t) (x : Todo.t) :
  store_ok w ->
  fetch_answer env conn w = inr remoteTodos ->
  In x remoteTodos ->
  Todo.source_id x <> "" ->
  Conn.id conn <> 0 ->
  (forall t, In t (tasks w) -> Task.source t = JStr "notion" ->
             Task.source_id t <> JStr (Todo.source_id x)) ->
  exists u,
    In u (tasks (exec (syncConnection env conn) w)) /\
    task_key w <= Task.id u /\
    Task.source u = JStr "notion" /\
    Task.source_id u = JStr (Todo.source_id x) /\
    Task.connection_id u = JNum (Conn.id conn) /\
    Task.title u = JStr (Todo.title x) /\
    Task.description u = JStr (Todo.description x) /\
    Task.completed u = (if Todo.completed x then 1 else 0) /\
    Task.source_url u = js_or (JStr (Todo.source_url x)) JNull /\
    Task.due_date u = JNull.
Proof.
  intros Hok F Hx Hne Hid Hnew.
  unfold exec. rewrite syncConnection_run, F. cbn [snd].
  rewrite sync_world_tasks.
  set (lookup := build_lookup (local_tasks env w)).
  destruct (pull_all_creates_record lookup remoteTodos x
              (fetch_world env conn w)) as (i & now & Hi & G).
  - exact Hok.
  - intros k e E. apply lookup_of_local_tasks in E.
    destruct E as (E & _). exact (store_ok_below w e Hok E).
  - exact Hx.
  - destruct (JsMap.get (JStr (Todo.source_id x)) lookup) as [e|] eqn:E;
      [|reflexivity].
    apply lookup_of_local_tasks in E. destruct E as (E1 & E2 & E3 & _).
    exfalso. exact (Hnew e E1 E2 E3).
  - change (task_key (fetch_world env conn w)) with (task_key w) in Hi.
    exists (created conn x now i). split.
    + apply (idb_get_In i). rewrite remove_all_get, not_deleted; [exact G|].
      intros local Hl E. apply local_tasks_In in Hl. destruct Hl as (Hl & _).
      pose proof (store_ok_below w local Hok Hl). lia.
    + cbn [created Task.id Task.source Task.source_id Task.connection_id
           Task.title Task.description Task.completed Task.source_url
           Task.due_date].
      split; [exact Hi|]. split; [reflexivity|].
      split; [now apply js_or_sid|].
      split.
      { unfold js_or. cbn. apply Z.eqb_neq in Hid. now rewrite Hid. }
      repeat split; reflexivity.
Qed.

(** A task that was in the store when a run of [syncConnection] began is
    missing when it ends only if it is a Notion task of this connection
    with a [source_id], the fetch succeeded, and no fetched item carries
    that [source_id]: the run deletes nothing else. *)
Theorem syncConnection_deletes_only_orphans (w : World) (t : Task.t) :
  store_ok w ->
  In t (tasks w) ->
  ~ In (Task.id t) (map Task.id (tasks (exec (syncConnection env conn) w))) ->
  Task.source t = JStr "notion" /\
  pushed conn t = true /\
  exists remoteTodos,
    fetch_answer env conn w = inr remoteTodos /\
    forall x, In x remoteTodos ->
              Task.source_id t <> JStr (Todo.source_id x).
Proof.
  intros Hok Hin Hgone. apply idb_get_None in Hgone. revert Hgone.
  unfold exec. rewrite syncConnection_run.
  destruct (fetch_answer env conn w) as [message|remoteTodos]; cbn [snd].
  { change (tasks (fetch_world env conn w)) with (tasks w).
    rewrite (store_ok_get w t Hok Hin). discriminate. }
  rewrite sync_world_tasks, remove_all_get.
  destruct (existsb _ (local_tasks env w)) eqn:E.
  - intros _. apply existsb_exists in E. destruct E as (local & Hl & Hd).
    apply andb_true_iff in Hd. destruct Hd as (Hd & Hj).
    apply Z.eqb_eq in Hj. apply local_tasks_In in Hl. destruct Hl as (Hl & Hs).
    assert (local = t) by (apply (store_ok_unique w); auto). subst local.
    apply doomed_spec in Hd. destruct Hd as (Hp & Hnone).
    split; [exact Hs|]. split; [exact Hp|]. eauto.
  - intro G. exfalso. revert G. apply pull_all_exists.
    change (tasks (fetch_world env conn w)) with (tasks w).
    now rewrite (store_ok_get w t Hok Hin).
Qed.

(** After a run of [syncConnection] whose fetch succeeded, the stored
    Notion tasks of the connection and the fetched items correspond:
    every fetched item has a stored Notion task that carries its
    identifier, and every stored Notion task of the connection carries
    the identifier of a fetched item. *)
Theorem syncConnection_store_matches_remote
    (w : World) (remoteTodos : list Todo.t) :
  store_ok w ->
  Forall (fun x => Todo.source_id x <> "") remoteTodos ->
  fetch_answer env conn w = inr remoteTodos ->
  (forall x, In x remoteTodos ->
     exists u,
       In u (tasks (exec (syncConnection env conn) w)) /\
       Task.source u = JStr "notion" /\
       Task.source_id u = JStr (Todo.source_id x)) /\
  (forall u,
     In u (tasks (exec (syncConnection env conn) w)) ->
     Task.source u = JStr "notion" -> pushed conn u = true ->
     exists x, In x remoteTodos /\
               Task.source_id u = JStr (Todo.source_id x)).
Proof.
  intros Hok Hne F.
  assert (E : exec (syncConnection env conn) w
              = sync_world env conn remoteTodos w).
  { unfold exec. now rewrite syncConnection_run, F. }
  rewrite E. split.
  - intros x Hx. apply sync_world_covers; try assumption.
    rewrite Forall_forall in Hne. now apply Hne.
  - intros u Hu Hs Hp. now apply (after_sync_fetched env conn w remoteTodos u).
Qed.

End MoreSync.

(** The creation example of the design document: an empty store and a
    remote list with one item. *)
Lemma syncConnection_creates_witness :
  exists u,
    In u (tasks (exec (syncConnection (env_with [todo_x_done]) conn1)
                      (world_of [] 1))) /\
    Task.source_id u = JStr "x" /\
    Task.connection_id u = JNum 1.
Proof.
  assert (H1 : store_ok (world_of [] 1))
    by (unfold store_ok; simpl; split; constructor).
  assert (H2 : fetch_answer (env_with [todo_x_done]) conn1 (world_of [] 1)
               = inr [todo_x_done]) by reflexivity.
  assert (H3 : In todo_x_done [todo_x_done]) by (now left).
  assert (H4 : Todo.source_id todo_x_done <> "") by discriminate.
  assert (H5 : Conn.id conn1 <> 0) by discriminate.
  assert (H6 : forall t, In t (tasks (world_of [] 1)) ->
                 Task.source t = JStr "notion" ->
                 Task.source_id t <> JStr (Todo.source_id todo_x_done))
    by (intros t []).
  destruct (syncConnection_creates (env_with [todo_x_done]) conn1
              (world_of [] 1) [todo_x_done] todo_x_done H1 H2 H3 H4 H5 H6)
    as (u & A & _ & _ & B & C & _).
  exists u. exact (conj A (conj B C)).
Defined.

Lemma syncConnection_deletes_only_orphans_witness :
  pushed conn1 (notion_task 2 "y" "B" 0 1) = true.
Proof.
  assert (H1 : store_ok (world_of [notion_task 1 "x" "A" 0 1;
                                   notion_task 2 "y" "B" 0 1] 3))
    by (unfold store_ok; simpl; split; repeat constructor).
  assert (H2 : In (notion_task 2 "y" "B" 0 1)
                 (tasks (world_of [notion_task 1 "x" "A" 0 1;
                                   notion_task 2 "y" "B" 0 1] 3)))
    by (simpl; right; now left).
  assert (H3 : ~ In (Task.id (notion_task 2 "y" "B" 0 1))
                 (map Task.id
                    (tasks (exec (syncConnection (env_with [todo_x_done])
                                                 conn1)
                                 (world_of [notion_task 1 "x" "A" 0 1;
                                            notion_task 2 "y" "B" 0 1] 3))))).
  { intro H. vm_compute in H. destruct H as [H|[]]. discriminate H. }
  exact (proj1 (proj2 (syncConnection_deletes_only_orphans
                         (env_with [todo_x_done]) conn1 _ _ H1 H2 H3))).
Defined.

Lemma syncConnection_store_matches_remote_witness :
  exists u,
    In u (tasks (exec (syncConnection (env_with [todo_x_done]) conn1)
                      (world_of [notion_task 1 "x" "A" 0 1;
                                 notion_task 2 "y" "B" 0 1] 3))) /\
    Task.source u = JStr "notion" /\
    Task.source_id u = JStr (Todo.source_id todo_x_done).
Proof.
  assert (H1 : store_ok (world_of [notion_task 1 "x" "A" 0 1;
                                   notion_task 2 "y" "B" 0 1] 3))
    by (unfold store_ok; simpl; split; repeat constructor).
  assert (H2 : Forall (fun x => Todo.source_id x <> "") [todo_x_done])
    by (constructor; [discriminate|constructor]).
  assert (H3 : fetch_answer (env_with [todo_x_done]) conn1
                 (world_of [notion_task 1 "x" "A" 0 1;
                            notion_task 2 "y" "B" 0 1] 3)
               = inr [todo_x_done]) by reflexivity.
  assert (H4 : In todo_x_done [todo_x_done]) by (left; reflexivity).
  exact (proj1 (syncConnection_store_matches_remote
                  (env_with [todo_x_done]) conn1 _ _ H1 H2 H3)
               todo_x_done H4).
Defined.

(** ** Deleting a linked task by hand *)

Lemma doDelete_run (id : Z) (w : World) :
  doDelete id w =
  (Ok tt,
   mkWorld (idb_delete id (tasks w)) (task_key w) (connections w)
           (conn_key w) (ticks w) (calls w) (console w)).
Proof. unfold doDelete, bind. now rewrite dbDeleteTask_run. Qed.

(** A Notion task deleted with [doDelete] comes back: when the next run
    of [syncConnection] fetches an item with its [source_id], the store
    holds a Notion task with that [source_id] again at the end of the
    run, under another key than the deleted one. *)
Theorem deleted_task_reappears
    (env : Env) (conn : Conn.t) (w : World) (remoteTodos : list Todo.t)
    (t : Task.t) (x : Todo.t) :
  store_ok w ->
  In t (tasks w) ->
  Task.source_id t = JStr (Todo.source_id x) ->
  In x remoteTodos ->
  Forall (fun x => Todo.source_id x <> "") remoteTodos ->
  fetch_answer env conn (exec (doDelete (Task.id t)) w) = inr remoteTodos ->
  exists u,
    In u (tasks (exec (syncConnection env conn)
                      (exec (doDelete (Task.id t)) w))) /\
    Task.source u = JStr "notion" /\
    Task.source_id u = Task.source_id t /\
    Task.id u <> Task.id t.
Proof.
  intros Hok Hin Hsid Hx Hne F.
  assert (Ed : exec (doDelete (Task.id t)) w
               = mkWorld (idb_delete (Task.id t) (tasks w)) (task_key w)
                         (connections w) (conn_key w) (ticks w) (calls w)
                         (console w))
    by (unfold exec; now rewrite doDelete_run).
  rewrite Ed in *.
  set (wd := mkWorld (idb_delete (Task.id t) (tasks w)) (task_key w)
                     (connections w) (conn_key w) (ticks w) (calls w)
                     (console w)) in *.
  assert (Hokd : store_ok wd).
  { destruct Hok as (S & B).
    split; [now apply idb_delete_sorted|now apply idb_delete_below]. }
  assert (E : exec (syncConnection env conn) wd
              = sync_world env conn remoteTodos wd).
  { unfold exec. now rewrite syncConnection_run, F. }
  rewrite E.
  assert (Hnx : Todo.source_id x <> "")
    by (rewrite Forall_forall in Hne; now apply Hne).
  destruct (sync_world_covers env conn wd remoteTodos x Hokd Hx Hnx)
    as (u & Hu & Hs & Hi).
  exists u. split; [exact Hu|]. split; [exact Hs|].
  split; [congruence|].
  rewrite sync_world_tasks in Hu. apply remove_all_subset in Hu.
  apply pull_all_origin in Hu.
  destruct Hu as [(u0 & H0 & Hid & _)|(K & _)].
  - cbn [wd tasks] in H0. unfold idb_delete in H0.
    apply filter_In in H0. destruct H0 as (_ & H0).
    apply negb_true_iff in H0. apply Z.eqb_neq in H0. congruence.
  - change (task_key (fetch_world env conn wd)) with (task_key w) in K.
    pose proof (store_ok_below w t Hok Hin). lia.
Qed.

Lemma deleted_task_reappears_witness :
  exists u,
    In u (tasks (exec (syncConnection (env_with [todo_x_done]) conn1)
                      (exec (doDelete (Task.id (notion_task 1 "x" "A" 0 1)))
                            (world_of [notion_task 1 "x" "A" 0 1] 2)))) /\
    Task.source u = JStr "notion" /\
    Task.source_id u = Task.source_id (notion_task 1 "x" "A" 0 1) /\
    Task.id u <> Task.id (notion_task 1 "x" "A" 0 1).
Proof.
  assert (H1 : store_ok (world_of [notion_task 1 "x" "A" 0 1] 2))
    by (unfold store_ok; simpl; split; repeat constructor).
  assert (H2 : In (notion_task 1 "x" "A" 0 1)
                 (tasks (world_of [notion_task 1 "x" "A" 0 1] 2)))
    by (simpl; now left).
  assert (H3 : Task.source_id (notion_task 1 "x" "A" 0 1)
               = JStr (Todo.source_id todo_x_done)) by reflexivity.
  assert (H4 : In todo_x_done [todo_x_done]) by (now left).
  assert (H5 : Forall (fun x => Todo.source_id x <> "") [todo_x_done])
    by (constructor; [discriminate|constructor]).
  assert (H6 : fetch_answer (env_with [todo_x_done]) conn1
                 (exec (doDelete (Task.id (notion_task 1 "x" "A" 0 1)))
                       (world_of [notion_task 1 "x" "A" 0 1] 2))
               = inr [todo_x_done]) by reflexivity.
  exact (deleted_task_reappears (env_with [todo_x_done]) conn1 _ _ _ _
           H1 H2 H3 H4 H5 H6).
Defined.

(** ** More about [syncAllConnections] *)

Lemma syncConnection_untouched (env : Env) (conn : Conn.t) (w : World)
    (t : Task.t) :
  store_ok w -> In t (tasks w) -> Task.source t <> JStr "notion" ->
  idb_get (Task.id t) (tasks (exec (syncConnection env conn) w)) = Some t.
Proof.
  intros Hok Hin Hsrc. unfold exec. rewrite syncConnection_run.
  destruct (fetch_answer env conn w) as [message|remoteTodos]; cbn [snd].
  - now apply store_ok_get.
  - rewrite sync_world_tasks, remove_all_get, not_deleted.
    + apply pull_all_untouched; [|now apply store_ok_get].
      intros k e E F. apply lookup_of_local_tasks in E.
      destruct E as (E1 & E2 & _).
      assert (e = t) by now apply (store_ok_unique w). congruence.
    + intros local Hl Hid. apply local_tasks_In in Hl.
      destruct Hl as (Hl & Hn).
      assert (local = t) by now apply (store_ok_unique w). congruence.
Qed.

Lemma syncAllConnections_run (env : Env) (w : World) :
  syncAllConnections env w =
  (Ok tt, fold_left (sync_and_log env) (filter eligible (connections w)) w).
Proof.
  unfold syncAllConnections, bind at 1, dbGetAllConnections,
    connections_getAll. apply syncAll_loop.
Qed.

(** [syncAllConnections], whatever connections are stored and whatever
    the Notion API answers, leaves every stored task whose source is not
    ['notion'] in the store with every field as it was, and leaves the
    store well formed. *)
Theorem syncAll_leaves_local_tasks (env : Env) (w : World) (t : Task.t) :
  store_ok w ->
  In t (tasks w) ->
  Task.source t <> JStr "notion" ->
  idb_get (Task.id t) (tasks (exec (syncAllConnections env) w)) = Some t /\
  store_ok (exec (syncAllConnections env) w).
Proof.
  intros Hok Hin Hsrc. unfold exec. rewrite syncAllConnections_run.
  cbn [snd].
  assert (G : idb_get (Task.id t) (tasks w) = Some t)
    by now apply store_ok_get.
  clear Hin. generalize (filter eligible (connections w)) as l. intro l.
  revert w Hok G.
  induction l as [|c l IH]; intros w Hok G; cbn [fold_left]; [now split|].
  apply IH.
  - unfold sync_and_log. now apply (syncConnection_ok env c).
  - unfold sync_and_log.
    change (tasks (exec (console_write ?line) ?x)) with (tasks x).
    apply syncConnection_untouched; [assumption| |assumption].
    exact (idb_get_In _ _ _ G).
Qed.

Lemma syncAll_leaves_local_tasks_witness :
  idb_get 1
    (tasks (exec (syncAllConnections (env_with [todo_x_done]))
                 (world_of [local_task 1 "Buy milk";
                            notion_task 2 "y" "Old" 0 1] 3)))
  = Some (local_task 1 "Buy milk").
Proof.
  assert (H1 : store_ok (world_of [local_task 1 "Buy milk";
                                   notion_task 2 "y" "Old" 0 1] 3))
    by (unfold store_ok; simpl; split; repeat constructor).
  assert (H2 : In (local_task 1 "Buy milk")
                 (tasks (world_of [local_task 1 "Buy milk";
                                   notion_task 2 "y" "Old" 0 1] 3)))
    by (simpl; now left).
  assert (H3 : Task.source (local_task 1 "Buy milk") <> JStr "notion")
    by (simpl; discriminate).
  exact (proj1 (syncAll_leaves_local_tasks (env_with [todo_x_done])
                  _ _ H1 H2 H3)).
Defined.

(** [syncAllConnections] writes exactly one console line for each
    connection it does not skip, in the order of the store, and the line
    names that connection; it writes nothing else. *)
Theorem syncAll_console (env : Env) (w : World) :
  exists lines,
    console (exec (syncAllConnections env) w) = console w ++ lines /\
    map line_name lines
    = map (fun c => Some (Conn.name c)) (filter eligible (connections w)).
Proof.
  unfold exec. rewrite syncAllConnections_run. cbn [snd].
  generalize (filter eligible (connections w)) as l. intro l. revert w.
  induction l as [|c l IH]; intro w; cbn [fold_left].
  - exists []. now rewrite app_nil_r.
  - destruct (IH (sync_and_log env w c)) as (lines & E & N).
    destruct (syncConnection_calls env c w) as (_ & C).
    assert (L : exists line,
              console (sync_and_log env w c) = console w ++ [line] /\
              line_name line = Some (Conn.name c)).
    { unfold sync_and_log. eexists. split.
      - change (console (exec (console_write ?l) ?x)) with (console x ++ [l]).
        rewrite C. reflexivity.
      - now destruct (outcome (syncConnection env c) w). }
    destruct L as (line & L1 & L2).
    exists (line :: lines). rewrite E, L1, <- app_assoc.
    split; [reflexivity|]. cbn [map]. now rewrite L2, N.
Qed.

(** ** More about [pushTaskToNotion] *)

Lemma find_none_all {A} (f : A -> bool) (l : list A) :
  (forall x, In x l -> f x = false) -> find f l = None.
Proof.
  induction l as [|x l IH]; intro H; simpl; [reflexivity|].
  rewrite (H x) by now left. apply IH. intros y Hy. apply H. now right.
Qed.

(** [pushTaskToNotion] does nothing at all (no request, no console line,
    no change of any store) for a task whose source is not ['notion'],
    for a task without [source_id], and for a task none of whose enabled
    connections is in the store. *)
Theorem pushTaskToNotion_unlinked
    (env : Env) (task : Task.t) (updates : JsObj) (w : World) :
  Task.source task <> JStr "notion" \/
  truthy (Task.source_id task) = false \/
  (forall c, In c (connections w) ->
             JNum (Conn.id c) = Task.connection_id task ->
             truthy (Conn.enabled c) = false) ->
  pushTaskToNotion env task updates w = (Ok tt, w).
Proof.
  intros H. unfold pushTaskToNotion, pushTaskToNotion_idb, idbReq.
  destruct (js_eqb (Task.source task) (JStr "notion")) eqn:Es; cbn [negb orb];
    [|reflexivity].
  destruct (truthy (Task.source_id task)) eqn:Et; cbn [negb]; [|reflexivity].
  apply js_eqb_eq in Es.
  destruct H as [H|[H|H]]; [contradiction|discriminate|].
  unfold bind, dbGetAllConnections, connections_getAll.
  rewrite find_none_all; [reflexivity|].
  intros c Hc. destruct (js_eqb (JNum (Conn.id c)) _) eqn:E; [|reflexivity].
  apply js_eqb_eq in E. cbn [andb]. now apply H.
Qed.

Lemma pushTaskToNotion_unlinked_witness :
  pushTaskToNotion (env_with []) (local_task 1 "Buy milk")
                   [("completed", JBool true)]
                   (world_of [local_task 1 "Buy milk"] 2)
  = (Ok tt, world_of [local_task 1 "Buy milk"] 2).
Proof.
  assert (H : Task.source (local_task 1 "Buy milk") <> JStr "notion")
    by (simpl; discriminate).
  exact (pushTaskToNotion_unlinked (env_with []) (local_task 1 "Buy milk")
           [("completed", JBool true)]
           (world_of [local_task 1 "Buy milk"] 2) (or_introl H)).
Defined.

Lemma pushTaskToNotion_linked
    (env : Env) (task : Task.t) (updates : JsObj) (w : World) (c : Conn.t) :
  Task.source task = JStr "notion" ->
  truthy (Task.source_id task) = true ->
  push_target task w = Some c ->
  pushTaskToNotion env task updates w =
  try_catch
    ((if negb (js_eqb (prop updates "completed") JUndefined) then
        notionUpdateTodoChecked env (Conn.token (Conn.config c))
          (Task.source_id task) (truthy (prop updates "completed"))
      else ret tt) ;;;
     (if negb (js_eqb (prop updates "title") JUndefined)
         && negb (js_eqb (prop updates "title") (Task.title task))
      then
        notionUpdateTodoText env (Conn.token (Conn.config c))
          (Task.source_id task) (prop updates "title")
      else ret tt))
    (fun message => console_write (NotionPushFailed message)) w.
Proof.
  intros Hs Ht Hc. unfold pushTaskToNotion, pushTaskToNotion_idb, idbReq.
  rewrite Hs, Ht, js_eqb_refl. cbn [negb orb].
  unfold bind at 1, dbGetAllConnections, connections_getAll.
  unfold push_target in Hc. now rewrite Hc.
Qed.

(** For a Notion task with a [source_id] and an enabled connection,
    when the Notion API accepts every request, [pushTaskToNotion] sends
    the completed flag if [updates.completed] is not [undefined], then
    the title if [updates.title] is not [undefined] and differs from the
    title of the task passed, through the token of that connection, and
    writes nothing to the console. *)
Theorem pushTaskToNotion_sends
    (env : Env) (task : Task.t) (updates : JsObj) (w : World) (c : Conn.t) :
  (forall history call, patch env history call = None) ->
  Task.source task = JStr "notion" ->
  truthy (Task.source_id task) = true ->
  push_target task w = Some c ->
  calls (exec (pushTaskToNotion env task updates) w)
  = calls w
    ++ (if js_eqb (prop updates "completed") JUndefined then []
        else [UpdateTodoChecked (Conn.token (Conn.config c))
                (Task.source_id task) (truthy (prop updates "completed"))])
    ++ (if js_eqb (prop updates "title") JUndefined
           || js_eqb (prop updates "title") (Task.title task) then []
        else [UpdateTodoText (Conn.token (Conn.config c))
                (Task.source_id task) (prop updates "title")]) /\
  console (exec (pushTaskToNotion env task updates) w) = console w.
Proof.
  intros Hp Hs Ht Hc. unfold exec.
  rewrite (pushTaskToNotion_linked env task updates w c Hs Ht Hc).
  unfold try_catch, bind, notionUpdateTodoChecked, notionUpdateTodoText,
    notion_patch, console_write, ret.
  destruct (js_eqb (prop updates "completed") JUndefined);
    destruct (js_eqb (prop updates "title") JUndefined);
    destruct (js_eqb (prop updates "title") (Task.title task));
    cbn [negb andb orb calls]; rewrite ?Hp; cbn; rewrite ?Hp; cbn;
    rewrite ?app_nil_r, <- ?app_assoc; split; reflexivity.
Qed.

(** When the push of the completed flag fails, [pushTaskToNotion] sends
    nothing after it, not even a changed title, and writes the error to
    the console. *)
Theorem pushTaskToNotion_first_failure_stops
    (env : Env) (task : Task.t) (updates : JsObj) (w : World) (c : Conn.t)
    (message : string) :
  Task.source task = JStr "notion" ->
  truthy (Task.source_id task) = true ->
  push_target task w = Some c ->
  prop updates "completed" <> JUndefined ->
  patch env (calls w)
    (UpdateTodoChecked (Conn.token (Conn.config c)) (Task.source_id task)
       (truthy (prop updates "completed"))) = Some message ->
  calls (exec (pushTaskToNotion env task updates) w)
  = calls w
    ++ [UpdateTodoChecked (Conn.token (Conn.config c)) (Task.source_id task)
          (truthy (prop updates "completed"))] /\
  console (exec (pushTaskToNotion env task updates) w)
  = console w ++ [NotionPushFailed message].
Proof.
  intros Hs Ht Hc Hu Hp. unfold exec.
  rewrite (pushTaskToNotion_linked env task updates w c Hs Ht Hc).
  apply js_eqb_neq in Hu. rewrite Hu. cbn [negb].
  unfold try_catch, bind, notionUpdateTodoChecked, notion_patch,
    console_write.
  rewrite Hp. cbn. split; reflexivity.
Qed.

Lemma pushTaskToNotion_sends_witness :
  calls (exec (pushTaskToNotion (env_with []) (notion_task 1 "x" "A" 0 1)
                 [("completed", JBool true); ("title", JStr "A")])
              (world_of [notion_task 1 "x" "A" 0 1] 2))
  = [UpdateTodoChecked "secret" (JStr "x") true].
Proof.
  assert (H1 : forall history call, patch (env_with []) history call = None)
    by reflexivity.
  assert (H2 : Task.source (notion_task 1 "x" "A" 0 1) = JStr "notion")
    by reflexivity.
  assert (H3 : truthy (Task.source_id (notion_task 1 "x" "A" 0 1)) = true)
    by reflexivity.
  assert (H4 : push_target (notion_task 1 "x" "A" 0 1)
                 (world_of [notion_task 1 "x" "A" 0 1] 2) = Some conn1)
    by reflexivity.
  exact (proj1 (pushTaskToNotion_sends (env_with [])
                  (notion_task 1 "x" "A" 0 1)
                  [("completed", JBool true); ("title", JStr "A")]
                  (world_of [notion_task 1 "x" "A" 0 1] 2) conn1
                  H1 H2 H3 H4)).
Defined.

Lemma pushTaskToNotion_first_failure_stops_witness :
  calls (exec (pushTaskToNotion env_down (notion_task 1 "x" "A" 0 1)
                 [("completed", JBool true); ("title", JStr "B")])
              (world_of [notion_task 1 "x" "A" 0 1] 2))
  = [UpdateTodoChecked "secret" (JStr "x") true] /\
  console (exec (pushTaskToNotion env_down (notion_task 1 "x" "A" 0 1)
                   [("completed", JBool true); ("title", JStr "B")])
                (world_of [notion_task 1 "x" "A" 0 1] 2))
  = [NotionPushFailed "HTTP 502"].
Proof.
  assert (H2 : Task.source (notion_task 1 "x" "A" 0 1) = JStr "notion")
    by reflexivity.
  assert (H3 : truthy (Task.source_id (notion_task 1 "x" "A" 0 1)) = true)
    by reflexivity.
  assert (H4 : push_target (notion_task 1 "x" "A" 0 1)
                 (world_of [notion_task 1 "x" "A" 0 1] 2) = Some conn1)
    by reflexivity.
  assert (H5 : prop [("completed", JBool true); ("title", JStr "B")]
                    "completed" <> JUndefined) by discriminate.
  assert (H6 : patch env_down
                 (calls (world_of [notion_task 1 "x" "A" 0 1] 2))
                 (UpdateTodoChecked (Conn.token (Conn.config conn1))
                    (Task.source_id (notion_task 1 "x" "A" 0 1))
                    (truthy (prop [("completed", JBool true);
                                   ("title", JStr "B")] "completed")))
               = Some "HTTP 502") by reflexivity.
  exact (pushTaskToNotion_first_failure_stops env_down
           (notion_task 1 "x" "A" 0 1)
           [("completed", JBool true); ("title", JStr "B")]
           (world_of [notion_task 1 "x" "A" 0 1] 2) conn1 "HTTP 502"
           H2 H3 H4 H5 H6).
Defined.

(** ** The handlers of the task list *)

Lemma exec_bind_ok {A B} (m : M A) (k : A -> M B) (w : World) (a : A) :
  outcome m w = Ok a -> exec (bind m k) w = exec (k a) (exec m w).
Proof.
  unfold outcome, exec, bind. destruct (m w) as [r w']. cbn.
  now intros ->.
Qed.

Lemma pushTaskToNotion_tasks (env : Env) (task : Task.t) (updates : JsObj)
    (w : World) :
  tasks (exec (pushTaskToNotion env task updates) w) = tasks w /\
  task_key (exec (pushTaskToNotion env task updates) w) = task_key w.
Proof.
  destruct (pushTaskToNotion_run env task updates w)
    as (w' & E & (E1 & _) & E3 & _).
  unfold exec. rewrite E. cbn [snd]. now split.
Qed.

(** [toggleComplete] stores the negation of the completed flag of the
    task object it is handed (which is the flag shown on screen, not
    necessarily the one stored), as 0 or 1, in the record with the key of
    that object, and leaves the other data of the record alone. *)
Theorem toggleComplete_flips
    (env : Env) (task stored : Task.t) (w : World) :
  idb_get (Task.id task) (tasks w) = Some stored ->
  exists new,
    idb_get (Task.id task) (tasks (exec (toggleComplete env task) w))
    = Some new /\
    Task.completed new = (if Task.completed task =? 0 then 1 else 0) /\
    Task.title new = Task.title stored /\
    Task.description new = Task.description stored /\
    Task.due_date new = Task.due_date stored /\
    Task.source new = Task.source stored /\
    Task.source_id new = Task.source_id stored /\
    Task.connection_id new = Task.connection_id stored.
Proof.
  intro G. unfold toggleComplete.
  assert (O : exists new,
            dbUpdateTask env (Task.id task)
              [("completed", JBool (Task.completed task =? 0))] w
            = (Ok (Some new),
               mkWorld (idb_put new (tasks w)) (task_key w) (connections w)
                       (conn_key w) (S (ticks w)) (calls w) (console w)) /\
            new = Task.with_updated_at (clock env (ticks w))
                    (assign_allowed
                       [("completed", JBool (Task.completed task =? 0))]
                       stored)).
  { rewrite dbUpdateTask_run, G. eexists. split; reflexivity. }
  destruct O as (new & O & En).
  rewrite (exec_bind_ok _ _ w (Some new))
    by (unfold outcome; now rewrite O).
  destruct (pushTaskToNotion_tasks env task
              [("completed", JBool (Task.completed task =? 0))]
              (exec (dbUpdateTask env (Task.id task)
                       [("completed", JBool (Task.completed task =? 0))]) w))
    as (T & _).
  rewrite T. unfold exec. rewrite O. cbn [snd tasks].
  exists new. split.
  { rewrite idb_get_put. rewrite En.
    cbn [Task.with_updated_at Task.id].
    destruct (assign_allowed_frame
                [("completed", JBool (Task.completed task =? 0))] stored)
      as (-> & _).
    now rewrite (idb_get_id _ _ _ G), Z.eqb_refl. }
  rewrite En. unfold assign_allowed, allowed. cbn.
  destruct (Task.completed task =? 0); cbn; repeat split; reflexivity.
Qed.

Lemma toggleComplete_flips_witness :
  exists new,
    idb_get (Task.id (local_task 1 "Buy milk"))
      (tasks (exec (toggleComplete (env_with []) (local_task 1 "Buy milk"))
                   (world_of [local_task 1 "Buy milk"] 2)))
    = Some new /\
    Task.completed new = 1.
Proof.
  assert (H : idb_get (Task.id (local_task 1 "Buy milk"))
                (tasks (world_of [local_task 1 "Buy milk"] 2))
              = Some (local_task 1 "Buy milk")) by reflexivity.
  destruct (toggleComplete_flips (env_with []) (local_task 1 "Buy milk")
              (local_task 1 "Buy milk")
              (world_of [local_task 1 "Buy milk"] 2) H)
    as (new & A & B & _).
  exists new. exact (conj A B).
Defined.

(** For a Notion task with a [source_id] and an enabled connection in
    the store, [toggleComplete] sends exactly one request, the new
    completed flag, whether the Notion API accepts it or not. *)
Theorem toggleComplete_pushes
    (env : Env) (task : Task.t) (w : World) (c : Conn.t) :
  Task.source task = JStr "notion" ->
  truthy (Task.source_id task) = true ->
  push_target task w = Some c ->
  calls (exec (toggleComplete env task) w)
  = calls w
    ++ [UpdateTodoChecked (Conn.token (Conn.config c)) (Task.source_id task)
          (Task.completed task =? 0)].
Proof.
  intros Hs Ht Hc. unfold toggleComplete.
  set (fields := [("completed", JBool (Task.completed task =? 0))]).
  assert (O : exists r w1,
            dbUpdateTask env (Task.id task) fields w = (Ok r, w1) /\
            calls w1 = calls w /\ connections w1 = connections w).
  { rewrite dbUpdateTask_run. destruct (idb_get _ _); eauto. }
  destruct O as (r & w1 & O & C1 & C2).
  rewrite (exec_bind_ok _ _ w r) by (unfold outcome; now rewrite O).
  assert (E1 : exec (dbUpdateTask env (Task.id task) fields) w = w1)
    by (unfold exec; now rewrite O).
  rewrite E1.
  assert (Hc1 : push_target task w1 = Some c)
    by (unfold push_target in *; now rewrite C2).
  unfold exec. rewrite (pushTaskToNotion_linked env task fields w1 c Hs Ht Hc1).
  unfold fields. cbn [prop fold_left fst snd String.eqb Ascii.eqb Bool.eqb
                      js_eqb negb andb truthy].
  unfold try_catch, bind, notionUpdateTodoChecked, notion_patch,
    console_write, ret.
  destruct (patch env (calls w1) _); cbn; now rewrite C1.
Qed.

Lemma toggleComplete_pushes_witness :
  calls (exec (toggleComplete env_down (notion_task 1 "x" "A" 0 1))
              (world_of [notion_task 1 "x" "A" 0 1] 2))
  = [UpdateTodoChecked "secret" (JStr "x") true].
Proof.
  assert (H2 : Task.source (notion_task 1 "x" "A" 0 1) = JStr "notion")
    by reflexivity.
  assert (H3 : truthy (Task.source_id (notion_task 1 "x" "A" 0 1)) = true)
    by reflexivity.
  assert (H4 : push_target (notion_task 1 "x" "A" 0 1)
                 (world_of [notion_task 1 "x" "A" 0 1] 2) = Some conn1)
    by reflexivity.
  exact (toggleComplete_pushes env_down (notion_task 1 "x" "A" 0 1)
           (world_of [notion_task 1 "x" "A" 0 1] 2) conn1 H2 H3 H4).
Defined.

(** The task form creates nothing when the title is empty.  Otherwise it
    adds exactly one record at the end of the store, under the key of
    the generator: a local task that is not completed, with the title and
    the description typed in, the due date typed in or [null], and no
    [source_id], [source_url] or [connection_id]; it sends no request. *)
Theorem taskForm_submit_creates
    (env : Env) (title description due : string) (w : World) :
  (title = "" -> exec (taskForm_submit env title description due) w = w) /\
  (title <> "" ->
   tasks (exec (taskForm_submit env title description due) w)
   = tasks w
     ++ [Task.mk (task_key w) (JStr title) (JStr description) 0
           (if (due =? "")%string then JNull else JStr due)
           (JStr "local") JNull JNull JNull
           (clock env (ticks w)) (clock env (ticks w))] /\
   task_key (exec (taskForm_submit env title description due) w)
   = task_key w + 1 /\
   calls (exec (taskForm_submit env title description due) w) = calls w).
Proof.
  unfold taskForm_submit. split.
  - intros ->. reflexivity.
  - intro H. apply String.eqb_neq in H. rewrite H.
    unfold exec, bind. rewrite dbCreateTask_run. cbn [snd ret tasks task_key calls].
    split; [|split; reflexivity]. f_equal. f_equal. unfold new_task.
    destruct (String.eqb_spec description ""), (String.eqb_spec due "");
      subst; cbn [negb app];
      repeat match goal with
             | |- context [prop ?b ?k] =>
                 let v := eval cbv in (prop b k) in change (prop b k) with v
             end;
      rewrite ?js_or_JStr_empty, ?js_or_sid by assumption;
      unfold js_or; cbn [truthy]; reflexivity.
Qed.

(** The edit form changes nothing when the title is empty.  Otherwise,
    for a stored key, it writes the title, the due date typed in or
    [null], and the description unless the description input is
    disabled, which is how the page label of a Notion task survives an
    edit; the completed flag, the source and the link to Notion stay. *)
Theorem editForm_submit_writes
    (env : Env) (id : Z) (title : string) (description : option string)
    (due : string) (w : World) (old : Task.t) :
  (title = "" ->
   exec (editForm_submit env id title description due) w = w) /\
  (title <> "" -> idb_get id (tasks w) = Some old ->
   exists new,
     idb_get id (tasks (exec (editForm_submit env id title description due) w))
     = Some new /\
     Task.title new = JStr title /\
     Task.description new =
       match description with
       | Some d => JStr d
       | None => Task.description old
       end /\
     Task.due_date new = (if (due =? "")%string then JNull else JStr due) /\
     Task.completed new = Task.completed old /\
     Task.source new = Task.source old /\
     Task.source_id new = Task.source_id old /\
     Task.source_url new = Task.source_url old /\
     Task.connection_id new = Task.connection_id old).
Proof.
  unfold editForm_submit. split.
  - intros ->. reflexivity.
  - intros H G. apply String.eqb_neq in H.
    set (body := [("title", JStr title);
                  ("description",
                   match description with
                   | Some d => JStr d
                   | None => JUndefined
                   end);
                  ("due_date", js_or (JStr due) JNull)]).
    assert (Pt : prop body "title" = JStr title) by reflexivity.
    assert (Pd : prop body "description"
                 = match description with
                   | Some d => JStr d
                   | None => JUndefined
                   end) by reflexivity.
    assert (Pu : prop body "due_date" = js_or (JStr due) JNull)
      by reflexivity.
    assert (Pc : prop body "completed" = JUndefined) by reflexivity.
    assert (Ps : prop body "source_url" = JUndefined) by reflexivity.
    unfold exec at 1, bind at 1, dbGetTask, tasks_get. rewrite G.
    rewrite Pt. cbn [truthy]. rewrite H. cbn [negb snd].
    match goal with
    | |- context [snd (bind ?m ?k w)] =>
        change (snd (bind m k w)) with (exec (bind m k) w)
    end.
    assert (O : dbUpdateTask env id body w
                = (Ok (Some (Task.with_updated_at (clock env (ticks w))
                               (assign_allowed body old))),
                   mkWorld (idb_put (Task.with_updated_at
                                       (clock env (ticks w))
                                       (assign_allowed body old)) (tasks w))
                           (task_key w) (connections w) (conn_key w)
                           (S (ticks w)) (calls w) (console w)))
      by (now rewrite dbUpdateTask_run, G).
    rewrite (exec_bind_ok _ _ w _) by (unfold outcome; now rewrite O).
    destruct (pushTaskToNotion_tasks env old body
                (exec (dbUpdateTask env id body) w)) as (T & _).
    rewrite T. unfold exec. rewrite O. cbn [snd tasks].
    eexists. split.
    { rewrite idb_get_put. cbn [Task.with_updated_at Task.id].
      destruct (assign_allowed_frame body old) as (-> & _).
      now rewrite (idb_get_id _ _ _ G), Z.eqb_refl. }
    destruct (assign_allowed_frame body old) as (_ & F2 & F3 & F4 & _).
    destruct (assign_allowed_fields body old) as (A1 & A2 & A3 & A4).
    pose proof (assign_allowed_completed body old) as A5.
    cbn [Task.with_updated_at Task.title Task.description Task.due_date
         Task.completed Task.source Task.source_id Task.source_url
         Task.connection_id].
    rewrite A1, A2, A3, A4, A5, Pt, Pd, Pu, Pc, Ps.
    cbn [js_eqb].
    split; [reflexivity|].
    split; [now destruct description|].
    split.
    { unfold js_or. cbn [truthy].
      destruct (String.eqb_spec due ""); cbn; reflexivity. }
    repeat split; assumption.
Qed.

Lemma taskForm_submit_creates_witness :
  tasks (exec (taskForm_submit (env_with []) "Buy milk" "" "2024-05-03")
              (world_of [] 1))
  = [Task.mk 1 (JStr "Buy milk") (JStr "") 0 (JStr "2024-05-03")
       (JStr "local") JNull JNull JNull
       "2024-05-01 10:00:00" "2024-05-01 10:00:00"].
Proof.
  assert (H : "Buy milk" <> "") by discriminate.
  exact (proj1 (proj2 (taskForm_submit_creates (env_with []) "Buy milk" ""
                         "2024-05-03" (world_of [] 1)) H)).
Defined.

Lemma editForm_submit_writes_witness :
  exists new,
    idb_get 1
      (tasks (exec (editForm_submit (env_with []) 1 "Report" None "")
                   (world_of [notion_task 1 "x" "A" 0 1] 2)))
    = Some new /\
    Task.title new = JStr "Report" /\
    Task.description new = JStr "Page".
Proof.
  assert (H1 : "Report" <> "") by discriminate.
  assert (H2 : idb_get 1 (tasks (world_of [notion_task 1 "x" "A" 0 1] 2))
               = Some (notion_task 1 "x" "A" 0 1)) by reflexivity.
  destruct (proj2 (editForm_submit_writes (env_with []) 1 "Report" None ""
                     (world_of [notion_task 1 "x" "A" 0 1] 2)
                     (notion_task 1 "x" "A" 0 1)) H1 H2)
    as (new & A & B & C & _).
  exists new. exact (conj A (conj B C)).
Defined.

(** ** Deleting a connection *)

Lemma cascade_get (conn : Conn.t) (l : list Task.t) (w : World) (j : Z) :
  idb_get j (tasks (fold_left (fun w t => cascade_world conn t w) l w)) =
  if existsb (fun t => js_eqb (Task.connection_id t) (JNum (Conn.id conn))
                       && (j =? Task.id t)) l
  then None else idb_get j (tasks w).
Proof.
  revert w. induction l as [|t l IH]; intro w; cbn [fold_left existsb];
    [reflexivity|].
  rewrite IH. unfold cascade_world.
  destruct (js_eqb (Task.connection_id t) (JNum (Conn.id conn)));
    cbn [andb orb tasks]; [|reflexivity].
  rewrite idb_get_delete.
  destruct (j =? Task.id t); cbn [orb]; [now destruct (existsb _ l)|reflexivity].
Qed.

Lemma cascade_frame (conn : Conn.t) (l : list Task.t) (w : World) :
  connections (fold_left (fun w t => cascade_world conn t w) l w)
  = connections w /\
  forall u, In u (tasks (fold_left (fun w t => cascade_world conn t w) l w))
            -> In u (tasks w).
Proof.
  apply (fold_left_keeps
           (fun w' => connections w' = connections w /\
                      forall u, In u (tasks w') -> In u (tasks w)));
    [|now split].
  intros t w' _ (C & S). unfold cascade_world.
  destruct (js_eqb _ _); [|now split]. cbn [connections tasks].
  split; [exact C|]. intros u Hu. apply S. unfold idb_delete in Hu.
  apply filter_In in Hu. tauto.
Qed.

Lemma conn_get_delete (j k : Z) (l : list Conn.t) :
  conn_get j (conn_delete k l) = if j =? k then None else conn_get j l.
Proof.
  induction l as [|u l IH]; simpl.
  - now destruct (j =? k).
  - destruct (Z.eqb_spec (Conn.id u) k) as [E|E]; simpl.
    + rewrite IH. destruct (Z.eqb_spec j k) as [F|F]; [reflexivity|].
      destruct (Z.eqb_spec (Conn.id u) j); [congruence|reflexivity].
    + destruct (Z.eqb_spec (Conn.id u) j) as [F|F].
      * destruct (Z.eqb_spec j k); [congruence|reflexivity].
      * exact IH.
Qed.

Lemma conn_delete_absent (k : Z) (l : list Conn.t) :
  conn_get k l = None -> conn_delete k l = l.
Proof.
  unfold conn_get, conn_delete.
  induction l as [|u l IH]; simpl; [reflexivity|].
  destruct (Conn.id u =? k); [discriminate|]. simpl.
  intro G. now rewrite IH.
Qed.

Lemma btnConnDelete_click_run (env : Env) (conn : Conn.t) (w : World) :
  exists w',
    btnConnDelete_click env conn w = (Ok tt, w') /\
    tasks w' = tasks (fold_left (fun w t => cascade_world conn t w)
                                (local_tasks env w) w) /\
    connections w' = conn_delete (Conn.id conn) (connections w).
Proof.
  unfold btnConnDelete_click. unfold bind at 1.
  rewrite dbGetAllTasks_notion. unfold bind at 1.
  rewrite (forM_run _ (cascade_world conn)).
  2:{ intros t w0. unfold cascade_world.
      destruct (js_eqb _ _); [|reflexivity].
      unfold bind. now rewrite dbDeleteTask_run. }
  destruct (cascade_frame conn (local_tasks env w) w) as (C & _).
  set (W := fold_left _ (local_tasks env w) w) in *.
  unfold bind, dbDeleteConnection, bind, connections_get, connections_delete,
    ret.
  destruct (conn_get (Conn.id conn) (connections W)) as [c|] eqn:G.
  - eexists. split; [reflexivity|]. cbn [tasks connections].
    split; [reflexivity|now rewrite C].
  - eexists. split; [reflexivity|]. split; [reflexivity|].
    rewrite <- C. symmetry. now apply conn_delete_absent.
Qed.

(** Deleting a connection cascades: after [btnConnDelete_click] no
    Notion task with the [connection_id] of the connection is left in the
    store and the connection is gone from its store, while every other
    task is still stored unchanged under its key and every other
    connection is still found. *)
Theorem btnConnDelete_click_cascades
    (env : Env) (conn : Conn.t) (w : World) :
  store_ok w ->
  (forall t, In t (tasks (exec (btnConnDelete_click env conn) w)) ->
     ~ (Task.source t = JStr "notion" /\
        Task.connection_id t = JNum (Conn.id conn))) /\
  (forall t, In t (tasks w) ->
     ~ (Task.source t = JStr "notion" /\
        Task.connection_id t = JNum (Conn.id conn)) ->
     idb_get (Task.id t) (tasks (exec (btnConnDelete_click env conn) w))
     = Some t) /\
  conn_get (Conn.id conn)
           (connections (exec (btnConnDelete_click env conn) w)) = None /\
  (forall j, j <> Conn.id conn ->
     conn_get j (connections (exec (btnConnDelete_click env conn) w))
     = conn_get j (connections w)).
Proof.
  intro Hok.
  destruct (btnConnDelete_click_run env conn w) as (w' & R & T & C).
  unfold exec. rewrite R. cbn [snd]. rewrite T, C. clear R T C.
  destruct (cascade_frame conn (local_tasks env w) w) as (_ & S).
  split; [|split; [|split]].
  - intros t Ht (Hs & Hc).
    assert (N : idb_get (Task.id t)
                  (tasks (fold_left (fun w t => cascade_world conn t w)
                                    (local_tasks env w) w)) = None).
    { rewrite cascade_get. replace (existsb _ _) with true; [reflexivity|].
      symmetry. apply existsb_exists. exists t. split.
      - apply local_tasks_In. split; [now apply S|assumption].
      - now rewrite Hc, js_eqb_refl, Z.eqb_refl. }
    apply idb_get_None in N. apply N. now apply in_map.
  - intros t Ht Hn. rewrite cascade_get.
    destruct (existsb _ _) eqn:E; [|now apply store_ok_get].
    exfalso. apply existsb_exists in E. destruct E as (u & Hu & E).
    apply andb_true_iff in E. destruct E as (E1 & E2).
    apply js_eqb_eq in E1. apply Z.eqb_eq in E2.
    apply local_tasks_In in Hu. destruct Hu as (Hu & Hs).
    assert (u = t) by (apply (store_ok_unique w); auto). subst u.
    apply Hn. now split.
  - now rewrite conn_get_delete, Z.eqb_refl.
  - intros j Hj. rewrite conn_get_delete.
    destruct (Z.eqb_spec j (Conn.id conn)); [contradiction|reflexivity].
Qed.

Lemma btnConnDelete_click_cascades_witness :
  conn_get (Conn.id conn1)
    (connections (exec (btnConnDelete_click (env_with []) conn1)
                       (world_of [notion_task 1 "x" "A" 0 1;
                                  notion_task 2 "y" "B" 0 2] 3)))
  = None.
Proof.
  assert (H : store_ok (world_of [notion_task 1 "x" "A" 0 1;
                                  notion_task 2 "y" "B" 0 2] 3))
    by (unfold store_ok; simpl; split; repeat constructor).
  exact (proj1 (proj2 (proj2 (btnConnDelete_click_cascades (env_with [])
                                conn1 _ H)))).
Defined.

(** ** The Notion client: walking a database *)

Lemma notionCollectTodos_eq (pageTitle pageUrl : string) (answer : Listing) :
  notionCollectTodos pageTitle pageUrl answer =
  match answer with
  | Fails message => inl message
  | Results results has_more next_cursor next =>
      match collect_blocks pageTitle pageUrl results with
      | inl message => inl message
      | inr todos =>
          if has_more && truthy next_cursor then
            match notionCollectTodos pageTitle pageUrl next with
            | inl message => inl message
            | inr more => inr (todos ++ more)
            end
          else inr todos
      end
  end.
Proof.
  destruct answer as [message|results has_more next_cursor next];
    [reflexivity|].
  cbn [notionCollectTodos].
  match goal with
  | |- match ?f results with _ => _ end = _ =>
      assert (E : forall bs, f bs = collect_blocks pageTitle pageUrl bs)
  end.
  { induction bs as [|[id type rich_text checked has_children children] bs IH];
      [reflexivity|].
    cbn [collect_blocks]. rewrite <- IH. reflexivity. }
  now rewrite E.
Qed.

Lemma notionPageTitle_not_empty (properties : list PageProp) :
  notionPageTitle properties <> "".
Proof.
  induction properties as [|p rest IH]; cbn [notionPageTitle];
    [discriminate|].
  destruct (prop_title p) as [texts|]; [|exact IH].
  destruct (prop_type p =? "title")%string; [|exact IH].
  destruct (String.eqb_spec (String.concat "" texts) "");
    [discriminate|assumption].
Qed.

(** [notionPageTitle] never returns the empty string: a page whose title
    property is missing, or present with empty text, is called
    ['Untitled']; in particular it is ['Untitled'] when no property is a
    title property with a [title] field. *)
Theorem notionPageTitle_nonempty (properties : list PageProp) :
  notionPageTitle properties <> "" /\
  ((forall p, In p properties ->
      prop_type p <> "title" \/ prop_title p = None) ->
   notionPageTitle properties = "Untitled").
Proof.
  split; [apply notionPageTitle_not_empty|].
  induction properties as [|p rest IH]; intro H; cbn [notionPageTitle];
    [reflexivity|].
  assert (IH' : notionPageTitle rest = "Untitled")
    by (apply IH; intros q Hq; apply H; now right).
  destruct (H p (or_introl eq_refl)) as [Ht|Hn].
  - destruct (prop_title p); [|exact IH'].
    apply String.eqb_neq in Ht. now rewrite Ht.
  - now rewrite Hn.
Qed.

Lemma notionPageTitle_nonempty_witness :
  notionPageTitle [mkPageProp "checkbox" None;
                   mkPageProp "rich_text" (Some ["Week 18"])] = "Untitled".
Proof.
  assert (H : forall p,
             In p [mkPageProp "checkbox" None;
                   mkPageProp "rich_text" (Some ["Week 18"])] ->
             prop_type p <> "title" \/ prop_title p = None).
  { intros p [<-|[<-|[]]]; [now right|left; discriminate]. }
  exact (proj2 (notionPageTitle_nonempty _) H).
Defined.

Lemma append_nonempty_r (a b : string) : b <> "" -> (a ++ b)%string <> "".
Proof.
  intro H. destruct a; cbn; [exact H|discriminate].
Qed.

Lemma collect_blocks_ok (pageTitle pageUrl : string) (bs : list Block) :
  (forall b, In b bs ->
     match b with
     | mkBlock _ _ _ _ _ children =>
         forall todos,
           notionCollectTodos pageTitle pageUrl children = inr todos ->
           Forall (item_ok pageTitle pageUrl) todos
     end) ->
  forall todos,
    collect_blocks pageTitle pageUrl bs = inr todos ->
    Forall (item_ok pageTitle pageUrl) todos.
Proof.
  induction bs as [|[id type rich_text checked has_children children] bs IH];
    intros Hc todos E; cbn [collect_blocks] in E.
  - injection E as <-. constructor.
  - assert (Hn : forall nested,
              (if has_children
               then notionCollectTodos pageTitle pageUrl children
               else inr []) = inr nested ->
              Forall (item_ok pageTitle pageUrl) nested).
    { intros nested En. destruct has_children.
      - exact (Hc _ (or_introl eq_refl) nested En).
      - injection En as <-. constructor. }
    destruct (if has_children then _ else _) as [m|nested]; [discriminate|].
    destruct (collect_blocks pageTitle pageUrl bs) as [m|rest] eqn:Er;
      [discriminate|].
    injection E as <-.
    apply Forall_app. split; [|apply Forall_app; split].
    + destruct (type =? "to_do")%string; cbn [andb]; [|constructor].
      destruct (String.eqb_spec (String.concat "" rich_text) "");
        cbn [negb]; constructor; [|constructor].
      unfold item_ok, todo_of_block. cbn. eauto.
    + now apply Hn.
    + apply IH; [|reflexivity]. intros b Hb. apply Hc. now right.
Qed.

Lemma notionCollectTodos_ok (pageTitle pageUrl : string) :
  forall (answer : Listing) (todos : list Todo.t),
    notionCollectTodos pageTitle pageUrl answer = inr todos ->
    Forall (item_ok pageTitle pageUrl) todos.
Proof.
  fix IH 1. intros answer todos E. rewrite notionCollectTodos_eq in E.
  destruct answer as [message|results has_more next_cursor next];
    [discriminate|].
  destruct (collect_blocks pageTitle pageUrl results) as [m|own] eqn:Eb;
    [discriminate|].
  assert (Hown : Forall (item_ok pageTitle pageUrl) own).
  { apply (collect_blocks_ok pageTitle pageUrl results); [|exact Eb].
    clear - IH. induction results as [|b bs IHb]; intros b' Hb'.
    - contradiction.
    - destruct Hb' as [<-|Hb'].
      + destruct b as [id type rich_text checked has_children children].
        intros todos E. exact (IH children todos E).
      + now apply IHb. }
  destruct (has_more && truthy next_cursor).
  - destruct (notionCollectTodos pageTitle pageUrl next) as [m|more] eqn:En;
      [discriminate|].
    injection E as <-. apply Forall_app. split; [exact Hown|].
    exact (IH next more En).
  - injection E as <-. exact Hown.
Qed.

Lemma collect_pages_ok (pages : list NotionPage) (todos : list Todo.t) :
  collect_pages pages = inr todos ->
  Forall (fun x => Todo.title x <> "" /\ Todo.description x <> "" /\
                   Todo.source_url x <> "") todos.
Proof.
  revert todos. induction pages as [|page rest IH]; intros todos E;
    cbn [collect_pages] in E.
  - injection E as <-. constructor.
  - destruct (notionCollectTodos _ _ (page_blocks page)) as [m|own] eqn:Eo;
      [discriminate|].
    destruct (collect_pages rest) as [m|more]; [discriminate|].
    injection E as <-. apply Forall_app. split; [|now apply IH].
    apply notionCollectTodos_ok in Eo.
    eapply Forall_impl; [|exact Eo].
    intros x (H1 & H2 & id & _ & H3). split; [exact H1|]. split.
    + rewrite H2. apply notionPageTitle_not_empty.
    + rewrite H3. apply append_nonempty_r. discriminate.
Qed.

(** Every item [notionFetchTodos] returns has a title (a to-do block
    with empty text is left out), a page label (the title of its page,
    ['Untitled'] at worst) and a deep link. *)
Theorem notionFetchTodos_items (answer : Query) (todos : list Todo.t) :
  notionFetchTodos_walk answer = inr todos ->
  Forall (fun x => Todo.title x <> "" /\ Todo.description x <> "" /\
                   Todo.source_url x <> "") todos.
Proof.
  revert todos.
  induction answer as [message|results has_more next_cursor next IH];
    intros todos E; cbn [notionFetchTodos_walk] in E; [discriminate|].
  destruct (collect_pages results) as [m|own] eqn:Eo; [discriminate|].
  apply collect_pages_ok in Eo.
  destruct (has_more && truthy next_cursor).
  - destruct (notionFetchTodos_walk next) as [m|more]; [discriminate|].
    injection E as <-. apply Forall_app. split; [exact Eo|now apply IH].
  - now injection E as <-.
Qed.

Lemma collect_blocks_app (pageTitle pageUrl : string) (a b : list Block) :
  collect_blocks pageTitle pageUrl (a ++ b) =
  match collect_blocks pageTitle pageUrl a with
  | inl message => inl message
  | inr x =>
      match collect_blocks pageTitle pageUrl b with
      | inl message => inl message
      | inr y => inr (x ++ y)
      end
  end.
Proof.
  induction a as [|[id type rich_text checked has_children children] a IH];
    cbn [app collect_blocks].
  - now destruct (collect_blocks pageTitle pageUrl b).
  - destruct (if has_children then _ else _) as [m|nested]; [reflexivity|].
    rewrite IH.
    destruct (collect_blocks pageTitle pageUrl a) as [m|x]; [reflexivity|].
    destruct (collect_blocks pageTitle pageUrl b) as [m|y]; [reflexivity|].
    now rewrite <- !app_assoc.
Qed.

(** Pagination does not show in the result of [notionCollectTodos]: when
    the children of a block arrive in two pages, the outcome (the list
    of items, or the error of the first request that fails) is the one
    the same blocks would give in a single page. *)
Theorem notionCollectTodos_pages_merge
    (pageTitle pageUrl : string) (first second : list Block)
    (cursor next_cursor : JsVal) (has_more : bool) (next : Listing) :
  truthy cursor = true ->
  notionCollectTodos pageTitle pageUrl
    (Results first true cursor (Results second has_more next_cursor next))
  = notionCollectTodos pageTitle pageUrl
      (Results (first ++ second) has_more next_cursor next).
Proof.
  intro Hc.
  rewrite (notionCollectTodos_eq _ _ (Results first _ _ _)).
  rewrite (notionCollectTodos_eq _ _ (Results second _ _ _)).
  rewrite (notionCollectTodos_eq _ _ (Results (first ++ second) _ _ _)).
  rewrite collect_blocks_app, Hc. cbn [andb].
  destruct (collect_blocks pageTitle pageUrl first) as [m|x]; [reflexivity|].
  destruct (collect_blocks pageTitle pageUrl second) as [m|y]; [reflexivity|].
  destruct (has_more && truthy next_cursor); [|reflexivity].
  destruct (notionCollectTodos pageTitle pageUrl next) as [m|z];
    [reflexivity|].
  now rewrite app_assoc.
Qed.

Lemma notionFetchTodos_items_witness :
  Forall (fun x => Todo.title x <> "" /\ Todo.description x <> "" /\
                   Todo.source_url x <> "")
    [ Todo.mk "a-1" "Write report" true "Week 18" "https://notion.so/p1#a1";
      Todo.mk "c-3" "Call Ann" false "Week 18" "https://notion.so/p1#c3" ].
Proof.
  assert (H : notionFetchTodos_walk example_query
              = inr [ Todo.mk "a-1" "Write report" true "Week 18"
                              "https://notion.so/p1#a1";
                      Todo.mk "c-3" "Call Ann" false "Week 18"
                              "https://notion.so/p1#c3" ])
    by reflexivity.
  exact (notionFetchTodos_items example_query _ H).
Defined.

Lemma notionCollectTodos_pages_merge_witness :
  notionCollectTodos "Week 18" "https://notion.so/p1"
    (Results [mkBlock "a-1" "to_do" ["Write report"] true false
                      (Fails "unused")]
             true (JStr "cursor-1")
             (Results [mkBlock "c-3" "to_do" ["Call Ann"] false false
                               (Fails "unused")]
                      false JNull (Fails "unused")))
  = notionCollectTodos "Week 18" "https://notion.so/p1"
      (Results ([mkBlock "a-1" "to_do" ["Write report"] true false
                         (Fails "unused")]
                ++ [mkBlock "c-3" "to_do" ["Call Ann"] false false
                            (Fails "unused")])
               false JNull (Fails "unused")).
Proof.
  assert (H : truthy (JStr "cursor-1") = true) by reflexivity.
  exact (notionCollectTodos_pages_merge "Week 18" "https://notion.so/p1"
           _ _ (JStr "cursor-1") JNull false (Fails "unused") H).
Defined.

(** ** Connections CRUD *)

Lemma conn_get_app (j : Z) (l l' : list Conn.t) :
  conn_get j (l ++ l') =
  match conn_get j l with Some c => Some c | None => conn_get j l' end.
Proof.
  induction l as [|u l IH]; simpl; [reflexivity|].
  now destruct (Conn.id u =? j).
Qed.

Lemma conn_get_None (k : Z) (l : list Conn.t) :
  conn_get k l = None <-> ~ In k (map Conn.id l).
Proof.
  induction l as [|u l IH]; simpl; [tauto|].
  destruct (Z.eqb_spec (Conn.id u) k); [intuition discriminate|].
  rewrite IH. tauto.
Qed.

(** [dbCreateConnection] stores the connection under the key of the
    generator: it is enabled, has never been synced, carries the type,
    name and configuration given, and is found under its key afterwards,
    as is every connection stored before; a connection of type
    ['notion'] is one [syncAllConnections] will not skip.  The task store
    is not touched. *)
Theorem dbCreateConnection_adds
    (env : Env) (type name : string) (config : Conn.config_t) (w : World) :
  Forall (fun c => Conn.id c < conn_key w) (connections w) ->
  exists c,
    outcome (dbCreateConnection env type name config) w = Ok c /\
    c = Conn.mk (conn_key w) type name config (JNum 1) JNull
                (clock env (ticks w)) /\
    eligible c = (type =? "notion")%string /\
    conn_get (Conn.id c)
      (connections (exec (dbCreateConnection env type name config) w))
    = Some c /\
    (forall j c', conn_get j (connections w) = Some c' ->
       conn_get j
         (connections (exec (dbCreateConnection env type name config) w))
       = Some c') /\
    conn_key (exec (dbCreateConnection env type name config) w)
    = conn_key w + 1 /\
    tasks (exec (dbCreateConnection env type name config) w) = tasks w.
Proof.
  intro F. eexists. unfold outcome, exec, dbCreateConnection, bind, localNow,
    connections_add, ret.
  cbn [fst snd connections conn_key tasks ticks Conn.id].
  split; [reflexivity|]. split; [reflexivity|]. split; [reflexivity|].
  split.
  { rewrite conn_get_app.
    assert (N : conn_get (conn_key w) (connections w) = None).
    { apply conn_get_None. intro H. apply in_map_iff in H.
      destruct H as (c & E & Hc). rewrite Forall_forall in F.
      specialize (F c Hc). lia. }
    cbn [Conn.id]. rewrite N. cbn. now rewrite Z.eqb_refl. }
  split; [intros j c' G; now rewrite conn_get_app, G|].
  split; reflexivity.
Qed.

Lemma dbCreateConnection_adds_witness :
  exists c,
    outcome (dbCreateConnection (env_with []) "notion" "Work"
               (Conn.mk_config "secret" "db-1")) initial_world = Ok c /\
    c = Conn.mk (conn_key initial_world) "notion" "Work"
                (Conn.mk_config "secret" "db-1") (JNum 1) JNull
                (clock (env_with []) (ticks initial_world)).
Proof.
  assert (H : Forall (fun c => Conn.id c < conn_key initial_world)
                     (connections initial_world)) by constructor.
  destruct (dbCreateConnection_adds (env_with []) "notion" "Work"
              (Conn.mk_config "secret" "db-1") initial_world H)
    as (c & A & B & _).
  exists c. exact (conj A B).
Defined.

(** ** The badges of the tab bar *)

Lemma filter_split_length {A} (p : A -> bool) (l : list A) :
  (List.length (filter p l) + List.length (filter (fun x => negb (p x)) l)
   = List.length l)%nat.
Proof.
  induction l as [|x l IH]; simpl; [reflexivity|].
  destruct (p x); simpl; lia.
Qed.

(** The badges agree with the lists: the number on each tab is the
    length of the list that tab shows for the selected source, and the
    numbers of the active and the done tab add up to the number of the
    tab that shows all. *)
Theorem badges_match_lists (allTasks : list Task.t) (currentSource : string) :
  updateBadges allTasks currentSource
  = (List.length (getFilteredTasks allTasks currentSource "all"),
     List.length (getFilteredTasks allTasks currentSource "active"),
     List.length (getFilteredTasks allTasks currentSource "done")) /\
  (List.length (getFilteredTasks allTasks currentSource "active")
   + List.length (getFilteredTasks allTasks currentSource "done")
   = List.length (getFilteredTasks allTasks currentSource "all"))%nat.
Proof.
  unfold updateBadges, getFilteredTasks, source_view.
  cbn [String.eqb Ascii.eqb Bool.eqb].
  split; [reflexivity|]. apply filter_split_length.
Qed.

(** ** Masking a token *)

Lemma string_length_app (a b : string) :
  String.length (a ++ b)%string = (String.length a + String.length b)%nat.
Proof. induction a as [|c a IH]; cbn; [reflexivity|now rewrite IH]. Qed.

Lemma substring_prefix (p r : string) :
  substring 0 (String.length p) (p ++ r)%string = p.
Proof. induction p as [|c p IH]; cbn; [now destruct r|now rewrite IH]. Qed.

Lemma substring_skip (a s : string) (n : nat) :
  substring (String.length a) n (a ++ s)%string = substring 0 n s.
Proof. induction a as [|c a IH]; cbn; [reflexivity|exact IH]. Qed.

Lemma substring_all (s : string) : substring 0 (String.length s) s = s.
Proof. induction s as [|c s IH]; cbn; [reflexivity|now rewrite IH]. Qed.

(** [maskToken] shows nothing of a token shorter than twelve characters,
    and of a longer one only the first eight and the last four: what lies
    between them does not show in the result. *)
Theorem maskToken_hides :
  (forall t, (String.length t < 12)%nat -> maskToken t = "***") /\
  (forall first middle last,
     String.length first = 8%nat -> String.length last = 4%nat ->
     maskToken (first ++ middle ++ last)%string
     = (first ++ "..." ++ last)%string).
Proof.
  split.
  - intros t H. unfold maskToken. apply Nat.ltb_lt in H. rewrite H.
    now rewrite orb_true_r.
  - intros f m l Hf Hl. unfold maskToken.
    assert (Hlen : String.length (f ++ m ++ l)%string
                   = (8 + String.length m + 4)%nat)
      by (rewrite !string_length_app, Hf, Hl; lia).
    assert (Hne : ((f ++ m ++ l) =? "")%string = false).
    { apply String.eqb_neq. intro E. rewrite E in Hlen. cbn in Hlen. lia. }
    assert (Hlt : (String.length (f ++ m ++ l)%string <? 12)%nat = false)
      by (apply Nat.ltb_ge; lia).
    rewrite Hne, Hlt. cbn [orb]. f_equal; [|f_equal].
    + rewrite <- Hf. apply substring_prefix.
    + replace (String.length (f ++ m ++ l)%string - 4)%nat
        with (String.length (f ++ m)%string)
        by (rewrite Hlen, string_length_app, Hf; lia).
      replace (f ++ m ++ l)%string with ((f ++ m) ++ l)%string.
      * rewrite substring_skip, <- Hl. apply substring_all.
      * clear. induction f as [|c f IH]; cbn; [reflexivity|now rewrite IH].
Qed.

Lemma maskToken_hides_witness :
  maskToken "secret_ABCDEFGHIJKLMNOP_wxyz" = "secret_A...wxyz".
Proof.
  assert (H1 : String.length "secret_A" = 8%nat) by reflexivity.
  assert (H2 : String.length "wxyz" = 4%nat) by reflexivity.
  exact (proj2 maskToken_hides "secret_A" "BCDEFGHIJKLMNOP_" "wxyz" H1 H2).
Defined.

(** ** The service worker *)

Lemma cache_match_put (url : string) (c : Cache) (e : string * Response) :
  cache_match url (cache_put c e) =
  if (fst e =? url)%string then Some (snd e) else cache_match url c.
Proof.
  unfold cache_match, cache_put.
  induction c as [|e' c IH]; cbn [filter app find].
  - destruct (fst e =? url)%string; reflexivity.
  - destruct (String.eqb_spec (fst e') (fst e)) as [E|N]; cbn [negb].
    + rewrite IH, E. destruct (fst e =? url)%string; reflexivity.
    + rewrite <- app_comm_cons. cbn [find].
      destruct (String.eqb_spec (fst e') url) as [E'|N']; [|exact IH].
      destruct (String.eqb_spec (fst e) url) as [E2|_]; [|reflexivity].
      congruence.
Qed.

Lemma fetch_all_answers (net : Network) (urls : list string)
    (es : list (string * Response)) :
  fetch_all net urls = Some es ->
  map fst es = urls /\
  Forall (fun e => net (fst e) = Some (snd e)) es.
Proof.
  revert es. induction urls as [|u us IH]; intros es E; cbn in E.
  - injection E as <-. split; [reflexivity|constructor].
  - destruct (net u) as [r|] eqn:Er; [|discriminate].
    destruct (resp_ok r); [|discriminate].
    destruct (fetch_all net us) as [es'|]; [|discriminate].
    injection E as <-. destruct (IH es' eq_refl) as [A B].
    split; [cbn; now rewrite A|]. constructor; [exact Er|exact B].
Qed.

Lemma put_all_keeps (net : Network) (url : string) (r : Response)
    (es : list (string * Response)) (c : Cache) :
  net url = Some r ->
  Forall (fun e => net (fst e) = Some (snd e)) es ->
  cache_match url c = Some r ->
  cache_match url (fold_left cache_put es c) = Some r.
Proof.
  intros Hr F. revert c. induction F as [|e es He F IH]; intros c Hc;
    cbn [fold_left]; [exact Hc|].
  apply IH. rewrite cache_match_put.
  destruct (String.eqb_spec (fst e) url) as [E|_]; [|exact Hc].
  rewrite E in He. congruence.
Qed.

Lemma put_all_stores (net : Network) (url : string) (r : Response)
    (es : list (string * Response)) (c : Cache) :
  net url = Some r ->
  Forall (fun e => net (fst e) = Some (snd e)) es ->
  In url (map fst es) ->
  cache_match url (fold_left cache_put es c) = Some r.
Proof.
  intros Hr F. revert c. induction F as [|e es He F IH]; intros c Hin;
    cbn [fold_left]; [destruct Hin|].
  destruct (String.eqb_spec (fst e) url) as [E|N].
  - apply (put_all_keeps net); [exact Hr|exact F|].
    rewrite cache_match_put, E, String.eqb_refl.
    rewrite E in He. congruence.
  - apply IH. destruct Hin as [E|Hin]; [contradiction|exact Hin].
Qed.

Lemma filter_id {A} (p : A -> bool) (l : list A) :
  (forall x, In x l -> p x = true) -> filter p l = l.
Proof.
  induction l as [|x l IH]; intro H; cbn [filter]; [reflexivity|].
  rewrite (H x (or_introl eq_refl)). f_equal. apply IH.
  intros y Hy. apply H. now right.
Qed.

Lemma filter_none {A} (p : A -> bool) (l : list A) :
  (forall x, In x l -> p x = false) -> filter p l = [].
Proof.
  induction l as [|x l IH]; intro H; cbn [filter]; [reflexivity|].
  rewrite (H x (or_introl eq_refl)). apply IH.
  intros y Hy. apply H. now right.
Qed.

Lemma delete_all_filter (ks : list string) (cs : CacheStorage) :
  fold_left caches_delete ks cs
  = filter (fun e => negb (existsb (String.eqb (fst e)) ks)) cs.
Proof.
  revert cs. induction ks as [|k ks IH]; intro cs; cbn [fold_left existsb].
  - symmetry. apply filter_all.
  - rewrite IH. unfold caches_delete. rewrite filter_filter.
    apply filter_same. intro e.
    now destruct (fst e =? k)%string.
Qed.

Lemma on_activate_filter (cs : CacheStorage) :
  on_activate cs = filter (fun e => (fst e =? CACHE_NAME)%string) cs.
Proof.
  unfold on_activate. rewrite delete_all_filter.
  apply filter_ext_in. intros e He.
  destruct (String.eqb_spec (fst e) CACHE_NAME) as [E|N].
  - apply negb_true_iff. apply not_true_iff_false. intro H.
    apply existsb_exists in H. destruct H as (k & Hk & Ek).
    apply String.eqb_eq in Ek. apply filter_In in Hk.
    destruct Hk as [_ Hk]. rewrite <- Ek, E, String.eqb_refl in Hk.
    discriminate.
  - apply negb_false_iff. apply existsb_exists. exists (fst e).
    split; [|apply String.eqb_refl].
    apply filter_In. split; [now apply in_map|].
    apply negb_true_iff. now apply String.eqb_neq.
Qed.

Lemma filter_key_single (name : string) (cs : CacheStorage) :
  NoDup (caches_keys cs) -> In name (caches_keys cs) ->
  filter (fun e => (fst e =? name)%string) cs
  = [(name, caches_get name cs)].
Proof.
  unfold caches_keys, caches_get.
  induction cs as [|e cs IH]; intros N Hin; [destruct Hin|].
  cbn [map] in N. inversion N as [|? ? Hn N']; subst.
  cbn [filter find]. destruct (String.eqb_spec (fst e) name) as [E|Ne].
  - cbn [snd]. f_equal; [destruct e; cbn in *; now subst|].
    apply filter_none. intros x Hx. apply String.eqb_neq. intro Ex.
    apply Hn. rewrite E, <- Ex. now apply in_map.
  - apply IH; [exact N'|]. destruct Hin as [E|Hin]; [contradiction|exact Hin].
Qed.

Lemma caches_open_keys (name : string) (cs : CacheStorage) :
  NoDup (caches_keys cs) ->
  NoDup (caches_keys (caches_open name cs)) /\
  In name (caches_keys (caches_open name cs)).
Proof.
  intro N. unfold caches_open, caches_keys in *.
  destruct (existsb _ cs) eqn:E.
  - split; [exact N|]. apply existsb_exists in E.
    destruct E as (e & He & Ee). apply String.eqb_eq in Ee.
    rewrite <- Ee. now apply in_map.
  - rewrite map_app. cbn [map fst]. split.
    + apply NoDup_app; [exact N|repeat constructor; intros []|].
      intros k Hk [Ek|[]]. apply in_map_iff in Hk.
      destruct Hk as (e & Ee & He).
      assert (T : existsb (fun e0 => (fst e0 =? name)%string) cs = true)
        by (apply existsb_exists; exists e; split;
            [exact He|apply String.eqb_eq; congruence]).
      congruence.
    + apply in_or_app. right. now left.
Qed.

Lemma caches_set_keys (name : string) (c : Cache) (cs : CacheStorage) :
  caches_keys (caches_set name c cs) = caches_keys cs.
Proof.
  unfold caches_keys, caches_set. rewrite map_map. apply map_ext.
  intro e. now destruct (fst e =? name)%string.
Qed.

Lemma caches_get_set (name : string) (c : Cache) (cs : CacheStorage) :
  In name (caches_keys cs) -> caches_get name (caches_set name c cs) = c.
Proof.
  unfold caches_keys, caches_get, caches_set.
  induction cs as [|e cs IH]; intro Hin; [destruct Hin|].
  cbn [map find]. destruct (String.eqb_spec (fst e) name) as [E|N].
  - cbn [fst]. now rewrite E, String.eqb_refl.
  - apply String.eqb_neq in N as N'. rewrite N'. apply IH.
    destruct Hin as [E|Hin]; [contradiction|exact Hin].
Qed.

(** The worker serves the application without the network: when the
    [install] handler succeeded and the [activate] handler has run, the
    storage holds the cache of this version and no other, and a request
    for a static asset of the worker's origin is answered with the
    response fetched at installation, whatever the network does then
    and whatever older caches held for that URL. *)
Theorem service_worker_offline
    (resolve origin : string -> string) (self_origin : string)
    (net : Network) (cs cs' : CacheStorage) :
  NoDup (caches_keys cs) ->
  on_install resolve net cs = (true, cs') ->
  caches_keys (on_activate cs') = [CACHE_NAME] /\
  (forall path, In path STATIC_ASSETS ->
     origin (resolve path) = self_origin ->
     exists r,
       net (resolve path) = Some r /\ resp_ok r = true /\
       forall later : Network,
         on_fetch origin self_origin later (on_activate cs') (resolve path)
         = Responds r).
Proof.
  intros N E. unfold on_install in E.
  destruct (caches_open_keys CACHE_NAME cs N) as [N1 I1].
  set (cs1 := caches_open CACHE_NAME cs) in *.
  destruct (cache_addAll net (map resolve STATIC_ASSETS)
              (caches_get CACHE_NAME cs1)) as [c|] eqn:Ea; [|discriminate].
  injection E as <-.
  assert (A : on_activate (caches_set CACHE_NAME c cs1)
              = [(CACHE_NAME, c)]).
  { rewrite on_activate_filter, filter_key_single.
    - now rewrite caches_get_set.
    - now rewrite caches_set_keys.
    - now rewrite caches_set_keys. }
  rewrite A. split; [reflexivity|].
  intros path Hin Ho. unfold cache_addAll in Ea.
  destruct (has_duplicate _); [discriminate|].
  destruct (fetch_all net (map resolve STATIC_ASSETS)) as [es|] eqn:Ef;
    [|discriminate].
  injection Ea as <-.
  destruct (fetch_all_answers _ _ _ Ef) as [Hk F].
  assert (Hu : In (resolve path) (map fst es))
    by (rewrite Hk; now apply in_map).
  assert (Hr : exists r, net (resolve path) = Some r /\ resp_ok r = true).
  { clear - Ef Hin. revert es Ef.
    generalize STATIC_ASSETS as l, Hin. clear Hin.
    induction l as [|a l IH]; intros Hin es Ef; [destruct Hin|].
    cbn in Ef. destruct (net (resolve a)) as [r|] eqn:Er; [|discriminate].
    destruct (resp_ok r) eqn:Ok; [|discriminate].
    destruct (fetch_all net (map resolve l)) as [es'|]; [|discriminate].
    destruct Hin as [<-|Hin]; [now exists r|].
    now apply (IH Hin es'). }
  destruct Hr as (r & Hr & Hok). exists r.
  split; [exact Hr|]. split; [exact Hok|]. intro later.
  unfold on_fetch. rewrite Ho, String.eqb_refl. cbn [negb caches_match snd].
  now rewrite (put_all_stores net _ r es _ Hr F Hu).
Qed.

Lemma service_worker_offline_witness :
  exists r,
    example_network (example_resolve "./js/app.js") = Some r /\
    resp_ok r = true /\
    forall later : Network,
      on_fetch example_origin "https://tasks.example"
        later
        (on_activate
           (snd (on_install example_resolve example_network
                   [("task-manager-v8",
                     [(example_resolve "./js/app.js",
                       mkResponse true "old")])])))
        (example_resolve "./js/app.js")
      = Responds r.
Proof.
  assert (H1 : NoDup (caches_keys
                        [("task-manager-v8",
                          [(example_resolve "./js/app.js",
                            mkResponse true "old")])]))
    by (repeat constructor; intros []).
  assert (H2 : on_install example_resolve example_network
                 [("task-manager-v8",
                   [(example_resolve "./js/app.js",
                     mkResponse true "old")])]
               = (true,
                  snd (on_install example_resolve example_network
                         [("task-manager-v8",
                           [(example_resolve "./js/app.js",
                             mkResponse true "old")])])))
    by reflexivity.
  assert (H3 : In "./js/app.js" STATIC_ASSETS)
    by (cbn; tauto).
  assert (H4 : example_origin (example_resolve "./js/app.js")
               = "https://tasks.example") by reflexivity.
  exact (proj2 (service_worker_offline example_resolve example_origin
                  "https://tasks.example" example_network _ _ H1 H2)
               "./js/app.js" H3 H4).
Defined.
